(** * convert_rst.py: the RST to Markdown transpiler and the notebook cell
      segmenter, embedded function by function.

    Strings are [string]s whose characters are code points below 256; the
    character predicates below follow Python's [str.isspace] and the [\s] and
    [\w] classes of the [re] module on that range.  A Python list of lines is a
    [list string]; a cursor into it is a [nat]. *)

From Stdlib Require Import Bool Arith Lia List Ascii String.
Import ListNotations.
Open Scope string_scope.
Open Scope list_scope.
Open Scope nat_scope.

Infix "@@" := String.append (right associativity, at level 60).

(** ** Characters *)

Definition chr (n : nat) : ascii := ascii_of_nat n.

Definition NL : ascii := chr 10.
Definition TAB : ascii := chr 9.
Definition CR : ascii := chr 13.
Definition DQUOTE : ascii := chr 34.
Definition BT : ascii := "`"%char.

Definition in_range (lo hi : nat) (c : ascii) : bool :=
  let n := nat_of_ascii c in (lo <=? n) && (n <=? hi).

(** [str.isspace] on one character, which is also the class [\s]. *)
Definition is_space (c : ascii) : bool :=
  in_range 9 13 c || in_range 28 32 c || in_range 133 133 c || in_range 160 160 c.

Definition is_upper (c : ascii) : bool := in_range 65 90 c.
Definition is_lower (c : ascii) : bool := in_range 97 122 c.
Definition is_digit (c : ascii) : bool := in_range 48 57 c.

(** The class [\w]: alphanumeric characters and the underscore. *)
Definition is_word (c : ascii) : bool :=
  is_upper c || is_lower c || is_digit c || Ascii.eqb c "_"
  || in_range 170 170 c || in_range 178 179 c || in_range 181 181 c
  || in_range 185 186 c || in_range 188 190 c
  || in_range 192 214 c || in_range 216 246 c || in_range 248 255 c.

Definition to_lower (c : ascii) : ascii :=
  if is_upper c then chr (nat_of_ascii c + 32) else c.

Definition to_upper (c : ascii) : ascii :=
  if is_lower c then chr (nat_of_ascii c - 32) else c.

(** ** Python string methods *)

Fixpoint lstrip (s : string) : string :=
  match s with
  | String c s' => if is_space c then lstrip s' else s
  | EmptyString => EmptyString
  end.

Fixpoint rstrip (s : string) : string :=
  match s with
  | String c s' =>
      match rstrip s' with
      | EmptyString => if is_space c then EmptyString else String c EmptyString
      | r => String c r
      end
  | EmptyString => EmptyString
  end.

Definition strip (s : string) : string := rstrip (lstrip s).

(** Truth value of a string: non-empty. *)
Definition truthy (s : string) : bool :=
  match s with EmptyString => false | _ => true end.

(** [not line.strip()] *)
Definition is_blank (s : string) : bool := negb (truthy (strip s)).

(** [s.startswith(p)] *)
Fixpoint startswith (s p : string) {struct p} : bool :=
  match p, s with
  | EmptyString, _ => true
  | String c p', String d s' => Ascii.eqb c d && startswith s' p'
  | String _ _, EmptyString => false
  end.

Fixpoint drop (n : nat) (s : string) : string :=
  match n, s with
  | S n', String _ s' => drop n' s'
  | _, _ => s
  end.

Fixpoint take (n : nat) (s : string) : string :=
  match n, s with
  | S n', String c s' => String c (take n' s')
  | _, _ => EmptyString
  end.

Definition endswith (s p : string) : bool :=
  (String.length p <=? String.length s)
  && String.eqb (drop (String.length s - String.length p) s) p.

(** [s.split(sep)] for the one-character separator the source uses. *)
Fixpoint split (sep : ascii) (s : string) : list string :=
  match s with
  | EmptyString => [EmptyString]
  | String c s' =>
      if Ascii.eqb c sep then EmptyString :: split sep s'
      else match split sep s' with
           | l :: ls => String c l :: ls
           | [] => [String c EmptyString]
           end
  end.

(** [sep.join(xs)] *)
Fixpoint join (sep : string) (xs : list string) : string :=
  match xs with
  | [] => EmptyString
  | [x] => x
  | x :: rest => x @@ sep @@ join sep rest
  end.

Fixpoint repeat_str (s : string) (n : nat) : string :=
  match n with
  | 0 => EmptyString
  | S n' => s @@ repeat_str s n'
  end.

(** [len(set(s)) == 1]: non-empty and made of one repeated character. *)
Fixpoint all_chars (p : ascii -> bool) (s : string) : bool :=
  match s with
  | EmptyString => true
  | String c s' => p c && all_chars p s'
  end.

Definition one_char_set (s : string) : bool :=
  match s with
  | EmptyString => false
  | String c s' => all_chars (Ascii.eqb c) s'
  end.

Fixpoint mem_char (c : ascii) (s : string) : bool :=
  match s with
  | EmptyString => false
  | String d s' => Ascii.eqb c d || mem_char c s'
  end.

Fixpoint map_str (f : ascii -> ascii) (s : string) : string :=
  match s with
  | EmptyString => EmptyString
  | String c s' => String (f c) (map_str f s')
  end.

(** [s.capitalize()] *)
Definition capitalize (s : string) : string :=
  match s with
  | EmptyString => EmptyString
  | String c s' => String (to_upper c) (map_str to_lower s')
  end.

(** [text.expandtabs(tab_size)]: the column restarts after a line feed or a
    carriage return. *)
Fixpoint expandtabs_from (tab_size col : nat) (s : string) : string :=
  match s with
  | EmptyString => EmptyString
  | String c s' =>
      if Ascii.eqb c TAB then
        if 0 <? tab_size then
          let incr := tab_size - col mod tab_size in
          repeat_str " " incr @@ expandtabs_from tab_size (col + incr) s'
        else expandtabs_from tab_size col s'
      else
        String c (expandtabs_from tab_size
                    (if Ascii.eqb c NL || Ascii.eqb c CR then 0 else S col) s')
  end.

Definition expand_tabs (text : string) (tab_size : nat) : string :=
  expandtabs_from tab_size 0 text.

Definition is_code_continuation (line : string) : bool :=
  match line with
  | String c _ => Ascii.eqb c " " || Ascii.eqb c TAB
  | EmptyString => false
  end.

(** [len(line) - len(line.lstrip()) if line.strip() else 0] *)
Definition indent_of (line : string) : nat :=
  if truthy (strip line) then String.length line - String.length (lstrip line) else 0.

(** ** Regular expressions

    The patterns of the source are written as terms of [regex] and run by a
    backtracking matcher with the priorities of Python's [re]: alternatives
    left to right, repetition greedy (longest first, then shorter).  Every
    repetition in the source is over a character class. *)

Inductive regex : Type :=
| Eps
| Lit (c : ascii)
| Cls (p : ascii -> bool)
| Seq (r1 r2 : regex)
| Alt (r1 r2 : regex)
| Star (p : ascii -> bool)
| Grp (n : nat) (r : regex)
| Bol
| Eol.

Infix ";;" := Seq (right associativity, at level 61).

(** A literal string. *)
Fixpoint Str (s : string) : regex :=
  match s with
  | EmptyString => Eps
  | String c s' => Lit c ;; Str s'
  end.

(** [p+] and [r?] (both greedy). *)
Definition Plus (p : ascii -> bool) : regex := Cls p ;; Star p.
Definition Opt (r : regex) : regex := Alt r Eps.

Record flags : Type := { multiline : bool; ignorecase : bool }.

Definition no_flags : flags := {| multiline := false; ignorecase := false |}.
Definition flags_M : flags := {| multiline := true; ignorecase := false |}.
Definition flags_MI : flags := {| multiline := true; ignorecase := true |}.

(** Captured groups, most recent first. *)
Definition caps : Type := list (nat * string).

Fixpoint group (n : nat) (cs : caps) : option string :=
  match cs with
  | [] => None
  | (m, s) :: cs' => if n =? m then Some s else group n cs'
  end.

(** [m.group(n) or default] *)
Definition group_or (n : nat) (cs : caps) (default : string) : string :=
  match group n cs with
  | Some s => if truthy s then s else default
  | None => default
  end.

Definition lit_ok (fl : flags) (c d : ascii) : bool :=
  if ignorecase fl then Ascii.eqb (to_lower c) (to_lower d) else Ascii.eqb c d.

Definition cls_ok (fl : flags) (p : ascii -> bool) (d : ascii) : bool :=
  if ignorecase fl then p d || p (to_lower d) || p (to_upper d) else p d.

(** [^]: the start of the string, and with MULTILINE also after a line feed. *)
Definition at_bol (fl : flags) (prev : option ascii) : bool :=
  match prev with
  | None => true
  | Some c => multiline fl && Ascii.eqb c NL
  end.

(** [$]: the end of the string or just before a final line feed, and with
    MULTILINE before every line feed. *)
Definition at_eol (fl : flags) (s : string) : bool :=
  match s with
  | EmptyString => true
  | String c s' => Ascii.eqb c NL && (multiline fl || negb (truthy s'))
  end.

Section Matcher.
Variable fl : flags.
Variable R : Type.

(** A continuation receives the groups, the character before the position and
    the rest of the subject. *)
Definition kont : Type := caps -> option ascii -> string -> option R.

Fixpoint star_run (p : ascii -> bool) (k : kont) (cs : caps)
  (prev : option ascii) (s : string) : option R :=
  match s with
  | String c s' =>
      if cls_ok fl p c then
        match star_run p k cs (Some c) s' with
        | Some r => Some r
        | None => k cs prev s
        end
      else k cs prev s
  | EmptyString => k cs prev s
  end.

Fixpoint exec (r : regex) (k : kont) (cs : caps) (prev : option ascii)
  (s : string) : option R :=
  match r with
  | Eps => k cs prev s
  | Lit c =>
      match s with
      | String d s' => if lit_ok fl c d then k cs (Some d) s' else None
      | EmptyString => None
      end
  | Cls p =>
      match s with
      | String d s' => if cls_ok fl p d then k cs (Some d) s' else None
      | EmptyString => None
      end
  | Seq r1 r2 => exec r1 (fun cs' prev' s' => exec r2 k cs' prev' s') cs prev s
  | Alt r1 r2 =>
      match exec r1 k cs prev s with
      | Some x => Some x
      | None => exec r2 k cs prev s
      end
  | Star p => star_run p k cs prev s
  | Grp n r1 =>
      exec r1
        (fun cs' prev' s' =>
           k ((n, take (String.length s - String.length s') s) :: cs') prev' s')
        cs prev s
  | Bol => if at_bol fl prev then k cs prev s else None
  | Eol => if at_eol fl s then k cs prev s else None
  end.

End Matcher.

Arguments star_run fl {R} p k cs prev s.
Arguments exec fl {R} r k cs prev s.

(** A match at the current position: the groups and the text after the match. *)
Definition match_here (fl : flags) (r : regex) (prev : option ascii)
  (s : string) : option (caps * string) :=
  exec fl r (fun cs _ s' => Some (cs, s')) [] prev s.

(** [re.match(pattern, s, flags)] *)
Definition re_match (fl : flags) (r : regex) (s : string) : option (caps * string) :=
  match_here fl r None s.

Definition re_matchb (fl : flags) (r : regex) (s : string) : bool :=
  match re_match fl r s with Some _ => true | None => false end.

(** [re.search(pattern, s, flags)], as a truth value: the leftmost position
    with a match. *)
Fixpoint search_from (fl : flags) (r : regex) (prev : option ascii)
  (s : string) : bool :=
  match match_here fl r prev s with
  | Some _ => true
  | None =>
      match s with
      | EmptyString => false
      | String c s' => search_from fl r (Some c) s'
      end
  end.

Definition re_search (fl : flags) (r : regex) (s : string) : bool :=
  search_from fl r None s.

(** A replacement template: literal text and group references. *)
Inductive titem : Type :=
| TText (s : string)
| TGroup (n : nat).

Fixpoint expand (t : list titem) (cs : caps) : string :=
  match t with
  | [] => EmptyString
  | TText s :: t' => s @@ expand t' cs
  | TGroup n :: t' =>
      match group n cs with Some s => s | None => EmptyString end @@ expand t' cs
  end.

(** [re.sub(pattern, template, s)]: matches are replaced left to right and
    never overlap.  [skip] counts the characters of the current match that
    remain to be passed.  Every pattern the source substitutes contains a
    literal, so no match is empty; an empty match is left alone here. *)
Fixpoint sub_from (fl : flags) (r : regex) (t : list titem)
  (prev : option ascii) (s : string) (skip : nat) : string :=
  match s with
  | EmptyString => EmptyString
  | String c s' =>
      match skip with
      | S n => sub_from fl r t (Some c) s' n
      | 0 =>
          match match_here fl r prev s with
          | Some (cs, rest) =>
              match String.length s - String.length rest with
              | 0 => String c (sub_from fl r t (Some c) s' 0)
              | S n => expand t cs @@ sub_from fl r t (Some c) s' n
              end
          | None => String c (sub_from fl r t (Some c) s' 0)
          end
      end
  end.

Definition re_sub (r : regex) (t : list titem) (s : string) : string :=
  sub_from no_flags r t None s 0.

(** ** The cell segmenter: [markdown_to_notebook] *)

Inductive cell_type : Type := markdown | code.

(** A cell is the pair [(cell_type, content)] of the source. *)
Definition cell : Type := (cell_type * string)%type.

Definition is_chr (c : ascii) : ascii -> bool := Ascii.eqb c.
Definition not_nl (c : ascii) : bool := negb (Ascii.eqb c NL).
Definition upper_or_us (c : ascii) : bool := is_upper c || Ascii.eqb c "_".

(** The fence-opening pattern: line start, group 1 = three or more
    backticks, "\s*", group 2 = "\w*", line end. *)
Definition re_code_start : regex :=
  Bol ;; Grp 1 (Lit BT ;; Lit BT ;; Plus (is_chr BT)) ;; Star is_space
      ;; Grp 2 (Star is_word) ;; Eol.

(** The fence token and the language tag of a fence-opening line. *)
Definition code_start (line : string) : option (string * string) :=
  match re_match no_flags re_code_start line with
  | Some (cs, _) =>
      Some (match group 1 cs with Some g => g | None => EmptyString end,
            group_or 2 cs EmptyString)
  | None => None
  end.

(** The list [non_python_patterns], in the order of the source. *)
Definition non_python_patterns : list regex :=
  [ Bol ;; Plus upper_or_us ;; Star is_space ;; Lit "=";
    Bol ;; Star is_space ;; Lit "#" ;; Star not_nl ;; Str "bin/";
    Bol ;; Star is_space ;; Lit "<";
    Bol ;; Star is_space ;; Lit "[" ;; Star not_nl ;; Lit "]";
    Bol ;; Str "export" ;; Plus is_space;
    Bol ;; Str "set" ;; Plus is_space;
    Bol ;; Str "call" ;; Plus is_space;
    Bol ;; Str "@echo";
    Bol ;; Str "path" ;; Plus is_space;
    Bol ;; Str "Start" ;; Plus is_space;
    Bol ;; Star is_space ;; Str "initialize the";
    Bol ;; Star is_space ;; Str "create the";
    Bol ;; Star is_space ;; Str "the main";
    Bol ;; Star is_space ;; Str "for each" ].

(** The loop over [non_python_patterns]: some pattern is found by a
    MULTILINE, IGNORECASE search. *)
Definition looks_non_python (content : string) : bool :=
  existsb (fun pattern => re_search flags_MI pattern content) non_python_patterns.

(** [code_lang in ("python", "py")] and [code_lang in ("python", "py", "")] *)
Definition lang_python_py (code_lang : string) : bool :=
  String.eqb code_lang "python" || String.eqb code_lang "py".

Definition lang_python_py_empty (code_lang : string) : bool :=
  lang_python_py code_lang || String.eqb code_lang EmptyString.

Record seg_state : Type := mk_seg {
  cells : list cell;
  current_lines : list string;
  in_code_block : bool;
  code_lang : string;
  code_fence_pattern : string;
  in_quote : bool;
  quote_code_block : bool
}.

Definition seg_init : seg_state :=
  mk_seg [] [] false EmptyString EmptyString false false.

Definition NLs : string := String NL EmptyString.

(** The cell a closed fence with non-empty [content] becomes. *)
Definition fence_cell (code_lang content : string) : cell :=
  let is_python := lang_python_py_empty code_lang in
  let is_python :=
    if is_python && String.eqb code_lang EmptyString
    then negb (looks_non_python content) else is_python in
  if is_python && lang_python_py_empty code_lang then (code, content)
  else
    let lang_tag := if truthy code_lang then code_lang else "text" in
    (markdown, "```" @@ lang_tag @@ NLs @@ content @@ NLs @@ "```").

Definition push_line (st : seg_state) (line : string) : seg_state :=
  mk_seg (cells st) (current_lines st ++ [line]) (in_code_block st)
         (code_lang st) (code_fence_pattern st) (in_quote st) (quote_code_block st).

(** One iteration of the [while i < len(lines)] loop.  Every branch of the
    source ends in [i += 1], so the loop visits the lines once each, in order. *)
Definition seg_step (st : seg_state) (line : string) : seg_state :=
  if startswith line "> ```" then
    mk_seg (cells st) (current_lines st ++ [line]) (in_code_block st)
           (code_lang st) (code_fence_pattern st) true (negb (quote_code_block st))
  else if quote_code_block st then push_line st line
  else
    match (if in_code_block st then None else code_start line) with
    | Some (fence, lang) =>
        let cells' :=
          match current_lines st with
          | [] => cells st
          | _ =>
              let content := strip (join NLs (current_lines st)) in
              if truthy content then cells st ++ [(markdown, content)] else cells st
          end in
        mk_seg cells' [] true lang fence (in_quote st) (quote_code_block st)
    | None =>
        if in_code_block st && String.eqb (strip line) (code_fence_pattern st) then
          let content := strip (join NLs (current_lines st)) in
          let cells' :=
            if truthy content then cells st ++ [fence_cell (code_lang st) content]
            else cells st in
          mk_seg cells' [] false EmptyString EmptyString
                 (in_quote st) (quote_code_block st)
        else push_line st line
    end.

Definition seg_loop (lines : list string) : seg_state :=
  fold_left seg_step lines seg_init.

(** [# Handle remaining content] *)
Definition seg_flush (st : seg_state) : list cell :=
  match current_lines st with
  | [] => cells st
  | _ =>
      let content := strip (join NLs (current_lines st)) in
      if truthy content then
        if in_code_block st && lang_python_py (code_lang st)
        then cells st ++ [(code, content)]
        else cells st ++ [(markdown, content)]
      else cells st
  end.

(** The list [cells] when the loop and the final flush are done. *)
Definition raw_cells (markdown_content : string) : list cell :=
  seg_flush (seg_loop (split NL markdown_content)).

Definition flush_md (combined : list cell) (current_md : list string) : list cell :=
  match current_md with
  | [] => combined
  | _ => combined ++ [(markdown, join (NLs @@ NLs) current_md)]
  end.

(** [# Combine consecutive markdown cells] *)
Fixpoint combine_cells (cs : list cell) (combined_cells : list cell)
  (current_md : list string) : list cell :=
  match cs with
  | [] => flush_md combined_cells current_md
  | (markdown, content) :: cs' =>
      combine_cells cs' combined_cells (current_md ++ [content])
  | (cell_type, content) :: cs' =>
      combine_cells cs' (flush_md combined_cells current_md ++ [(cell_type, content)]) []
  end.

(** The cells of the notebook the function returns (its metadata is constant). *)
Definition markdown_to_notebook (markdown_content title : string) : list cell :=
  let combined_cells := combine_cells (raw_cells markdown_content) [] [] in
  match combined_cells with
  | [] => [(markdown, if truthy title then "# " @@ title else "# Untitled")]
  | _ => combined_cells
  end.

(** ** The transpiler: [rst_to_markdown] *)

(** *** Loops over the cursor

    [while_idx fuel n body i s] runs [while i < n: ...] from cursor [i] and
    loop state [s].  [body i s] is one iteration: [None] leaves the loop (a
    [break]), [Some (i', s')] goes on at cursor [i'].  The callers give the
    fuel [n - i], which is never used up when every iteration advances the
    cursor (lemma [while_idx_exit]). *)
Fixpoint while_idx {St : Type} (fuel n : nat) (body : nat -> St -> option (nat * St))
  (i : nat) (s : St) : nat * St :=
  match fuel with
  | 0 => (i, s)
  | S f =>
      if i <? n then
        match body i s with
        | Some (i', s') => while_idx f n body i' s'
        | None => (i, s)
        end
      else (i, s)
  end.

(** A loop whose iteration reads [lines[i]] only and ends in [i += 1]. *)
Definition line_body {St : Type} (lines : list string)
  (body : string -> St -> option St) (i : nat) (s : St) : option (nat * St) :=
  match body (nth i lines EmptyString) s with
  | Some s' => Some (S i, s')
  | None => None
  end.

Definition while_lines {St : Type} (lines : list string)
  (body : string -> St -> option St) (i : nat) (s : St) : nat * St :=
  while_idx (List.length lines - i) (List.length lines) (line_body lines body) i s.

(** A loop without state: the cursor moves while [go lines[i]] holds. *)
Definition skip_lines (lines : list string) (go : string -> bool) (i : nat) : nat :=
  fst (while_lines lines (fun l (_ : unit) => if go l then Some tt else None) i tt).

(** [while xs and p(xs[-1]): xs.pop()] *)
Fixpoint pop_while (p : string -> bool) (xs : list string) : list string :=
  match xs with
  | [] => []
  | x :: xs' =>
      match pop_while p xs' with
      | [] => if p x then [] else [x]
      | r => x :: r
      end
  end.

(** [while xs and p(xs[0]): xs.pop(0)] *)
Fixpoint pop0_while (p : string -> bool) (xs : list string) : list string :=
  match xs with
  | [] => []
  | x :: xs' => if p x then pop0_while p xs' else xs
  end.

(** [len(line) - len(line.lstrip())] *)
Definition raw_indent (line : string) : nat :=
  String.length line - String.length (lstrip line).

(** *** Directive patterns, matched with [re.match] on the stripped line *)

Definition dots : regex := Str ".." ;; Plus is_space.

Definition re_testskip : regex :=
  dots ;; Grp 1 (Alt (Str "testsetup") (Alt (Str "testcleanup") (Str "testoutput")))
       ;; Str "::".
Definition re_highlight : regex := dots ;; Str "highlight::".
Definition re_only_html : regex := dots ;; Str "only::" ;; Plus is_space ;; Str "html".
Definition re_index : regex := dots ;; Str "index::".
Definition word_or_dash (c : ascii) : bool := is_word c || Ascii.eqb c "-".
Definition re_target : regex :=
  dots ;; Lit "_" ;; Plus word_or_dash ;; Lit ":" ;; Star is_space ;; Eol.
Definition re_testcode : regex := dots ;; Str "testcode::".
Definition re_code_block : regex :=
  dots ;; Str "code-block::" ;; Star is_space ;; Opt (Grp 1 (Plus is_word)).
Definition re_figure : regex :=
  dots ;; Str "figure::" ;; Star is_space ;; Grp 1 (Plus not_nl).
Definition re_admonition : regex :=
  dots ;; Grp 1 (Alt (Str "hint") (Alt (Str "note") (Alt (Str "warning")
                  (Alt (Str "tip") (Str "important")))))
       ;; Str "::" ;; Star is_space ;; Grp 2 (Star not_nl).
Definition re_directive : regex := dots ;; Plus is_word ;; Str "::".

Definition matches (r : regex) (s : string) : bool := re_matchb no_flags r s.

(** *** Skip handlers *)

(** The loop of the testsetup/testcleanup/testoutput and [only:: html]
    handlers. *)
Definition skip_block (lines : list string) (base_indent i : nat) : nat :=
  skip_lines lines
    (fun next_line =>
       negb (truthy (strip next_line) && (indent_of next_line <=? base_indent)
             && negb (startswith next_line " "))) i.

Definition skip_highlight (lines : list string) (i : nat) : nat :=
  skip_lines lines
    (fun l =>
       (is_blank l || startswith l " ")
       && negb (truthy (strip l) && negb (startswith (strip l) ":"))) i.

Definition skip_index (lines : list string) (i : nat) : nat :=
  skip_lines lines (fun l => is_blank l || startswith l " ") i.

Definition skip_unknown (lines : list string) (indent i : nat) : nat :=
  skip_lines lines
    (fun next_line =>
       negb (truthy (strip next_line) && (indent_of next_line <=? indent))) i.

(** *** Titles *)

Definition underline_chars : string := "=-~*+^" @@ String DQUOTE "'".

Definition head_char (s : string) : ascii :=
  match s with String c _ => c | EmptyString => "000"%char end.

Definition is_underline (underline : string) : bool :=
  one_char_set underline && mem_char (head_char underline) underline_chars
  && (3 <=? String.length underline).

(** The two nested conditions that guard the title handler. *)
Definition is_title (lines : list string) (i : nat) : bool :=
  (i + 1 <? List.length lines) && truthy (strip (nth i lines EmptyString))
  && truthy (strip (nth (i + 1) lines EmptyString))
  && is_underline (strip (nth (i + 1) lines EmptyString)).

(** [level_map.get(underline_char, 2)] *)
Definition level_map (c : ascii) : nat :=
  if Ascii.eqb c "*" then 1 else if Ascii.eqb c "=" then 2
  else if Ascii.eqb c "-" then 3 else if Ascii.eqb c "~" then 4
  else if Ascii.eqb c "+" then 5 else if Ascii.eqb c "^" then 6 else 2.

(** The overline test on the last line of the output so far. *)
Definition has_overline (result : list string) (underline_char : ascii) : bool :=
  match result with
  | [] => false
  | _ =>
      let prev := strip (last result EmptyString) in
      truthy prev && one_char_set prev && Ascii.eqb (head_char prev) underline_char
  end.

Definition h_title (lines : list string) (i : nat) (result : list string)
  : nat * list string :=
  let title := strip (nth i lines EmptyString) in
  let underline_char := head_char (strip (nth (i + 1) lines EmptyString)) in
  let overlined := has_overline result underline_char in
  let level := if overlined then 1 else level_map underline_char in
  let result := if overlined then removelast result else result in
  (i + 2, result ++ [EmptyString; repeat_str "#" level @@ " " @@ title; EmptyString]).

(** *** Code bodies *)

(** What the collecting loops append for [code_line]. *)
Definition dedent_line (code_base_indent : nat) (code_line : string) : string :=
  if truthy (strip code_line) then
    if code_base_indent <? String.length code_line
    then drop code_base_indent code_line
    else lstrip code_line
  else EmptyString.

(** One iteration of [# Collect indented code]: stop at a non-blank line
    indented less than the base, else append the dedented line. *)
Definition collect_body (code_base_indent : nat) (code_line : string)
  (acc : list string) : option (list string) :=
  if truthy (strip code_line) && (indent_of code_line <? code_base_indent)
  then None
  else Some (acc ++ [dedent_line code_base_indent code_line]).

Definition collect_code (lines : list string) (code_base_indent i : nat)
  (acc : list string) : nat * list string :=
  while_lines lines (collect_body code_base_indent) i acc.

(** [# Find the base indentation of the code] *)
Definition base_indent_at (lines : list string) (i : nat) : nat :=
  if (i <? List.length lines) && truthy (strip (nth i lines EmptyString))
  then raw_indent (nth i lines EmptyString)
  else 4.

Definition h_testcode (lines : list string) (i : nat) (result : list string)
  : nat * list string :=
  let i := skip_lines lines is_blank (S i) in
  let result := result ++ [EmptyString; "```python"] in
  let code_base_indent := base_indent_at lines i in
  let '(i, result) := collect_code lines code_base_indent i result in
  let result :=
    pop_while (fun l => is_blank l && negb (String.eqb l "```python")) result in
  (i, result ++ ["```"; EmptyString]).

Definition h_code_block (lines : list string) (i : nat) (result : list string)
  (lang : string) : nat * list string :=
  let i := skip_lines lines (fun l => is_blank l || startswith (strip l) ":") (S i) in
  let result := result ++ [EmptyString; "```" @@ lang] in
  let code_base_indent := base_indent_at lines i in
  let '(i, result) := collect_code lines code_base_indent i result in
  let result := pop_while is_blank result in
  (i, result ++ ["```"; EmptyString]).

(** *** Literal blocks *)

Definition re_ini_section : regex := Bol ;; Lit "[" ;; Star not_nl ;; Lit "]".
Definition re_ini_comment : regex := Bol ;; Lit ";" ;; Star is_space.
Definition re_ini_keyvalue : regex :=
  Bol ;; Plus is_word ;; Star is_space ;; Lit "=" ;; Star is_space ;; Cls is_word.
Definition re_code_keyword : regex :=
  Bol ;; Star is_space
      ;; Grp 1 (Alt (Str "def") (Alt (Str "class") (Alt (Str "import")
                (Alt (Str "from") (Alt (Str "if") (Alt (Str "for")
                (Alt (Str "while") (Alt (Str "try") (Str "with")))))))))
      ;; Cls is_space.

(** The condition of [# Check for INI/config file patterns]. *)
Definition ini_marker (code_content : string) : bool :=
  re_search flags_M re_ini_section code_content
  || re_search flags_M re_ini_comment code_content
  || re_search flags_M re_ini_keyvalue code_content.

Definition code_keyword (code_content : string) : bool :=
  re_search flags_M re_code_keyword code_content.

(** [# Detect language based on content] *)
Definition detect_lang (code_content : string) : string :=
  if ini_marker code_content then
    if negb (code_keyword code_content) then "ini" else "python"
  else "python".

Definition h_literal (lines : list string) (i : nat) (result : list string)
  : nat * list string :=
  let stripped := strip (nth i lines EmptyString) in
  let prefix := rstrip (take (String.length stripped - 2) stripped) in
  let result := if truthy prefix then result ++ [prefix @@ ":"] else result in
  let i := skip_lines lines is_blank (S i) in
  if (i <? List.length lines)
     && (startswith (nth i lines EmptyString) "  "
         || startswith (nth i lines EmptyString) (String TAB EmptyString))
  then
    let code_base_indent := raw_indent (nth i lines EmptyString) in
    let '(temp_i, code_lines) := collect_code lines code_base_indent i [] in
    let code_lines := pop_while is_blank code_lines in
    let lang := detect_lang (join NLs code_lines) in
    (temp_i, result ++ [EmptyString; "```" @@ lang] ++ code_lines ++ ["```"; EmptyString])
  else (i, result).

(** *** Figures *)

Definition figure_body (l : string) (caption : string) : option string :=
  if startswith l "   " || is_blank l then
    let option_line := strip l in
    if truthy option_line && negb (startswith option_line ":")
    then Some option_line else Some caption
  else None.

Definition h_figure (lines : list string) (i : nat) (result : list string)
  (img_path : string) : nat * list string :=
  let '(i, caption) := while_lines lines figure_body (S i) EmptyString in
  let result := result ++ [EmptyString; "![" @@ caption @@ "](" @@ img_path @@ ")"] in
  let result := if truthy caption then result ++ ["*" @@ caption @@ "*"] else result in
  (i, result ++ [EmptyString]).

(** *** Admonitions *)

(** The nested [testcode] extraction: the cursor after it and the block. *)
Definition nested_testcode (lines : list string) (i : nat) (code_blocks : list string)
  : nat * list string :=
  let i := skip_lines lines is_blank (S i) in
  let code_base_indent := base_indent_at lines i in
  let '(i, code_lines) := collect_code lines code_base_indent i [] in
  let code_lines := pop_while is_blank code_lines in
  (i, match code_lines with
      | [] => code_blocks
      | _ => code_blocks ++ [join NLs code_lines]
      end).

(** One iteration of the admonition's loop; the state is
    [(text_lines, code_blocks)]. *)
Definition admonition_body (lines : list string) (base_indent : nat) (i : nat)
  (st : list string * list string) : option (nat * (list string * list string)) :=
  let '(text_lines, code_blocks) := st in
  let content_line := nth i lines EmptyString in
  let content_stripped := strip content_line in
  if truthy content_stripped && (indent_of content_line <? base_indent)
     && negb (startswith content_line " ")
  then None
  else if matches re_testcode content_stripped then
    let '(i', code_blocks') := nested_testcode lines i code_blocks in
    Some (i', (text_lines, code_blocks'))
  else
    let text :=
      if truthy content_stripped then
        if base_indent <? String.length content_line
        then drop base_indent content_line else content_stripped
      else EmptyString in
    Some (S i, (text_lines ++ [text], code_blocks)).

Definition h_admonition (lines : list string) (i indent : nat) (result : list string)
  (directive_type inline_content : string) : nat * list string :=
  let base_indent := indent + 3 in
  let '(i, (text_lines, code_blocks)) :=
    while_idx (List.length lines - S i) (List.length lines)
      (admonition_body lines base_indent) (S i) ([], []) in
  let text_lines := pop_while is_blank text_lines in
  let result := result ++ [EmptyString] in
  let hint_text := inline_content in
  let hint_text :=
    match text_lines with
    | [] => hint_text
    | _ =>
        (if truthy hint_text then hint_text @@ " " else EmptyString)
        @@ join " " (filter (fun line => truthy (strip line)) text_lines)
    end in
  let result :=
    result ++ [if truthy hint_text
               then "**" @@ capitalize directive_type @@ ":** " @@ hint_text
               else "**" @@ capitalize directive_type @@ "**"; EmptyString] in
  (i, fold_left (fun result code => result ++ ["```python"; code; "```"; EmptyString])
        code_blocks result).

(** *** The inline role rewriter *)

Definition not_bt (c : ascii) : bool := negb (Ascii.eqb c BT).
Definition not_lt (c : ascii) : bool := negb (Ascii.eqb c "<").
Definition not_gt (c : ascii) : bool := negb (Ascii.eqb c ">").
Definition not_lt_bt (c : ascii) : bool := not_lt c && not_bt c.

(** The opening of a role: a colon, the name, a colon and a backtick. *)
Definition role (name : string) : regex := Str (":" @@ name @@ ":`").

(** A role with any text: the role, group 1 = one or more characters other
    than a backtick, a backtick. *)
Definition re_role (name : string) : regex :=
  role name ;; Grp 1 (Plus not_bt) ;; Lit BT.

(** A role with a target: the role, group 1 = one or more characters other
    than "<" and a backtick, "\s*", "<", one or more characters other than
    ">", ">" and a backtick. *)
Definition re_role_target (name : string) : regex :=
  role name ;; Grp 1 (Plus not_lt_bt) ;; Star is_space ;; Lit "<"
            ;; Plus not_gt ;; Lit ">" ;; Lit BT.

(** As [re_role_target], with both texts possibly empty (api, pyqgis). *)
Definition re_role_target0 (name : string) : regex :=
  role name ;; Grp 1 (Star not_lt_bt) ;; Star is_space ;; Lit "<"
            ;; Star not_gt ;; Lit ">" ;; Lit BT.

Definition re_role_source : regex :=
  role "source" ;; Grp 1 (Plus not_lt_bt) ;; Star is_space ;; Lit "<"
                ;; Grp 2 (Plus not_gt) ;; Lit ">" ;; Lit BT.

(** Two backticks, group 1 = one or more characters other than a backtick,
    two backticks. *)
Definition re_double_backtick : regex :=
  Lit BT ;; Lit BT ;; Grp 1 (Plus not_bt) ;; Lit BT ;; Lit BT.

(** A backtick, group 1 = one or more characters other than "<", "\s*", "<",
    group 2 = one or more characters other than ">", ">", a backtick and one
    or more underscores. *)
Definition re_link : regex :=
  Lit BT ;; Grp 1 (Plus not_lt) ;; Star is_space ;; Lit "<"
         ;; Grp 2 (Plus not_gt) ;; Lit ">" ;; Lit BT ;; Plus (is_chr "_").

Definition t_code : list titem := [TText "`"; TGroup 1; TText "`"].
Definition t_bold : list titem := [TText "**"; TGroup 1; TText "**"].
Definition t_italic : list titem := [TText "*"; TGroup 1; TText "*"].
Definition t_kbd : list titem := [TText "<kbd>"; TGroup 1; TText "</kbd>"].
Definition t_text : list titem := [TGroup 1].
Definition t_link : list titem :=
  [TText "["; TGroup 1; TText "]("; TGroup 2; TText ")"].

(** The [re.sub] calls of the plain-line branch, in the order of the source. *)
Definition inline_rules : list (regex * list titem) :=
  [ (re_role "file", t_code);
    (re_role "menuselection", t_bold);
    (re_role "command", t_code);
    (re_role "data", t_code);
    (re_role "const", t_code);
    (re_role "kbd", t_kbd);
    (re_role "guilabel", t_bold);
    (re_role "envvar", t_code);
    (re_role_target "class", t_code);
    (re_role "class", t_code);
    (re_role_target "meth", t_code);
    (re_role "meth", t_code);
    (re_role_target "func", t_code);
    (re_role "func", t_code);
    (re_role_target "attr", t_code);
    (re_role "attr", t_code);
    (re_role "mod", t_code);
    (re_role "ref", t_italic);
    (re_role "doc", t_italic);
    (re_role_target0 "api", t_text);
    (re_role_target0 "pyqgis", t_text);
    (re_role_source, t_link);
    (re_double_backtick, t_code);
    (re_link, t_link) ].

Definition apply_rules (rules : list (regex * list titem)) (line : string) : string :=
  fold_left (fun converted_line rule => re_sub (fst rule) (snd rule) converted_line)
            rules line.

(** [# Convert inline RST to Markdown] *)
Definition convert_inline (line : string) : string := apply_rules inline_rules line.

(** *** The dispatcher *)

(** One iteration of the main loop at cursor [i < len(lines)]: the handlers
    in the priority order of the source, each returning the new cursor and
    the new output. *)
Definition step (lines : list string) (i : nat) (result : list string)
  : nat * list string :=
  let line := nth i lines EmptyString in
  let stripped := strip line in
  let indent := indent_of line in
  if matches re_testskip stripped then (skip_block lines indent (S i), result)
  else if matches re_highlight stripped then (skip_highlight lines (S i), result)
  else if matches re_only_html stripped then (skip_block lines indent (S i), result)
  else if matches re_index stripped then (skip_index lines (S i), result)
  else if matches re_target stripped then (S i, result)
  else if is_title lines i then h_title lines i result
  else if matches re_testcode stripped then h_testcode lines i result
  else
    match re_match no_flags re_code_block stripped with
    | Some (cs, _) => h_code_block lines i result (group_or 1 cs "python")
    | None =>
        if endswith stripped "::" && negb (startswith stripped "..")
        then h_literal lines i result
        else
          match re_match no_flags re_figure stripped with
          | Some (cs, _) =>
              h_figure lines i result (strip (group_or 1 cs EmptyString))
          | None =>
              match re_match no_flags re_admonition stripped with
              | Some (cs, _) =>
                  h_admonition lines i indent result (group_or 1 cs EmptyString)
                               (strip (group_or 2 cs EmptyString))
              | None =>
                  if matches re_directive stripped
                     && negb (startswith stripped ".. code")
                  then (skip_unknown lines indent (S i), result)
                  else (S i, result ++ [convert_inline line])
              end
          end
    end.

(** The loop [while i < len(lines)], with fuel. *)
Fixpoint dispatch (fuel : nat) (lines : list string) (i : nat)
  (result : list string) : nat * list string :=
  match fuel with
  | 0 => (i, result)
  | S f =>
      if i <? List.length lines then
        let '(i', result') := step lines i result in
        dispatch f lines i' result'
      else (i, result)
  end.

(** The cursors the loop visits, in order. *)
Fixpoint visited (fuel : nat) (lines : list string) (i : nat)
  (result : list string) : list nat :=
  match fuel with
  | 0 => []
  | S f =>
      if i <? List.length lines then
        let '(i', result') := step lines i result in
        i :: visited f lines i' result'
      else []
  end.

(** [# Clean up multiple empty lines] *)
Fixpoint collapse_blank (result : list string) (prev_empty : bool) : list string :=
  match result with
  | [] => []
  | line :: rest =>
      let is_empty := is_blank line in
      if is_empty && prev_empty then collapse_blank rest prev_empty
      else line :: collapse_blank rest is_empty
  end.

(** The output buffer of the dispatch loop on a list of lines. *)
Definition transpile_lines (lines : list string) : list string :=
  snd (dispatch (List.length lines) lines 0 []).

Definition assemble (result : list string) : string :=
  let cleaned := collapse_blank result false in
  let cleaned := pop0_while is_blank cleaned in
  let cleaned := pop_while is_blank cleaned in
  join NLs cleaned.

Definition rst_to_markdown (rst_content : string) : string :=
  let rst_content := expand_tabs rst_content 4 in
  let lines := split NL rst_content in
  assemble (transpile_lines lines).

(** ** Notions used to state the properties *)

(** Merging written head first: prose contents are gathered until the next
    code cell, which is kept as it is. *)
Fixpoint merge_runs (cs : list cell) (current_md : list string) : list cell :=
  match cs with
  | [] => flush_md [] current_md
  | (markdown, content) :: cs' => merge_runs cs' (current_md ++ [content])
  | (code, content) :: cs' =>
      flush_md [] current_md ++ (code, content) :: merge_runs cs' []
  end.

Definition is_markdown (c : cell) : bool :=
  match fst c with markdown => true | code => false end.

Definition is_code (c : cell) : bool := negb (is_markdown c).

(** No two neighbours are both prose cells. *)
Fixpoint no_adjacent_markdown (cs : list cell) : bool :=
  match cs with
  | [] => true
  | c :: cs' =>
      match cs' with
      | [] => true
      | d :: _ => negb (is_markdown c && is_markdown d) && no_adjacent_markdown cs'
      end
  end.

(** The content of a cell comes from a text that is non-empty once stripped:
    it is that stripped text, or the stripped text inside a fence of its own. *)
Definition from_nonblank (c : cell) : Prop :=
  exists text : string,
    strip text <> EmptyString
    /\ (snd c = strip text
        \/ exists tag : string,
             c = (markdown, "```" @@ tag @@ NLs @@ strip text @@ NLs @@ "```")).

(** *** What a match is

    [sem fl r cs prev s cs' prev' s'] says that [r] can match the text between
    [s] and its suffix [s'], taking the groups from [cs] to [cs'] and the
    previous character from [prev] to [prev'].  It forgets priorities: the
    matcher returns one of these matches (lemma [exec_sound]). *)

(** The character before the position reached after [run]. *)
Fixpoint last_of (prev : option ascii) (run : string) : option ascii :=
  match run with
  | EmptyString => prev
  | String c run' => last_of (Some c) run'
  end.

Fixpoint sem (fl : flags) (r : regex) (cs : caps) (prev : option ascii) (s : string)
  (cs' : caps) (prev' : option ascii) (s' : string) : Prop :=
  match r with
  | Eps => cs' = cs /\ prev' = prev /\ s' = s
  | Lit c =>
      exists d, s = String d s' /\ lit_ok fl c d = true /\ cs' = cs /\ prev' = Some d
  | Cls p =>
      exists d, s = String d s' /\ cls_ok fl p d = true /\ cs' = cs /\ prev' = Some d
  | Seq r1 r2 =>
      exists cs1 prev1 s1,
        sem fl r1 cs prev s cs1 prev1 s1 /\ sem fl r2 cs1 prev1 s1 cs' prev' s'
  | Alt r1 r2 => sem fl r1 cs prev s cs' prev' s' \/ sem fl r2 cs prev s cs' prev' s'
  | Star p =>
      exists run,
        s = run @@ s' /\ all_chars (cls_ok fl p) run = true
        /\ cs' = cs /\ prev' = last_of prev run
  | Grp n r1 =>
      exists cs1,
        sem fl r1 cs prev s cs1 prev' s'
        /\ cs' = (n, take (String.length s - String.length s') s) :: cs1
  | Bol => at_bol fl prev = true /\ cs' = cs /\ prev' = prev /\ s' = s
  | Eol => at_eol fl s = true /\ cs' = cs /\ prev' = prev /\ s' = s
  end.

(** [can_match fl r s rest]: [r] has a match of the text between [s] and
    [rest] that the matcher finds whatever follows succeeds at [rest]. *)
Definition can_match (fl : flags) (r : regex) (s rest : string) : Prop :=
  forall (R : Type) (k : kont R),
    (forall cs prev, k cs prev rest <> None) ->
    forall cs prev, exec fl r k cs prev s <> None.

(** *** The non-code signatures of an untagged fence, line by line

    Each one is written for a single line, in the order of
    [non_python_patterns]; letters are taken as written. *)

Fixpoint skip_cls (p : ascii -> bool) (s : string) : string :=
  match s with
  | String c s' => if p c then skip_cls p s' else s
  | EmptyString => EmptyString
  end.

(** [w in s] *)
Fixpoint contains (s w : string) : bool :=
  startswith s w
  || match s with
     | String _ s' => contains s' w
     | EmptyString => false
     end.

(** A name of capitals and underscores, optional blanks, an equals sign. *)
Definition sig_caps_assignment (l : string) : bool :=
  match l with
  | String c _ => upper_or_us c && startswith (lstrip (skip_cls upper_or_us l)) "="
  | EmptyString => false
  end.

(** A comment that names a [bin/] path. *)
Definition sig_shebang (l : string) : bool :=
  match lstrip l with
  | String c r => Ascii.eqb c "#" && contains r "bin/"
  | EmptyString => false
  end.

(** The line starts with [w], after optional blanks. *)
Definition sig_starts (w l : string) : bool := startswith (lstrip l) w.

(** An opening bracket with a closing bracket later on the line. *)
Definition sig_bracket (l : string) : bool :=
  match lstrip l with
  | String c r => Ascii.eqb c "[" && mem_char "]" r
  | EmptyString => false
  end.

(** The command word [kw] at the start of the line, then a blank. *)
Definition sig_command (kw l : string) : bool :=
  startswith l kw
  && match drop (String.length kw) l with
     | String c _ => is_space c
     | EmptyString => false
     end.

Definition line_signatures : list (string -> bool) :=
  [ sig_caps_assignment; sig_shebang; sig_starts "<"; sig_bracket;
    sig_command "export"; sig_command "set"; sig_command "call";
    (fun l => startswith l "@echo"); sig_command "path"; sig_command "Start";
    sig_starts "initialize the"; sig_starts "create the"; sig_starts "the main";
    sig_starts "for each" ].

(** *** Notions for the loops *)

(** Every iteration of [body] moves the cursor forward, and not past [n]. *)
Definition advancing {St : Type} (n : nat) (body : nat -> St -> option (nat * St))
  : Prop :=
  forall i s i' s', i < n -> body i s = Some (i', s') -> i < i' /\ i' <= n.

(** A list of cursors that grows strictly. *)
Fixpoint increasing (xs : list nat) : Prop :=
  match xs with
  | [] => True
  | x :: xs' =>
      match xs' with
      | [] => True
      | y :: _ => x < y /\ increasing xs'
      end
  end.

(** *** Patterns that need a character *)

(** [needs c r]: every match of [r] passes over the character [c]
    (a sufficient syntactic test). *)
Fixpoint needs (c : ascii) (r : regex) : bool :=
  match r with
  | Lit d => Ascii.eqb c d
  | Seq r1 r2 => needs c r1 || needs c r2
  | Alt r1 r2 => needs c r1 && needs c r2
  | Grp _ r1 => needs c r1
  | _ => false
  end.

(** *** INI markers and code keywords, line by line *)

(** A [[section]] header: the line opens with a bracket closed later on. *)
Definition ini_section_line (l : string) : bool :=
  match l with
  | String c r => Ascii.eqb c "[" && mem_char "]" r
  | EmptyString => false
  end.

(** A comment line: the line opens with a semicolon. *)
Definition ini_comment_line (l : string) : bool := startswith l ";".

(** [key = value]: a word, optional blanks, an equals sign, optional
    blanks, a word character. *)
Definition ini_keyvalue_line (l : string) : bool :=
  match l with
  | String c _ =>
      is_word c
      && match lstrip (skip_cls is_word l) with
         | String e r =>
             Ascii.eqb e "="
             && match lstrip r with
                | String v _ => is_word v
                | EmptyString => false
                end
         | EmptyString => false
         end
  | EmptyString => false
  end.

Definition code_keywords : list string :=
  ["def"; "class"; "import"; "from"; "if"; "for"; "while"; "try"; "with"].

(** The statement keyword [kw] opens the line, after optional blanks, and a
    blank follows it. *)
Definition keyword_line (kw l : string) : bool := sig_command kw (lstrip l).

(** *** The handler that owns a line

    [select] is the chain of tests of [step] on its own: the first handler,
    in the priority order of the source, whose test the line at the cursor
    passes.  [run_handler] is what that handler does; lemma [step_select]
    says that [step] is the two together. *)

Inductive handler : Type :=
| H_testskip
| H_highlight
| H_only_html
| H_index
| H_target
| H_title
| H_testcode
| H_code_block (lang : string)
| H_literal
| H_figure (img_path : string)
| H_admonition (directive_type inline_content : string)
| H_unknown
| H_plain.

Definition select (lines : list string) (i : nat) : handler :=
  let stripped := strip (nth i lines EmptyString) in
  if matches re_testskip stripped then H_testskip
  else if matches re_highlight stripped then H_highlight
  else if matches re_only_html stripped then H_only_html
  else if matches re_index stripped then H_index
  else if matches re_target stripped then H_target
  else if is_title lines i then H_title
  else if matches re_testcode stripped then H_testcode
  else
    match re_match no_flags re_code_block stripped with
    | Some (cs, _) => H_code_block (group_or 1 cs "python")
    | None =>
        if endswith stripped "::" && negb (startswith stripped "..") then H_literal
        else
          match re_match no_flags re_figure stripped with
          | Some (cs, _) => H_figure (strip (group_or 1 cs EmptyString))
          | None =>
              match re_match no_flags re_admonition stripped with
              | Some (cs, _) =>
                  H_admonition (group_or 1 cs EmptyString)
                               (strip (group_or 2 cs EmptyString))
              | None =>
                  if matches re_directive stripped
                     && negb (startswith stripped ".. code")
                  then H_unknown else H_plain
              end
          end
    end.

Definition run_handler (lines : list string) (i : nat) (result : list string)
  (h : handler) : nat * list string :=
  let indent := indent_of (nth i lines EmptyString) in
  match h with
  | H_testskip | H_only_html => (skip_block lines indent (S i), result)
  | H_highlight => (skip_highlight lines (S i), result)
  | H_index => (skip_index lines (S i), result)
  | H_target => (S i, result)
  | H_title => h_title lines i result
  | H_testcode => h_testcode lines i result
  | H_code_block lang => h_code_block lines i result lang
  | H_literal => h_literal lines i result
  | H_figure img_path => h_figure lines i result img_path
  | H_admonition directive_type inline_content =>
      h_admonition lines i indent result directive_type inline_content
  | H_unknown => (skip_unknown lines indent (S i), result)
  | H_plain => (S i, result ++ [convert_inline (nth i lines EmptyString)])
  end.

(** *** Blocks as spans of the list of lines *)

Fixpoint take_while (p : string -> bool) (ls : list string) : list string :=
  match ls with
  | l :: ls' => if p l then l :: take_while p ls' else []
  | [] => []
  end.

Fixpoint drop_while (p : string -> bool) (ls : list string) : list string :=
  match ls with
  | l :: ls' => if p l then drop_while p ls' else ls
  | [] => []
  end.

(** A line stays in a code body of base indentation [base]: it is blank or
    indented by at least [base]. *)
Definition in_body (base : nat) (l : string) : bool :=
  is_blank l || (base <=? indent_of l).

(** A collected line without its base indentation; a blank line is kept as
    the empty line. *)
Definition without_indent (base : nat) (l : string) : string :=
  if is_blank l then EmptyString else drop base l.

(** The base indentation of a body: that of its first line, 4 without one. *)
Definition body_base (body : list string) : nat :=
  match body with
  | l :: _ => raw_indent l
  | [] => 4
  end.

(** A blank line or a directive option. *)
Definition blank_or_option (l : string) : bool :=
  is_blank l || startswith (strip l) ":".

(** A run of one character: [n] times [c]. *)
Fixpoint run_of (c : ascii) (n : nat) : string :=
  match n with
  | 0 => EmptyString
  | S n' => String c (run_of c n')
  end.

(** The loop [while_lines] as a recursion on the lines from the cursor on. *)
Fixpoint scan {St : Type} (body : string -> St -> option St) (ls : list string)
  (i : nat) (s : St) : nat * St :=
  match ls with
  | [] => (i, s)
  | l :: ls' =>
      match body l s with
      | Some s' => scan body ls' (S i) s'
      | None => (i, s)
      end
  end.

(** *** Notions for the assembler, the skip handlers and the figure handler *)

(** The list [cleaned] of the assembler, before it is joined. *)
Definition clean_lines (result : list string) : list string :=
  pop_while is_blank (pop0_while is_blank (collapse_blank result false)).

Definition not_blank (l : string) : bool := negb (is_blank l).

(** No two neighbouring lines are both blank. *)
Fixpoint no_blank_run (xs : list string) : bool :=
  match xs with
  | [] => true
  | x :: xs' =>
      match xs' with
      | [] => true
      | y :: _ => negb (is_blank x && is_blank y) && no_blank_run xs'
      end
  end.

(** The lines a skip handler passes over after its directive line: the test
    its loop makes on each line, for a directive indented by [indent]. *)
Definition skip_test (h : handler) (indent : nat) (l : string) : bool :=
  match h with
  | H_testskip | H_only_html =>
      negb (truthy (strip l) && (indent_of l <=? indent) && negb (startswith l " "))
  | H_highlight =>
      (is_blank l || startswith l " ")
      && negb (truthy (strip l) && negb (startswith (strip l) ":"))
  | H_index => is_blank l || startswith l " "
  | H_unknown => negb (truthy (strip l) && (indent_of l <=? indent))
  | _ => false
  end.

Definition is_skip_handler (h : handler) : bool :=
  match h with
  | H_testskip | H_only_html | H_highlight | H_index | H_unknown => true
  | _ => false
  end.

(** A line of a figure's body: indented by three spaces, or blank. *)
Definition figure_line (l : string) : bool := startswith l "   " || is_blank l.

(** A caption candidate: a stripped line that is not empty and no option. *)
Definition caption_text (o : string) : bool := truthy o && negb (startswith o ":").

(** *** Notions for fence-opening lines *)

(** The three parts of a fence-opening line: a fence of three or more
    backticks, white space, and a tag of word characters. *)
Definition fence_parts (fence ws lang : string) : bool :=
  all_chars (Ascii.eqb BT) fence && (3 <=? String.length fence)
  && all_chars is_space ws && all_chars is_word lang.

(** *** Notions for the admonition handler *)

(** A line stays in the body of an admonition of base indentation
    [base_indent]: the loop ends at a line that is not blank, is indented
    less than the base and does not start with a space. *)
Definition admonition_line (base_indent : nat) (l : string) : bool :=
  negb (truthy (strip l) && (indent_of l <? base_indent)
        && negb (startswith l " ")).

(** The text that a body line gives. *)
Definition admonition_text (base_indent : nat) (l : string) : string :=
  if truthy (strip l) then
    if base_indent <? String.length l then drop base_indent l else strip l
  else EmptyString.

(** The line that the handler emits for the directive and its text. *)
Definition admonition_label (directive_type hint_text : string) : string :=
  if truthy hint_text
  then "**" @@ capitalize directive_type @@ ":** " @@ hint_text
  else "**" @@ capitalize directive_type @@ "**".

(** *** Notions for the contents of the cells *)

(** A text that is not empty and has no white space at its ends. *)
Definition trimmed (s : string) : Prop := strip s = s /\ s <> EmptyString.

(** A body line of an admonition that is no nested [testcode] directive. *)
Definition admonition_text_line (base_indent : nat) (l : string) : bool :=
  admonition_line base_indent l && negb (matches re_testcode (strip l)).

(** *** Notions for lines of double-backtick spans *)

(** A line written as spans: each pair holds the body of a double-backtick
    span and the text that follows the span. *)
Fixpoint spans_source (spans : list (string * string)) : string :=
  match spans with
  | [] => EmptyString
  | (body, text) :: rest => "``" @@ body @@ "``" @@ text @@ spans_source rest
  end.

(** The same line with single-backtick spans. *)
Fixpoint spans_converted (spans : list (string * string)) : string :=
  match spans with
  | [] => EmptyString
  | (body, text) :: rest => "`" @@ body @@ "`" @@ text @@ spans_converted rest
  end.

(** Text that holds no backtick, no colon and no "<". *)
Definition plain_text (s : string) : bool :=
  negb (mem_char BT s) && negb (mem_char ":" s) && negb (mem_char "<" s).

(** Spans with a body that is not empty, bodies and texts being plain. *)
Fixpoint plain_spans (spans : list (string * string)) : bool :=
  match spans with
  | [] => true
  | (body, text) :: rest =>
      truthy body && plain_text body && plain_text text && plain_spans rest
  end.

(** Any two spans are kept apart by at least one character. *)
Fixpoint separated (spans : list (string * string)) : bool :=
  match spans with
  | [] => true
  | (_, text) :: rest =>
      (truthy text || match rest with [] => true | _ => false end)
      && separated rest
  end.

(** * Properties *)

(** ** Strings *)

Lemma truthy_true : forall s, truthy s = true <-> s <> EmptyString.
Proof. destruct s; simpl; split; congruence. Qed.

Lemma append_assoc : forall a b c, (a @@ b) @@ c = a @@ b @@ c.
Proof. induction a; simpl; intros; congruence. Qed.

Lemma length_append : forall a b,
  String.length (a @@ b) = String.length a + String.length b.
Proof. induction a; simpl; intros; auto. Qed.

Lemma take_app_length : forall a b,
  take (String.length (a @@ b) - String.length b) (a @@ b) = a.
Proof.
  intros a b. rewrite length_append.
  replace (String.length a + String.length b - String.length b) with (String.length a) by lia.
  induction a as [|c a IH]; simpl; [destruct b; reflexivity | now rewrite IH].
Qed.

(** ** The segmenter *)

Lemma flush_md_app : forall acc md, flush_md acc md = acc ++ flush_md [] md.
Proof. intros acc [|x md]; simpl; [now rewrite app_nil_r | reflexivity]. Qed.

Lemma combine_cells_merge : forall cs acc md,
  combine_cells cs acc md = acc ++ merge_runs cs md.
Proof.
  induction cs as [|[[|] content] cs IH]; intros acc md; simpl.
  - apply flush_md_app.
  - apply IH.
  - rewrite IH, flush_md_app, <- !app_assoc. reflexivity.
Qed.

Lemma merge_runs_markdown : forall xs md rest,
  merge_runs (map (pair markdown) xs ++ rest) md = merge_runs rest (md ++ xs).
Proof.
  induction xs as [|x xs IH]; intros md rest; simpl.
  - now rewrite app_nil_r.
  - rewrite IH, <- app_assoc. reflexivity.
Qed.

Lemma merge_runs_split : forall a md content b,
  merge_runs (a ++ (code, content) :: b) md
  = merge_runs a md ++ (code, content) :: merge_runs b [].
Proof.
  induction a as [|[[|] x] a IH]; intros md content b; simpl.
  - reflexivity.
  - apply IH.
  - rewrite IH, <- !app_assoc. reflexivity.
Qed.

Lemma no_adjacent_after_code : forall content cs,
  no_adjacent_markdown ((code, content) :: cs) = no_adjacent_markdown cs.
Proof. intros content [|d cs]; reflexivity. Qed.

Lemma no_adjacent_before_code : forall c content cs,
  no_adjacent_markdown (c :: (code, content) :: cs) = no_adjacent_markdown cs.
Proof.
  intros c content cs.
  change (negb (is_markdown c && false)
          && no_adjacent_markdown ((code, content) :: cs) = no_adjacent_markdown cs).
  rewrite andb_false_r, no_adjacent_after_code. reflexivity.
Qed.

Lemma merge_runs_no_adjacent : forall cs md,
  no_adjacent_markdown (merge_runs cs md) = true.
Proof.
  induction cs as [|[[|] x] cs IH]; intros md.
  - destruct md; reflexivity.
  - simpl. apply IH.
  - simpl merge_runs. destruct md as [|m md].
    + simpl flush_md. simpl app. rewrite no_adjacent_after_code. apply IH.
    + unfold flush_md. simpl app. rewrite no_adjacent_before_code. apply IH.
Qed.

Lemma merge_runs_code : forall cs md,
  filter is_code (merge_runs cs md) = filter is_code cs.
Proof.
  induction cs as [|[[|] x] cs IH]; intros md; simpl.
  - destruct md; reflexivity.
  - apply IH.
  - rewrite filter_app. simpl. rewrite IH. destruct md; reflexivity.
Qed.

Lemma notebook_cases : forall md title,
  (combine_cells (raw_cells md) [] [] = []
   /\ markdown_to_notebook md title
      = [(markdown, if truthy title then "# " @@ title else "# Untitled")])
  \/ (combine_cells (raw_cells md) [] [] <> []
      /\ markdown_to_notebook md title = combine_cells (raw_cells md) [] []).
Proof.
  intros md title. unfold markdown_to_notebook.
  destruct (combine_cells (raw_cells md) [] []) as [|c cs].
  - left. split; reflexivity.
  - right. split; [discriminate | reflexivity].
Qed.

(** C7. The text [Intro text], a blank line, a python fence holding
    [print(1)], a blank line and [More text] gives exactly the three cells
    prose, code, prose.  In every notebook no two neighbouring cells are both
    prose; the code cells are those of the segmentation, one by one and in
    order; a run of prose cells becomes one cell, its contents joined by a
    blank line; and merging never crosses a code cell. *)
Theorem C7_cell_segmentation :
  markdown_to_notebook
    (join NLs ["Intro text"; EmptyString; "```python"; "print(1)"; "```";
               EmptyString; "More text"; EmptyString]) EmptyString
    = [(markdown, "Intro text"); (code, "print(1)"); (markdown, "More text")]
  /\ (forall md title, no_adjacent_markdown (markdown_to_notebook md title) = true)
  /\ (forall md title,
        filter is_code (markdown_to_notebook md title) = filter is_code (raw_cells md))
  /\ (forall x xs,
        combine_cells (map (pair markdown) (x :: xs)) [] []
        = [(markdown, join (NLs @@ NLs) (x :: xs))])
  /\ (forall a content b,
        combine_cells (a ++ (code, content) :: b) [] []
        = combine_cells a [] [] ++ (code, content) :: combine_cells b [] []).
Proof.
  split; [vm_compute; reflexivity|].
  split.
  { intros md title.
    destruct (notebook_cases md title) as [[_ ->]|[_ ->]]; [reflexivity|].
    rewrite combine_cells_merge. apply merge_runs_no_adjacent. }
  split.
  { intros md title.
    destruct (notebook_cases md title) as [[E ->]|[_ ->]].
    - rewrite combine_cells_merge in E. simpl in E.
      rewrite <- (merge_runs_code (raw_cells md) []), E. reflexivity.
    - rewrite combine_cells_merge. apply merge_runs_code. }
  split.
  { intros x xs. rewrite combine_cells_merge. cbn [app].
    rewrite <- (app_nil_r (map (pair markdown) (x :: xs))), merge_runs_markdown.
    reflexivity. }
  intros a content b. rewrite !combine_cells_merge. cbn [app].
  apply merge_runs_split.
Qed.

(** C8. The empty Markdown text with the fallback title [Demo] gives the one
    prose cell [# Demo]; whenever the merged cell sequence is empty the
    notebook is the one prose cell holding the fallback heading, made of the
    title when there is one; and no notebook is empty. *)
Theorem C8_empty_input_fallback :
  markdown_to_notebook EmptyString "Demo" = [(markdown, "# Demo")]
  /\ (forall md title,
        combine_cells (raw_cells md) [] [] = [] ->
        markdown_to_notebook md title
        = [(markdown, if truthy title then "# " @@ title else "# Untitled")])
  /\ (forall md title, markdown_to_notebook md title <> []).
Proof.
  split; [reflexivity|]. split.
  - intros md title E. unfold markdown_to_notebook. rewrite E. reflexivity.
  - intros md title.
    destruct (notebook_cases md title) as [[_ ->]|[N ->]]; [discriminate | exact N].
Qed.

Lemma C8_witness :
  combine_cells (raw_cells "   ") [] [] = []
  /\ markdown_to_notebook "   " "Demo"
     = [(markdown, if truthy "Demo" then "# " @@ "Demo" else "# Untitled")].
Proof.
  split; [reflexivity|].
  apply (proj1 (proj2 C8_empty_input_fallback) "   " "Demo"). reflexivity.
Defined.

(** A fence-opening line starts with a backtick, so it is no quoted fence. *)
Lemma code_start_not_quoted : forall line p,
  code_start line = Some p -> startswith line "> ```" = false.
Proof.
  intros [|c line] p H.
  - reflexivity.
  - cbn [startswith]. destruct (Ascii.eqb ">" c) eqn:E; [|reflexivity].
    apply Ascii.eqb_eq in E. subst c. vm_compute in H. discriminate.
Qed.

Lemma fence_cell_cases : forall code_lang content,
  fence_cell code_lang content = (code, content)
  \/ exists tag,
       fence_cell code_lang content
       = (markdown, "```" @@ tag @@ NLs @@ content @@ NLs @@ "```").
Proof.
  intros code_lang content. unfold fence_cell.
  match goal with |- context [if ?b then (code, content) else _] => destruct b end.
  - left; reflexivity.
  - right. eexists. reflexivity.
Qed.

(** The steps of the segmenter, branch by branch. *)
Lemma seg_step_open : forall st line fence lang,
  quote_code_block st = false -> in_code_block st = false ->
  code_start line = Some (fence, lang) ->
  seg_step st line
  = mk_seg (match current_lines st with
            | [] => cells st
            | _ => if truthy (strip (join NLs (current_lines st)))
                   then cells st ++ [(markdown, strip (join NLs (current_lines st)))]
                   else cells st
            end) [] true lang fence (in_quote st) false.
Proof.
  intros st line fence lang Hq Hc Hs. unfold seg_step.
  rewrite (code_start_not_quoted _ _ Hs), Hq, Hc, Hs. reflexivity.
Qed.

Lemma seg_step_close : forall st line,
  startswith line "> ```" = false ->
  quote_code_block st = false -> in_code_block st = true ->
  strip line = code_fence_pattern st ->
  seg_step st line
  = mk_seg (if truthy (strip (join NLs (current_lines st)))
            then cells st ++ [fence_cell (code_lang st)
                                (strip (join NLs (current_lines st)))]
            else cells st) [] false EmptyString EmptyString (in_quote st) false.
Proof.
  intros st line Hs Hq Hc Hf. unfold seg_step.
  rewrite Hs, Hq, Hc, Hf, String.eqb_refl. reflexivity.
Qed.

Lemma seg_step_inside : forall st line,
  startswith line "> ```" = false ->
  quote_code_block st = false -> in_code_block st = true ->
  strip line <> code_fence_pattern st ->
  seg_step st line = push_line st line.
Proof.
  intros st line Hs Hq Hc Hf. unfold seg_step.
  apply String.eqb_neq in Hf. rewrite Hs, Hq, Hc, Hf. reflexivity.
Qed.

(** Inside a fence that no line closes, every line is collected. *)
Lemma seg_loop_inside : forall body st,
  quote_code_block st = false -> in_code_block st = true ->
  (forall l, In l body ->
     startswith l "> ```" = false /\ strip l <> code_fence_pattern st) ->
  fold_left seg_step body st
  = mk_seg (cells st) (current_lines st ++ body) true (code_lang st)
           (code_fence_pattern st) (in_quote st) false.
Proof.
  induction body as [|l body IH]; intros st Hq Hc Hb.
  - simpl. rewrite app_nil_r. destruct st; simpl in *; subst; reflexivity.
  - simpl fold_left.
    destruct (Hb l (or_introl eq_refl)) as [Hs Hf].
    rewrite (seg_step_inside st l Hs Hq Hc Hf).
    rewrite IH; simpl; auto.
    + rewrite <- app_assoc. reflexivity.
    + intros l' Hl'. apply Hb. right. exact Hl'.
Qed.

Lemma seg_step_from_nonblank : forall st line,
  Forall from_nonblank (cells st) -> Forall from_nonblank (cells (seg_step st line)).
Proof.
  intros st line H.
  assert (Hmd : forall text, truthy (strip text) = true ->
            Forall from_nonblank (cells st ++ [(markdown, strip text)])).
  { intros text Ht. apply Forall_app. split; [exact H|].
    constructor; [|constructor]. exists text. split.
    - now apply truthy_true.
    - left. reflexivity. }
  unfold seg_step.
  destruct (startswith line "> ```"); [exact H|].
  destruct (quote_code_block st); [exact H|].
  destruct (if in_code_block st then None else code_start line) as [[fence lang]|].
  - simpl. destruct (current_lines st); [exact H|].
    destruct (truthy (strip (join NLs (s :: l)))) eqn:E; [|exact H].
    apply Hmd. exact E.
  - destruct (in_code_block st && String.eqb (strip line) (code_fence_pattern st));
      [|exact H].
    simpl. destruct (truthy (strip (join NLs (current_lines st)))) eqn:E; [|exact H].
    apply Forall_app. split; [exact H|]. constructor; [|constructor].
    exists (join NLs (current_lines st)). split; [now apply truthy_true|].
    destruct (fence_cell_cases (code_lang st) (strip (join NLs (current_lines st))))
      as [->|[tag ->]].
    + left. reflexivity.
    + right. exists tag. reflexivity.
Qed.

Lemma seg_fold_from_nonblank : forall lines st,
  Forall from_nonblank (cells st) ->
  Forall from_nonblank (cells (fold_left seg_step lines st)).
Proof.
  induction lines as [|l lines IH]; intros st H; simpl.
  - exact H.
  - apply IH. apply seg_step_from_nonblank. exact H.
Qed.

Lemma seg_flush_from_nonblank : forall st,
  Forall from_nonblank (cells st) -> Forall from_nonblank (seg_flush st).
Proof.
  intros st H. unfold seg_flush.
  destruct (current_lines st); [exact H|].
  destruct (truthy (strip (join NLs (s :: l)))) eqn:E; [|exact H].
  assert (Hc : forall k, from_nonblank (k, strip (join NLs (s :: l)))).
  { intros k. exists (join NLs (s :: l)). split; [now apply truthy_true|].
    left. reflexivity. }
  destruct (in_code_block st && lang_python_py (code_lang st));
    apply Forall_app; (split; [exact H|]); constructor; auto.
Qed.

Lemma from_nonblank_nonempty : forall c, from_nonblank c -> snd c <> EmptyString.
Proof.
  intros c (text & Hne & [E|[tag E]]).
  - congruence.
  - subst c. discriminate.
Qed.

Lemma join_nonempty : forall sep x xs,
  x <> EmptyString -> join sep (x :: xs) <> EmptyString.
Proof.
  intros sep [|c x] xs H; [congruence|]. destruct xs; discriminate.
Qed.

Lemma merge_runs_nonempty : forall cs md,
  Forall (fun c : cell => snd c <> EmptyString) cs ->
  (md = [] \/ hd EmptyString md <> EmptyString) ->
  Forall (fun c : cell => snd c <> EmptyString) (merge_runs cs md).
Proof.
  assert (Hflush : forall md, md = [] \/ hd EmptyString md <> EmptyString ->
            Forall (fun c : cell => snd c <> EmptyString) (flush_md [] md)).
  { intros [|x md] H; [constructor|]. destruct H as [H|H]; [discriminate|].
    constructor; [|constructor]. apply join_nonempty, H. }
  induction cs as [|[[|] x] cs IH]; intros md Hcs Hmd; simpl.
  - apply Hflush, Hmd.
  - inversion Hcs; subst. apply IH; [assumption|]. right.
    destruct md as [|m md]; simpl in *; [assumption|].
    destruct Hmd as [Hmd|Hmd]; [discriminate | exact Hmd].
  - inversion Hcs; subst. apply Forall_app. split; [apply Hflush, Hmd|].
    constructor; [assumption|]. apply IH; auto.
Qed.

(** C10. A fence closed over a body that is empty once stripped adds no
    cell; a pending prose span that is empty once stripped adds none either,
    at a fence opening and at the end of input; the content of every cell
    of the segmentation comes from a text that is non-empty once stripped;
    and no cell of a notebook has an empty content. *)
Theorem C10_blank_content_makes_no_cell :
  (forall st line,
     startswith line "> ```" = false -> quote_code_block st = false ->
     in_code_block st = true -> strip line = code_fence_pattern st ->
     strip (join NLs (current_lines st)) = EmptyString ->
     cells (seg_step st line) = cells st
     /\ current_lines (seg_step st line) = []
     /\ in_code_block (seg_step st line) = false)
  /\ (forall st line fence lang,
        quote_code_block st = false -> in_code_block st = false ->
        code_start line = Some (fence, lang) ->
        strip (join NLs (current_lines st)) = EmptyString ->
        cells (seg_step st line) = cells st
        /\ current_lines (seg_step st line) = [])
  /\ (forall st,
        strip (join NLs (current_lines st)) = EmptyString -> seg_flush st = cells st)
  /\ (forall md c, In c (raw_cells md) -> from_nonblank c)
  /\ (forall md title c,
        In c (markdown_to_notebook md title) -> snd c <> EmptyString).
Proof.
  assert (Hraw : forall md, Forall from_nonblank (raw_cells md)).
  { intros md. apply seg_flush_from_nonblank, seg_fold_from_nonblank. constructor. }
  split; [|split; [|split; [|split]]].
  - intros st line Hs Hq Hc Hf He.
    rewrite (seg_step_close st line Hs Hq Hc Hf), He. simpl. auto.
  - intros st line fence lang Hq Hc Hs He.
    rewrite (seg_step_open st line fence lang Hq Hc Hs), He. simpl.
    destruct (current_lines st); auto.
  - intros st He. unfold seg_flush. rewrite He. simpl.
    destruct (current_lines st); reflexivity.
  - intros md c Hin. specialize (Hraw md).
    rewrite Forall_forall in Hraw. apply Hraw. exact Hin.
  - intros md title c Hin.
    destruct (notebook_cases md title) as [[_ E]|[_ E]]; rewrite E in Hin.
    + destruct Hin as [<-|[]]. destruct (truthy title); discriminate.
    + rewrite combine_cells_merge in Hin. simpl in Hin.
      assert (H : Forall (fun c : cell => snd c <> EmptyString)
                    (merge_runs (raw_cells md) [])).
      { apply merge_runs_nonempty; [|now left].
        eapply Forall_impl; [|apply Hraw]. apply from_nonblank_nonempty. }
      rewrite Forall_forall in H. apply H. exact Hin.
Qed.

Lemma C10_witness :
  cells (seg_step (seg_loop ["text"; "```python"; "   "]) "```")
  = cells (seg_loop ["text"; "```python"; "   "])
  /\ current_lines (seg_step (seg_loop ["text"; "```python"; "   "]) "```") = []
  /\ in_code_block (seg_step (seg_loop ["text"; "```python"; "   "]) "```") = false.
Proof.
  apply (proj1 C10_blank_content_makes_no_cell
           (seg_loop ["text"; "```python"; "   "]) "```"); reflexivity.
Defined.

(** C1, as the code has it.  When a fence is opened outside any fence and no
    later line closes it, the end of input flushes the collected lines as one
    cell, if they are non-empty once stripped: a code cell when the declared
    language is python or py, a prose cell for every other tag. *)
Theorem C1_unterminated_fence : forall pre open body fence lang,
  quote_code_block (seg_loop pre) = false ->
  in_code_block (seg_loop pre) = false ->
  code_start open = Some (fence, lang) ->
  (forall l, In l body -> startswith l "> ```" = false /\ strip l <> fence) ->
  seg_flush (seg_loop (pre ++ open :: body))
  = cells (seg_step (seg_loop pre) open)
    ++ (if truthy (strip (join NLs body))
        then [(if lang_python_py lang then code else markdown,
               strip (join NLs body))]
        else []).
Proof.
  intros pre open body fence lang Hq Hc Hs Hb.
  unfold seg_loop in *. rewrite fold_left_app. simpl fold_left.
  set (st := fold_left seg_step pre seg_init) in *.
  rewrite (seg_step_open st open fence lang Hq Hc Hs).
  set (st1 := mk_seg _ _ _ _ _ _ _).
  rewrite (seg_loop_inside body st1); [|reflexivity|reflexivity|exact Hb].
  unfold seg_flush. simpl.
  destruct body as [|b body].
  - simpl. now rewrite app_nil_r.
  - destruct (truthy (strip (join NLs (b :: body)))); [|now rewrite app_nil_r].
    destruct (lang_python_py lang); reflexivity.
Qed.

Lemma C1_witness :
  seg_flush (seg_loop (["Intro"] ++ "```bash" :: ["ls"; "cd /tmp"]))
  = cells (seg_step (seg_loop ["Intro"]) "```bash")
    ++ (if truthy (strip (join NLs ["ls"; "cd /tmp"]))
        then [(if lang_python_py "bash" then code else markdown,
               strip (join NLs ["ls"; "cd /tmp"]))]
        else []).
Proof.
  apply (C1_unterminated_fence ["Intro"] "```bash" ["ls"; "cd /tmp"] "```" "bash");
    try reflexivity.
  intros l [<-|[<-|[]]]; split; (reflexivity || discriminate).
Defined.

(** Not every unterminated fence ends as prose (C1 as the specification
    words it): the python fence below is never closed, and its content is
    flushed as a code cell. *)
Lemma C1_counterexample :
  in_code_block (seg_loop (split NL (join NLs ["```python"; "print(1)"]))) = true
  /\ raw_cells (join NLs ["```python"; "print(1)"]) = [(code, "print(1)")]
  /\ markdown_to_notebook (join NLs ["```python"; "print(1)"]) "Demo"
     = [(code, "print(1)")].
Proof. repeat split; reflexivity. Qed.

(** ** The matcher *)

Section MatcherFacts.
Variable fl : flags.

Lemma star_run_sound : forall (R : Type) p (k : kont R) cs s prev x,
  star_run fl p k cs prev s = Some x ->
  exists run s',
    s = run @@ s' /\ all_chars (cls_ok fl p) run = true
    /\ k cs (last_of prev run) s' = Some x.
Proof.
  intros R p k cs. induction s as [|c s IH]; intros prev x H; simpl in H.
  - exists EmptyString, EmptyString. auto.
  - destruct (cls_ok fl p c) eqn:E.
    + destruct (star_run fl p k cs (Some c) s) as [y|] eqn:E1.
      * inversion H; subst y. destruct (IH _ _ E1) as (run & s' & -> & Hr & Hk).
        exists (String c run), s'. simpl. rewrite E, Hr. auto.
      * exists EmptyString, (String c s). auto.
    + exists EmptyString, (String c s). auto.
Qed.

(** Soundness: a result of the matcher comes from a match. *)
Lemma exec_sound : forall (R : Type) r (k : kont R) cs prev s x,
  exec fl r k cs prev s = Some x ->
  exists cs' prev' s', sem fl r cs prev s cs' prev' s' /\ k cs' prev' s' = Some x.
Proof.
  intros R. induction r as [|c|p|r1 IH1 r2 IH2|r1 IH1 r2 IH2|p|n r1 IH1| |];
    intros k cs prev s x H; simpl in H.
  - exists cs, prev, s. simpl. auto.
  - destruct s as [|d s]; [discriminate|].
    destruct (lit_ok fl c d) eqn:E; [|discriminate].
    exists cs, (Some d), s. simpl. split; [exists d|]; auto.
  - destruct s as [|d s]; [discriminate|].
    destruct (cls_ok fl p d) eqn:E; [|discriminate].
    exists cs, (Some d), s. simpl. split; [exists d|]; auto.
  - apply IH1 in H. destruct H as (cs1 & prev1 & s1 & H1 & H).
    apply IH2 in H. destruct H as (cs2 & prev2 & s2 & H2 & H).
    exists cs2, prev2, s2. split; [|exact H]. simpl. exists cs1, prev1, s1. auto.
  - destruct (exec fl r1 k cs prev s) as [y|] eqn:E.
    + inversion H; subst y. apply IH1 in E. destruct E as (cs' & prev' & s' & H1 & Hk).
      exists cs', prev', s'. simpl. auto.
    + apply IH2 in H. destruct H as (cs' & prev' & s' & H2 & Hk).
      exists cs', prev', s'. simpl. auto.
  - apply star_run_sound in H. destruct H as (run & s' & -> & Hr & Hk).
    exists cs, (last_of prev run), s'. simpl. split; [exists run|]; auto.
  - apply IH1 in H. destruct H as (cs1 & prev' & s' & H1 & Hk).
    eexists _, prev', s'. split; [|exact Hk]. simpl. exists cs1. auto.
  - destruct (at_bol fl prev) eqn:E; [|discriminate].
    exists cs, prev, s. simpl. auto.
  - destruct (at_eol fl s) eqn:E; [|discriminate].
    exists cs, prev, s. simpl. auto.
Qed.

(** The rules of [can_match]. *)
Lemma can_eps : forall s, can_match fl Eps s s.
Proof. intros s R k Hk cs prev. simpl. apply Hk. Qed.

Lemma can_lit : forall c d s, lit_ok fl c d = true -> can_match fl (Lit c) (String d s) s.
Proof. intros c d s E R k Hk cs prev. simpl. rewrite E. apply Hk. Qed.

Lemma can_cls : forall p d s, cls_ok fl p d = true -> can_match fl (Cls p) (String d s) s.
Proof. intros p d s E R k Hk cs prev. simpl. rewrite E. apply Hk. Qed.

Lemma can_seq : forall r1 r2 s s1 s2,
  can_match fl r1 s s1 -> can_match fl r2 s1 s2 -> can_match fl (r1 ;; r2) s s2.
Proof.
  intros r1 r2 s s1 s2 H1 H2 R k Hk cs prev. simpl.
  apply H1. intros cs' prev'. apply H2. exact Hk.
Qed.

Lemma can_alt_l : forall r1 r2 s s', can_match fl r1 s s' -> can_match fl (Alt r1 r2) s s'.
Proof.
  intros r1 r2 s s' H R k Hk cs prev. simpl.
  specialize (H R k Hk cs prev). destruct (exec fl r1 k cs prev s); congruence.
Qed.

Lemma can_alt_r : forall r1 r2 s s', can_match fl r2 s s' -> can_match fl (Alt r1 r2) s s'.
Proof.
  intros r1 r2 s s' H R k Hk cs prev. simpl.
  destruct (exec fl r1 k cs prev s); [discriminate|]. apply H. exact Hk.
Qed.

Lemma can_grp : forall n r s s', can_match fl r s s' -> can_match fl (Grp n r) s s'.
Proof.
  intros n r s s' H R k Hk cs prev. simpl. apply H. intros cs' prev'. apply Hk.
Qed.

Lemma star_run_keeps : forall (R : Type) p (k : kont R) cs prev s,
  k cs prev s <> None -> star_run fl p k cs prev s <> None.
Proof.
  intros R p k cs prev [|c s] H; simpl; [exact H|].
  destruct (cls_ok fl p c); [|exact H].
  destruct (star_run fl p k cs (Some c) s); [discriminate | exact H].
Qed.

Lemma can_star : forall p run rest,
  all_chars (cls_ok fl p) run = true -> can_match fl (Star p) (run @@ rest) rest.
Proof.
  intros p run rest. induction run as [|c run IH]; intros Hr R k Hk cs prev.
  - apply star_run_keeps, Hk.
  - simpl in Hr. apply andb_true_iff in Hr. destruct Hr as [Hc Hr].
    simpl. rewrite Hc.
    specialize (IH Hr R k Hk cs (Some c)). simpl in IH.
    destruct (star_run fl p k cs (Some c) (run @@ rest)); congruence.
Qed.

Lemma can_plus : forall p c run rest,
  cls_ok fl p c = true -> all_chars (cls_ok fl p) run = true ->
  can_match fl (Plus p) (String c (run @@ rest)) rest.
Proof.
  intros p c run rest Hc Hr. unfold Plus.
  eapply can_seq; [apply can_cls, Hc | apply can_star, Hr].
Qed.

Lemma lit_ok_refl : forall c, lit_ok fl c c = true.
Proof. intros c. unfold lit_ok. destruct (ignorecase fl); apply Ascii.eqb_refl. Qed.

Lemma can_str : forall w rest, can_match fl (Str w) (w @@ rest) rest.
Proof.
  induction w as [|c w IH]; intros rest; simpl.
  - apply can_eps.
  - eapply can_seq; [apply can_lit, lit_ok_refl | apply IH].
Qed.

(** A search finds a match that starts after any prefix. *)
Lemma search_from_finds : forall r pre prev s,
  match_here fl r (last_of prev pre) s <> None ->
  search_from fl r prev (pre @@ s) = true.
Proof.
  intros r. induction pre as [|c pre IH]; intros prev s H; simpl in *.
  - destruct s; simpl; destruct (match_here fl r prev _); congruence.
  - destruct (match_here fl r prev (String c (pre @@ s))); [reflexivity|].
    apply IH. exact H.
Qed.

End MatcherFacts.

(** ** Lines of a text *)

Lemma all_chars_app : forall p a b,
  all_chars p (a @@ b) = all_chars p a && all_chars p b.
Proof.
  induction a as [|c a IH]; intros b; simpl; [reflexivity|].
  now rewrite IH, andb_assoc.
Qed.

Lemma all_chars_impl : forall (p q : ascii -> bool) s,
  (forall c, p c = true -> q c = true) -> all_chars p s = true -> all_chars q s = true.
Proof.
  intros p q s H. induction s as [|c s IH]; simpl; [reflexivity|].
  intros E. apply andb_true_iff in E. destruct E as [E1 E2].
  now rewrite (H c E1), IH.
Qed.

Lemma split_nonempty : forall sep s, split sep s <> [].
Proof.
  intros sep [|c s]; simpl; [discriminate|].
  destruct (Ascii.eqb c sep); [discriminate|]. destruct (split sep s); discriminate.
Qed.

(** The first line is a prefix; every other line follows a line feed. *)
Lemma split_decomp : forall s h t,
  split NL s = h :: t ->
  (exists post, s = h @@ post)
  /\ forall l, In l t ->
       exists pre post, s = pre @@ l @@ post /\ forall prev, last_of prev pre = Some NL.
Proof.
  induction s as [|c s IH]; intros h t E; simpl in E.
  - inversion E; subst. split; [exists EmptyString; reflexivity | intros l []].
  - destruct (split NL s) as [|h' t'] eqn:Es; [now apply split_nonempty in Es|].
    destruct (IH h' t' eq_refl) as [[post' Eh] Ht].
    destruct (Ascii.eqb c NL) eqn:Ec.
    + apply Ascii.eqb_eq in Ec. subst c. inversion E; subst h t.
      split; [exists (String NL s); reflexivity|].
      intros l [<-|Hl].
      * exists (String NL EmptyString), post'. simpl. rewrite <- Eh. auto.
      * destruct (Ht l Hl) as (pre & post & Epre & Hlast).
        exists (String NL pre), post. simpl. rewrite <- Epre. auto.
    + inversion E; subst h t. split.
      * exists post'. simpl. now rewrite <- Eh.
      * intros l Hl. destruct (Ht l Hl) as (pre & post & Epre & Hlast).
        exists (String c pre), post. simpl. rewrite <- Epre. auto.
Qed.

Lemma split_no_nl : forall s l, In l (split NL s) -> all_chars not_nl l = true.
Proof.
  induction s as [|c s IH]; intros l Hl; simpl in Hl.
  - destruct Hl as [<-|[]]. reflexivity.
  - destruct (split NL s) as [|h' t'] eqn:Es; [now apply split_nonempty in Es|].
    destruct (Ascii.eqb c NL) eqn:Ec.
    + destruct Hl as [<-|Hl]; [reflexivity | apply IH, Hl].
    + destruct Hl as [<-|Hl].
      * simpl. unfold not_nl at 1. rewrite Ec. simpl. apply IH. left. reflexivity.
      * apply IH. right. exact Hl.
Qed.

(** A line of a text starts at a line start and holds no line feed. *)
Lemma line_of_text : forall s l,
  In l (split NL s) ->
  exists pre post,
    s = pre @@ l @@ post
    /\ (forall fl, multiline fl = true -> at_bol fl (last_of None pre) = true)
    /\ all_chars not_nl l = true.
Proof.
  intros s l Hl. pose proof (split_no_nl s l Hl) as Hn.
  destruct (split NL s) as [|h t] eqn:Es; [destruct Hl|].
  destruct (split_decomp s h t Es) as [[post Eh] Ht].
  destruct Hl as [<-|Hl].
  - exists EmptyString, post. simpl. auto.
  - destruct (Ht l Hl) as (pre & post' & Epre & Hlast).
    exists pre, post'. rewrite Hlast. repeat split; auto.
    intros fl Hm. simpl. now rewrite Hm.
Qed.

Lemma startswith_app : forall w s,
  startswith s w = true -> exists rest, s = w @@ rest.
Proof.
  induction w as [|c w IH]; intros s H.
  - exists s. destruct s; reflexivity.
  - destruct s as [|d s]; simpl in H; [discriminate|].
    apply andb_true_iff in H. destruct H as [Hc Hw].
    apply Ascii.eqb_eq in Hc. subst d.
    destruct (IH s Hw) as [rest ->]. exists rest. reflexivity.
Qed.

Lemma skip_cls_decomp : forall p s,
  exists run, s = run @@ skip_cls p s /\ all_chars p run = true.
Proof.
  intros p. induction s as [|c s IH]; simpl.
  - exists EmptyString. auto.
  - destruct (p c) eqn:E.
    + destruct IH as (run & Er & Hr). exists (String c run). simpl.
      rewrite E, Hr, <- Er. auto.
    + exists EmptyString. auto.
Qed.

Lemma lstrip_decomp : forall s,
  exists ws, s = ws @@ lstrip s /\ all_chars is_space ws = true.
Proof.
  induction s as [|c s IH]; simpl.
  - exists EmptyString. auto.
  - destruct (is_space c) eqn:E.
    + destruct IH as (ws & Ew & Hw). exists (String c ws). simpl.
      rewrite E, Hw, <- Ew. auto.
    + exists EmptyString. auto.
Qed.

Lemma contains_decomp : forall w s,
  contains s w = true -> exists a b, s = a @@ w @@ b.
Proof.
  intros w. induction s as [|c s IH]; intros H.
  - destruct w; [exists EmptyString, EmptyString; reflexivity | discriminate].
  - cbn [contains] in H. apply orb_true_iff in H. destruct H as [H|H].
    + destruct (startswith_app _ _ H) as [rest E]. exists EmptyString, rest. exact E.
    + destruct (IH H) as (a & b & ->). exists (String c a), b. reflexivity.
Qed.

Lemma mem_char_decomp : forall c s,
  mem_char c s = true -> exists a b, s = a @@ String c b.
Proof.
  intros c. induction s as [|d s IH]; simpl; intros H; [discriminate|].
  apply orb_true_iff in H. destruct H as [H|H].
  - apply Ascii.eqb_eq in H. subst d. exists EmptyString, s. reflexivity.
  - destruct (IH H) as (a & b & ->). exists (String d a), b. reflexivity.
Qed.

Lemma cls_ok_of : forall fl p c, p c = true -> cls_ok fl p c = true.
Proof. intros fl p c H. unfold cls_ok. rewrite H. now destruct (ignorecase fl). Qed.

Lemma all_cls_ok : forall fl p s,
  all_chars p s = true -> all_chars (cls_ok fl p) s = true.
Proof. intros fl p s. apply all_chars_impl. apply cls_ok_of. Qed.

(** ** The signatures of an untagged fence are found by the patterns *)

(** A pattern anchored at a line start is found on any line it can match. *)
Lemma found_at_line : forall fl r content l,
  multiline fl = true ->
  In l (split NL content) ->
  (forall post, exists rest, can_match fl r (l @@ post) rest) ->
  re_search fl (Bol ;; r) content = true.
Proof.
  intros fl r content l Hm Hl Hr.
  destruct (line_of_text content l Hl) as (pre & post & -> & Hbol & _).
  destruct (Hr post) as [rest Hcan].
  unfold re_search. apply search_from_finds.
  unfold match_here. simpl exec. rewrite (Hbol fl Hm).
  apply Hcan. discriminate.
Qed.

Section Signatures.
Variable fl : flags.

Lemma can_blanks_then : forall r l post rest,
  can_match fl r (lstrip l @@ post) rest ->
  can_match fl (Star is_space ;; r) (l @@ post) rest.
Proof.
  intros r l post rest H.
  destruct (lstrip_decomp l) as (ws & E & Hws).
  rewrite E, append_assoc.
  eapply can_seq; [apply can_star, all_cls_ok, Hws | exact H].
Qed.

Lemma can_sig_starts : forall w l post,
  sig_starts w l = true ->
  exists rest, can_match fl (Star is_space ;; Str w) (l @@ post) rest.
Proof.
  intros w l post H. unfold sig_starts in H.
  destruct (startswith_app _ _ H) as [r E].
  exists (r @@ post). apply can_blanks_then. rewrite E, append_assoc. apply can_str.
Qed.

Lemma can_sig_lt : forall l post,
  sig_starts "<" l = true ->
  exists rest, can_match fl (Star is_space ;; Lit "<") (l @@ post) rest.
Proof.
  intros l post H. unfold sig_starts in H.
  destruct (startswith_app _ _ H) as [r E].
  exists (r @@ post). apply can_blanks_then. rewrite E. simpl.
  apply can_lit, lit_ok_refl.
Qed.

Lemma can_sig_echo : forall l post,
  startswith l "@echo" = true ->
  exists rest, can_match fl (Str "@echo") (l @@ post) rest.
Proof.
  intros l post H. destruct (startswith_app _ _ H) as [r ->].
  exists (r @@ post). rewrite append_assoc. apply can_str.
Qed.

Lemma drop_append : forall w r, drop (String.length w) (w @@ r) = r.
Proof. induction w as [|c w IH]; intros r; simpl; [now destruct r | apply IH]. Qed.

Lemma can_sig_command : forall kw l post,
  sig_command kw l = true ->
  exists rest, can_match fl (Str kw ;; Plus is_space) (l @@ post) rest.
Proof.
  intros kw l post H. unfold sig_command in H.
  apply andb_true_iff in H. destruct H as [Hs Hc].
  destruct (startswith_app _ _ Hs) as [r ->].
  rewrite drop_append in Hc. destruct r as [|c r]; [discriminate|].
  exists (r @@ post). rewrite append_assoc.
  eapply can_seq; [apply can_str|]. simpl.
  apply (can_plus fl is_space c EmptyString (r @@ post)).
  - apply cls_ok_of, Hc.
  - reflexivity.
Qed.

Lemma can_sig_caps : forall l post,
  sig_caps_assignment l = true ->
  exists rest,
    can_match fl (Plus upper_or_us ;; Star is_space ;; Lit "=") (l @@ post) rest.
Proof.
  intros [|c l] post H; [discriminate|]. unfold sig_caps_assignment in H.
  apply andb_true_iff in H. destruct H as [Hc Hs].
  simpl skip_cls in Hs. rewrite Hc in Hs.
  destruct (skip_cls_decomp upper_or_us l) as (run & El & Hrun).
  destruct (startswith_app _ _ Hs) as [r Er].
  exists (r @@ post). rewrite El. simpl. rewrite append_assoc.
  eapply can_seq.
  - apply can_plus; [apply cls_ok_of, Hc | apply all_cls_ok, Hrun].
  - apply can_blanks_then. rewrite Er. simpl. apply can_lit, lit_ok_refl.
Qed.

Lemma can_rest_of_line : forall r a b post rest,
  all_chars not_nl a = true ->
  can_match fl r (b @@ post) rest ->
  can_match fl (Star not_nl ;; r) ((a @@ b) @@ post) rest.
Proof.
  intros r a b post rest Ha H. rewrite append_assoc.
  eapply can_seq; [apply can_star, all_cls_ok, Ha | exact H].
Qed.

Lemma lstrip_no_nl : forall l,
  all_chars not_nl l = true -> all_chars not_nl (lstrip l) = true.
Proof.
  intros l H. destruct (lstrip_decomp l) as (ws & E & _).
  rewrite E, all_chars_app in H. apply andb_true_iff in H. tauto.
Qed.

Lemma can_sig_shebang : forall l post,
  sig_shebang l = true -> all_chars not_nl l = true ->
  exists rest,
    can_match fl (Star is_space ;; Lit "#" ;; Star not_nl ;; Str "bin/")
      (l @@ post) rest.
Proof.
  intros l post H Hn. unfold sig_shebang in H. apply lstrip_no_nl in Hn.
  destruct (lstrip l) as [|c r] eqn:E; [discriminate|].
  apply andb_true_iff in H. destruct H as [Hc Hb].
  apply Ascii.eqb_eq in Hc. subst c.
  destruct (contains_decomp _ _ Hb) as (a & b & ->).
  remember ("bin/" @@ b) as tail eqn:Et.
  simpl in Hn. rewrite all_chars_app in Hn. apply andb_true_iff in Hn.
  exists (b @@ post). apply can_blanks_then. rewrite E. simpl.
  eapply can_seq; [apply can_lit, lit_ok_refl|].
  apply can_rest_of_line; [tauto|]. subst tail. rewrite append_assoc.
  exact (can_str fl "bin/" (b @@ post)).
Qed.

(** A line that opens with a bracket closed later on the same line. *)
Lemma can_bracket : forall r post,
  mem_char "]" r = true -> all_chars not_nl r = true ->
  exists rest,
    can_match fl (Lit "[" ;; Star not_nl ;; Lit "]") (String "[" r @@ post) rest.
Proof.
  intros r post Hb Hn.
  destruct (mem_char_decomp _ _ Hb) as (a & b & ->).
  rewrite all_chars_app in Hn. apply andb_true_iff in Hn.
  exists (b @@ post). simpl.
  eapply can_seq; [apply can_lit, lit_ok_refl|].
  apply can_rest_of_line; [tauto|]. simpl. apply can_lit, lit_ok_refl.
Qed.

Lemma can_sig_bracket : forall l post,
  sig_bracket l = true -> all_chars not_nl l = true ->
  exists rest,
    can_match fl (Star is_space ;; Lit "[" ;; Star not_nl ;; Lit "]")
      (l @@ post) rest.
Proof.
  intros l post H Hn. unfold sig_bracket in H. apply lstrip_no_nl in Hn.
  destruct (lstrip l) as [|c r] eqn:E; [discriminate|].
  apply andb_true_iff in H. destruct H as [Hc Hb].
  apply Ascii.eqb_eq in Hc. subst c. simpl in Hn.
  destruct (can_bracket r post Hb Hn) as [rest H].
  exists rest. apply can_blanks_then. rewrite E. exact H.
Qed.

End Signatures.

(** Any line with one of the signatures makes the body look non-Python. *)
Lemma signature_found : forall content l sig,
  In l (split NL content) -> In sig line_signatures -> sig l = true ->
  looks_non_python content = true.
Proof.
  intros content l sig Hl Hsig H.
  pose proof (split_no_nl content l Hl) as Hn.
  unfold looks_non_python. apply existsb_exists.
  unfold line_signatures in Hsig. simpl in Hsig.
  repeat (destruct Hsig as [<-|Hsig]);
    [ | | | | | | | | | | | | | | destruct Hsig];
    (eexists; split;
     [ | eapply (found_at_line flags_MI _ content l eq_refl Hl); intros post ];
     [ |
       first [ apply can_sig_caps, H
             | apply can_sig_shebang; [exact H | exact Hn]
             | apply can_sig_lt, H
             | apply can_sig_bracket; [exact H | exact Hn]
             | apply can_sig_command, H
             | apply can_sig_echo, H
             | apply can_sig_starts, H ] ];
     unfold non_python_patterns; simpl; tauto).
Qed.

Lemma rstrip_head : forall c s,
  is_space c = false -> exists r, rstrip (String c s) = String c r.
Proof.
  intros c s H. simpl. destruct (rstrip s).
  - rewrite H. eexists. reflexivity.
  - eexists. reflexivity.
Qed.

Lemma strip_head : forall c s,
  is_space c = false -> exists r, strip (String c s) = String c r.
Proof.
  intros c s H. unfold strip. cbn [lstrip]. rewrite H. apply rstrip_head, H.
Qed.

(** The fence token of a fence-opening line starts with a backtick. *)
Lemma code_start_fence : forall line fence lang,
  code_start line = Some (fence, lang) -> exists f, fence = String BT f.
Proof.
  intros line fence lang H. unfold code_start, re_match, match_here in H.
  destruct (exec no_flags re_code_start _ [] None line) as [[cs rest]|] eqn:E;
    [|discriminate].
  apply exec_sound in E. destruct E as (cs' & prev' & s' & Hsem & Hk).
  inversion Hk; subst cs' s'. inversion H; subst fence lang. clear H Hk.
  unfold re_code_start in Hsem. simpl in Hsem.
  destruct Hsem as (cs0 & prev0 & s0 & (_ & -> & -> & ->) & Hsem).
  destruct Hsem as (cs1 & prev1 & s1 & (cg & Hg & ->) & Hsem).
  destruct Hg as (? & ? & ? & (d1 & -> & Hd1 & -> & _) & Hg).
  destruct Hg as (? & ? & ? & (d2 & -> & Hd2 & -> & _) & Hg).
  destruct Hg as (? & ? & ? & (d3 & -> & Hd3 & -> & _) & (run & -> & _ & -> & _)).
  destruct Hsem as (? & ? & ? & (ws & -> & _ & -> & _) & Hsem).
  destruct Hsem as (? & ? & ? & (? & (w & -> & _ & -> & _) & ->) & (_ & -> & _ & _)).
  apply Ascii.eqb_eq in Hd1. subst d1.
  cbn [group Nat.eqb].
  match goal with
  | |- context [take ?n (String BT ?x)] =>
      destruct n as [|m] eqn:En;
        [cbn [String.length] in En; rewrite !length_append in En; lia|]
  end.
  eexists. reflexivity.
Qed.

Lemma fence_line_not_quoted : forall line f,
  strip line = String BT f -> startswith line "> ```" = false.
Proof.
  intros [|c line] f H; [reflexivity|]. cbn [startswith].
  destruct (Ascii.eqb ">" c) eqn:E; [|reflexivity].
  apply Ascii.eqb_eq in E. subst c.
  destruct (strip_head ">" line eq_refl) as [r Hr]. rewrite Hr in H. discriminate.
Qed.

(** The cell of an untagged fence. *)
Lemma fence_cell_untagged : forall content,
  fence_cell EmptyString content
  = if looks_non_python content
    then (markdown, "```text" @@ NLs @@ content @@ NLs @@ "```")
    else (code, content).
Proof.
  intros content. unfold fence_cell. simpl.
  destruct (looks_non_python content); reflexivity.
Qed.

(** The cells after a fence that is opened outside any fence and closed by
    the first later line whose stripped text is the fence token. *)
Lemma seg_loop_closed_fence : forall pre open body close fence lang,
  quote_code_block (seg_loop pre) = false ->
  in_code_block (seg_loop pre) = false ->
  code_start open = Some (fence, lang) ->
  (forall l, In l body -> startswith l "> ```" = false /\ strip l <> fence) ->
  strip close = fence ->
  cells (seg_loop (pre ++ open :: body ++ [close]))
  = cells (seg_step (seg_loop pre) open)
    ++ (if truthy (strip (join NLs body))
        then [fence_cell lang (strip (join NLs body))] else []).
Proof.
  intros pre open body close fence lang Hq Hc Hs Hb Hclose.
  destruct (code_start_fence _ _ _ Hs) as [f Ef].
  assert (Hnq : startswith close "> ```" = false).
  { apply (fence_line_not_quoted close f). congruence. }
  unfold seg_loop in *. rewrite fold_left_app. simpl fold_left.
  rewrite fold_left_app. simpl fold_left.
  set (st := fold_left seg_step pre seg_init) in *.
  rewrite (seg_step_open st open fence lang Hq Hc Hs).
  set (st1 := mk_seg _ _ _ _ _ _ _).
  rewrite (seg_loop_inside body st1); [|reflexivity|reflexivity|exact Hb].
  rewrite seg_step_close; try reflexivity; try assumption.
  simpl. destruct (truthy (strip (join NLs body))); [reflexivity|].
  now rewrite app_nil_r.
Qed.

(** C2, as the code has it.  An untagged fence that is opened outside any
    fence and properly closed, with a body that is non-empty once stripped,
    becomes one cell made from the content, which is the body joined by line
    feeds and stripped: a prose cell holding the content in a fence tagged
    [text] when the pattern search of the source finds a non-code pattern in
    the content, a code cell holding the content otherwise.  A line of the
    content with one of the signatures (capitals assignment, comment naming a
    [bin/] path, leading [<], leading bracket closed later on the same line,
    the command words followed by a blank, [@echo], the four lead-in
    phrases) is always found, so the cell is then the prose cell.  The
    signatures are read on the content, not on the body as written: a
    body [export] with a blank after it is stripped to [export] and stays
    code, and an indented [export X=1] is stripped and becomes prose.  The
    fence holding [export PATH=/x] becomes prose; the fence holding
    [print(1)] becomes code. *)
Theorem C2_untagged_fence :
  (forall pre open body close fence,
     quote_code_block (seg_loop pre) = false ->
     in_code_block (seg_loop pre) = false ->
     code_start open = Some (fence, EmptyString) ->
     (forall l, In l body -> startswith l "> ```" = false /\ strip l <> fence) ->
     strip close = fence ->
     strip (join NLs body) <> EmptyString ->
     cells (seg_loop (pre ++ open :: body ++ [close]))
     = cells (seg_step (seg_loop pre) open)
       ++ [if looks_non_python (strip (join NLs body))
           then (markdown,
                 "```text" @@ NLs @@ strip (join NLs body) @@ NLs @@ "```")
           else (code, strip (join NLs body))])
  /\ (forall content l sig,
        In l (split NL content) -> In sig line_signatures -> sig l = true ->
        looks_non_python content = true)
  /\ (forall pre open body close fence l sig,
        quote_code_block (seg_loop pre) = false ->
        in_code_block (seg_loop pre) = false ->
        code_start open = Some (fence, EmptyString) ->
        (forall l, In l body -> startswith l "> ```" = false /\ strip l <> fence) ->
        strip close = fence ->
        In l (split NL (strip (join NLs body))) ->
        In sig line_signatures -> sig l = true ->
        cells (seg_loop (pre ++ open :: body ++ [close]))
        = cells (seg_step (seg_loop pre) open)
          ++ [(markdown,
               "```text" @@ NLs @@ strip (join NLs body) @@ NLs @@ "```")])
  /\ raw_cells (join NLs ["```"; "export PATH=/x"; "```"])
     = [(markdown, join NLs ["```text"; "export PATH=/x"; "```"])]
  /\ raw_cells (join NLs ["```"; "print(1)"; "```"]) = [(code, "print(1)")]
  /\ raw_cells (join NLs ["```"; "export "; "```"]) = [(code, "export")]
  /\ raw_cells (join NLs ["```"; "  export X=1"; "```"])
     = [(markdown, join NLs ["```text"; "export X=1"; "```"])].
Proof.
  assert (P1 : forall pre open body close fence,
     quote_code_block (seg_loop pre) = false ->
     in_code_block (seg_loop pre) = false ->
     code_start open = Some (fence, EmptyString) ->
     (forall l, In l body -> startswith l "> ```" = false /\ strip l <> fence) ->
     strip close = fence ->
     strip (join NLs body) <> EmptyString ->
     cells (seg_loop (pre ++ open :: body ++ [close]))
     = cells (seg_step (seg_loop pre) open)
       ++ [if looks_non_python (strip (join NLs body))
           then (markdown,
                 "```text" @@ NLs @@ strip (join NLs body) @@ NLs @@ "```")
           else (code, strip (join NLs body))]).
  { intros pre open body close fence Hq Hc Hs Hb Hclose Hne.
    rewrite (seg_loop_closed_fence pre open body close fence EmptyString);
      try assumption.
    apply truthy_true in Hne. rewrite Hne, fence_cell_untagged. reflexivity. }
  split; [exact P1|]. split; [exact signature_found|]. split.
  - intros pre open body close fence l sig Hq Hc Hs Hb Hclose Hl Hsig Hsl.
    pose proof (signature_found _ l sig Hl Hsig Hsl) as Hnp.
    rewrite (P1 pre open body close fence Hq Hc Hs Hb Hclose), Hnp; [reflexivity|].
    intros E. rewrite E in Hnp. discriminate.
  - repeat split; reflexivity.
Qed.

Lemma C2_witness :
  cells (seg_loop (["Intro"] ++ "```" :: ["export PATH=/x"] ++ ["```"]))
  = cells (seg_step (seg_loop ["Intro"]) "```")
    ++ [if looks_non_python (strip (join NLs ["export PATH=/x"]))
        then (markdown,
              "```text" @@ NLs @@ strip (join NLs ["export PATH=/x"]) @@ NLs @@ "```")
        else (code, strip (join NLs ["export PATH=/x"]))].
Proof.
  apply (proj1 C2_untagged_fence ["Intro"] "```" ["export PATH=/x"] "```" "```");
    try reflexivity.
  - intros l [<-|[]]. split; [reflexivity | discriminate].
  - discriminate.
Defined.

(** A leading bracket alone does not downgrade an untagged fence (C2 as the
    specification words it): the first line of the body below starts with an
    opening bracket, and the fence is a code cell all the same. *)
Lemma C2_counterexample :
  In "[1," (split NL (join NLs ["[1,"; "2]"]))
  /\ startswith "[1," "[" = true
  /\ raw_cells (join NLs ["```"; "[1,"; "2]"; "```"])
     = [(code, join NLs ["[1,"; "2]"])].
Proof. split; [left; reflexivity | split; reflexivity]. Qed.

(** ** The loops of the transpiler *)

Lemma while_idx_range : forall (St : Type) n (body : nat -> St -> option (nat * St)),
  advancing n body ->
  forall fuel i s, i <= n ->
    i <= fst (while_idx fuel n body i s) /\ fst (while_idx fuel n body i s) <= n.
Proof.
  intros St n body Hadv. induction fuel as [|fuel IH]; intros i s Hi; simpl.
  - lia.
  - destruct (i <? n) eqn:E; [|simpl; lia].
    apply Nat.ltb_lt in E.
    destruct (body i s) as [[i' s']|] eqn:Eb; [|simpl; lia].
    destruct (Hadv i s i' s' E Eb) as [H1 H2].
    specialize (IH i' s' H2). lia.
Qed.

(** With the fuel the callers give, a loop ends at the end of the lines or
    at a [break], never for lack of fuel. *)
Lemma while_idx_exit : forall (St : Type) n (body : nat -> St -> option (nat * St)),
  advancing n body ->
  forall fuel i s, n - i <= fuel ->
    let '(j, t) := while_idx fuel n body i s in
    n <= j \/ body j t = None.
Proof.
  intros St n body Hadv. induction fuel as [|fuel IH]; intros i s Hf; simpl.
  - left. lia.
  - destruct (i <? n) eqn:E.
    + apply Nat.ltb_lt in E.
      destruct (body i s) as [[i' s']|] eqn:Eb; [|right; exact Eb].
      destruct (Hadv i s i' s' E Eb) as [H1 H2].
      apply IH. lia.
    + apply Nat.ltb_ge in E. left. exact E.
Qed.

Lemma line_body_advancing : forall (St : Type) lines (body : string -> St -> option St),
  advancing (List.length lines) (line_body lines body).
Proof.
  intros St lines body i s i' s' Hi H. unfold line_body in H.
  destruct (body (nth i lines EmptyString) s); inversion H; subst. lia.
Qed.

Lemma while_lines_range : forall (St : Type) lines (body : string -> St -> option St) i s,
  i <= List.length lines ->
  i <= fst (while_lines lines body i s)
  /\ fst (while_lines lines body i s) <= List.length lines.
Proof.
  intros. apply while_idx_range; [apply line_body_advancing | assumption].
Qed.

Lemma skip_lines_range : forall lines go i,
  i <= List.length lines ->
  i <= skip_lines lines go i /\ skip_lines lines go i <= List.length lines.
Proof. intros. unfold skip_lines. now apply while_lines_range. Qed.

Lemma collect_code_range : forall lines base i acc,
  i <= List.length lines ->
  i <= fst (collect_code lines base i acc)
  /\ fst (collect_code lines base i acc) <= List.length lines.
Proof. intros. unfold collect_code. now apply while_lines_range. Qed.

(** ** Every handler moves the cursor forward *)

Lemma h_title_advances : forall lines i result,
  is_title lines i = true ->
  i < fst (h_title lines i result) /\ fst (h_title lines i result) <= List.length lines.
Proof.
  intros lines i result H. unfold is_title in H.
  repeat (apply andb_true_iff in H; destruct H as [H ?]).
  apply Nat.ltb_lt in H. simpl. lia.
Qed.

Lemma h_testcode_advances : forall lines i result,
  i < List.length lines ->
  i < fst (h_testcode lines i result)
  /\ fst (h_testcode lines i result) <= List.length lines.
Proof.
  intros lines i result Hi. unfold h_testcode.
  pose proof (skip_lines_range lines is_blank (S i) Hi) as H1.
  set (j := skip_lines lines is_blank (S i)) in *.
  pose proof (collect_code_range lines (base_indent_at lines j) j
                (result ++ [EmptyString; "```python"]) (proj2 H1)) as H2.
  destruct (collect_code lines (base_indent_at lines j) j _) as [k r].
  simpl in *. lia.
Qed.

Lemma h_code_block_advances : forall lines i result lang,
  i < List.length lines ->
  i < fst (h_code_block lines i result lang)
  /\ fst (h_code_block lines i result lang) <= List.length lines.
Proof.
  intros lines i result lang Hi. unfold h_code_block.
  match goal with |- context [skip_lines lines ?g (S i)] =>
    pose proof (skip_lines_range lines g (S i) Hi) as H1;
    set (j := skip_lines lines g (S i)) in * end.
  pose proof (collect_code_range lines (base_indent_at lines j) j
                (result ++ [EmptyString; "```" @@ lang]) (proj2 H1)) as H2.
  destruct (collect_code lines (base_indent_at lines j) j _) as [k r].
  simpl in *. lia.
Qed.

Lemma h_literal_advances : forall lines i result,
  i < List.length lines ->
  i < fst (h_literal lines i result)
  /\ fst (h_literal lines i result) <= List.length lines.
Proof.
  intros lines i result Hi. unfold h_literal.
  pose proof (skip_lines_range lines is_blank (S i) Hi) as H1.
  set (j := skip_lines lines is_blank (S i)) in *.
  match goal with |- context [if ?b then _ else _] => destruct b end.
  - pose proof (collect_code_range lines (raw_indent (nth j lines EmptyString)) j
                  [] (proj2 H1)) as H2.
    destruct (collect_code lines _ j []) as [k r]. simpl in *. lia.
  - simpl. lia.
Qed.

Lemma h_figure_advances : forall lines i result img_path,
  i < List.length lines ->
  i < fst (h_figure lines i result img_path)
  /\ fst (h_figure lines i result img_path) <= List.length lines.
Proof.
  intros lines i result img_path Hi. unfold h_figure.
  pose proof (while_lines_range _ lines figure_body (S i) EmptyString Hi) as H1.
  destruct (while_lines lines figure_body (S i) EmptyString) as [k caption].
  simpl in *. lia.
Qed.

Lemma nested_testcode_advances : forall lines i code_blocks,
  i < List.length lines ->
  i < fst (nested_testcode lines i code_blocks)
  /\ fst (nested_testcode lines i code_blocks) <= List.length lines.
Proof.
  intros lines i code_blocks Hi. unfold nested_testcode.
  pose proof (skip_lines_range lines is_blank (S i) Hi) as H1.
  set (j := skip_lines lines is_blank (S i)) in *.
  pose proof (collect_code_range lines (base_indent_at lines j) j [] (proj2 H1)) as H2.
  destruct (collect_code lines (base_indent_at lines j) j []) as [k r].
  simpl in *. lia.
Qed.

Lemma admonition_body_advancing : forall lines base_indent,
  advancing (List.length lines) (admonition_body lines base_indent).
Proof.
  intros lines base_indent i [text_lines code_blocks] i' s' Hi H.
  unfold admonition_body in H.
  match type of H with (if ?b then _ else _) = _ => destruct b end; [discriminate|].
  destruct (matches re_testcode (strip (nth i lines EmptyString))).
  - pose proof (nested_testcode_advances lines i code_blocks Hi) as H1.
    destruct (nested_testcode lines i code_blocks) as [k c].
    inversion H; subst. simpl in H1. exact H1.
  - inversion H; subst. lia.
Qed.

Lemma h_admonition_advances : forall lines i indent result directive_type inline_content,
  i < List.length lines ->
  i < fst (h_admonition lines i indent result directive_type inline_content)
  /\ fst (h_admonition lines i indent result directive_type inline_content)
     <= List.length lines.
Proof.
  intros lines i indent result directive_type inline_content Hi. unfold h_admonition.
  pose proof (while_idx_range _ _ _ (admonition_body_advancing lines (indent + 3))
                (List.length lines - S i) (S i) ([], []) Hi) as H1.
  destruct (while_idx _ _ _ (S i) _) as [k [text_lines code_blocks]].
  simpl in *. lia.
Qed.

(** Whatever the line, one iteration of the main loop moves the cursor
    forward, and not past the end. *)
Lemma step_advances : forall lines i result,
  i < List.length lines ->
  i < fst (step lines i result) /\ fst (step lines i result) <= List.length lines.
Proof.
  intros lines i result Hi. unfold step.
  repeat match goal with
  | |- context [if ?b then _ else _] =>
      match b with
      | context [if _ then _ else _] => fail 1
      | _ => destruct b eqn:?
      end
  | |- context [match re_match ?f ?r ?s with _ => _ end] =>
      destruct (re_match f r s) as [[? ?]|] eqn:?
  end;
  try (simpl; unfold skip_block, skip_highlight, skip_index, skip_unknown;
       match goal with
       | |- context [skip_lines lines ?g (S i)] =>
           pose proof (skip_lines_range lines g (S i) Hi); lia
       end);
  try (simpl; lia);
  first [ now apply h_title_advances
        | now apply h_testcode_advances
        | now apply h_code_block_advances
        | now apply h_literal_advances
        | now apply h_figure_advances
        | now apply h_admonition_advances ].
Qed.

(** ** The main loop *)

Lemma dispatch_end : forall lines fuel i result,
  i <= List.length lines -> List.length lines - i <= fuel ->
  fst (dispatch fuel lines i result) = List.length lines.
Proof.
  intros lines. induction fuel as [|fuel IH]; intros i result Hi Hf; simpl.
  - lia.
  - destruct (i <? List.length lines) eqn:E.
    + apply Nat.ltb_lt in E. pose proof (step_advances lines i result E) as H.
      destruct (step lines i result) as [i' result']. simpl in H.
      apply IH; lia.
    + apply Nat.ltb_ge in E. simpl. lia.
Qed.

Lemma dispatch_more_fuel : forall lines fuel fuel' i result,
  List.length lines - i <= fuel -> List.length lines - i <= fuel' ->
  dispatch fuel lines i result = dispatch fuel' lines i result.
Proof.
  intros lines. induction fuel as [|fuel IH]; intros fuel' i result Hf Hf'.
  - destruct fuel' as [|fuel']; [reflexivity|]. simpl.
    replace (i <? List.length lines) with false
      by (symmetry; apply Nat.ltb_ge; lia). reflexivity.
  - destruct fuel' as [|fuel']; simpl.
    + replace (i <? List.length lines) with false
        by (symmetry; apply Nat.ltb_ge; lia). reflexivity.
    + destruct (i <? List.length lines) eqn:E; [|reflexivity].
      apply Nat.ltb_lt in E. pose proof (step_advances lines i result E) as H.
      destruct (step lines i result) as [i' result']. simpl in H.
      apply IH; lia.
Qed.

Lemma visited_from : forall lines fuel i result,
  Forall (fun x => i <= x) (visited fuel lines i result)
  /\ increasing (visited fuel lines i result)
  /\ NoDup (visited fuel lines i result).
Proof.
  intros lines. induction fuel as [|fuel IH]; intros i result; simpl.
  - repeat split; constructor.
  - destruct (i <? List.length lines) eqn:E; [|repeat split; constructor].
    apply Nat.ltb_lt in E. pose proof (step_advances lines i result E) as H.
    destruct (step lines i result) as [i' result']. simpl in H.
    destruct (IH i' result') as (Hge & Hinc & Hnd).
    repeat split.
    + constructor; [lia|]. eapply Forall_impl; [|exact Hge]. simpl. intros; lia.
    + simpl. destruct (visited fuel lines i' result') as [|y ys]; [exact I|].
      split; [|exact Hinc]. inversion Hge; subst. lia.
    + constructor; [|exact Hnd]. intros Hin.
      rewrite Forall_forall in Hge. apply Hge in Hin. lia.
Qed.

(** Each handler on its own moves the cursor forward. *)
Lemma run_handler_advances : forall lines i result h,
  i < List.length lines -> i < fst (run_handler lines i result h).
Proof.
  intros lines i result h Hi.
  assert (Hskip : forall go, i < skip_lines lines go (S i)).
  { intros go. pose proof (skip_lines_range lines go (S i) Hi). lia. }
  destruct h; unfold run_handler; cbv zeta;
    unfold skip_block, skip_highlight, skip_index, skip_unknown.
  - apply Hskip.
  - apply Hskip.
  - apply Hskip.
  - apply Hskip.
  - simpl. lia.
  - simpl. lia.
  - apply h_testcode_advances, Hi.
  - apply h_code_block_advances, Hi.
  - apply h_literal_advances, Hi.
  - apply h_figure_advances, Hi.
  - apply h_admonition_advances, Hi.
  - apply Hskip.
  - simpl. lia.
Qed.

(** C9. Every iteration of the dispatch loop, whichever handler takes the
    line, moves the cursor strictly forward and not past the end; so does
    each of the thirteen handlers taken alone; the inner
    loops of the handlers do the same and end at the end of the lines or at
    a break, not for lack of fuel; so the main loop started at cursor 0 ends
    with the cursor at the end of the document, more fuel changes nothing,
    and the cursors it visits grow strictly, none visited twice. *)
Theorem C9_transpiler_terminates :
  (forall lines i result,
     i < List.length lines ->
     i < fst (step lines i result) /\ fst (step lines i result) <= List.length lines)
  /\ (forall lines i result h,
        i < List.length lines -> i < fst (run_handler lines i result h))
  /\ (forall lines, fst (dispatch (List.length lines) lines 0 []) = List.length lines)
  /\ (forall lines fuel,
        List.length lines <= fuel ->
        dispatch fuel lines 0 [] = dispatch (List.length lines) lines 0 [])
  /\ (forall lines fuel,
        increasing (visited fuel lines 0 []) /\ NoDup (visited fuel lines 0 []))
  /\ (forall (St : Type) lines (body : string -> St -> option St),
        advancing (List.length lines) (line_body lines body))
  /\ (forall lines base_indent,
        advancing (List.length lines) (admonition_body lines base_indent))
  /\ (forall (St : Type) n (body : nat -> St -> option (nat * St)) i s,
        advancing n body -> i <= n ->
        i <= fst (while_idx (n - i) n body i s)
        /\ fst (while_idx (n - i) n body i s) <= n
        /\ (n <= fst (while_idx (n - i) n body i s)
            \/ body (fst (while_idx (n - i) n body i s))
                    (snd (while_idx (n - i) n body i s)) = None)).
Proof.
  split; [exact step_advances|].
  split; [exact run_handler_advances|].
  split; [intros lines; apply dispatch_end; lia|].
  split; [intros lines fuel Hf; apply dispatch_more_fuel; lia|].
  split; [intros lines fuel; destruct (visited_from lines fuel 0 []) as (_ & ? & ?); auto|].
  split; [exact line_body_advancing|].
  split; [exact admonition_body_advancing|].
  intros St n body i s Hadv Hi.
  pose proof (while_idx_range St n body Hadv (n - i) i s Hi) as [H1 H2].
  pose proof (while_idx_exit St n body Hadv (n - i) i s (le_n _)) as H3.
  destruct (while_idx (n - i) n body i s) as [j t]. simpl in *. auto.
Qed.

Lemma C9_witness :
  2 < fst (step [".. note:: Be careful"; "   more text"; ".. figure:: a.png";
                 "   :align: center"; "   Caption"; "After"] 2 [])
  /\ fst (step [".. note:: Be careful"; "   more text"; ".. figure:: a.png";
                "   :align: center"; "   Caption"; "After"] 2 [])
     <= List.length [".. note:: Be careful"; "   more text"; ".. figure:: a.png";
                     "   :align: center"; "   Caption"; "After"].
Proof.
  apply (proj1 C9_transpiler_terminates
           [".. note:: Be careful"; "   more text"; ".. figure:: a.png";
            "   :align: center"; "   Caption"; "After"] 2 []).
  simpl. lia.
Defined.

(** ** The inline rewriter *)

Lemma mem_char_app : forall c a b,
  mem_char c (a @@ b) = mem_char c a || mem_char c b.
Proof.
  intros c. induction a as [|d a IH]; intros b; simpl; [reflexivity|].
  now rewrite IH, orb_assoc.
Qed.

Lemma sem_suffix : forall fl r cs prev s cs' prev' s',
  sem fl r cs prev s cs' prev' s' -> exists pre, s = pre @@ s'.
Proof.
  intros fl. induction r as [|c|p|r1 IH1 r2 IH2|r1 IH1 r2 IH2|p|n r1 IH1| |];
    intros cs prev s cs' prev' s' H; simpl in H.
  - destruct H as (_ & _ & ->). exists EmptyString. reflexivity.
  - destruct H as (d & -> & _). exists (String d EmptyString). reflexivity.
  - destruct H as (d & -> & _). exists (String d EmptyString). reflexivity.
  - destruct H as (cs1 & prev1 & s1 & H1 & H2).
    apply IH1 in H1. apply IH2 in H2. destruct H1 as [p1 ->]. destruct H2 as [p2 ->].
    exists (p1 @@ p2). now rewrite append_assoc.
  - destruct H as [H|H]; eauto.
  - destruct H as (run & -> & _). exists run. reflexivity.
  - destruct H as (cs1 & H & _). eauto.
  - destruct H as (_ & _ & _ & ->). exists EmptyString. reflexivity.
  - destruct H as (_ & _ & _ & ->). exists EmptyString. reflexivity.
Qed.

(** A match of a pattern that needs [c] starts in a text that holds [c]. *)
Lemma sem_needs : forall c r cs prev s cs' prev' s',
  needs c r = true -> sem no_flags r cs prev s cs' prev' s' -> mem_char c s = true.
Proof.
  intros c. induction r as [|d|p|r1 IH1 r2 IH2|r1 IH1 r2 IH2|p|n r1 IH1| |];
    intros cs prev s cs' prev' s' Hn H; simpl in Hn, H; try discriminate.
  - destruct H as (e & -> & He & _). unfold lit_ok in He. simpl in He.
    apply Ascii.eqb_eq in Hn, He. subst. simpl. now rewrite Ascii.eqb_refl.
  - destruct H as (cs1 & prev1 & s1 & H1 & H2).
    apply orb_true_iff in Hn. destruct Hn as [Hn|Hn].
    + eapply IH1; eauto.
    + destruct (sem_suffix _ _ _ _ _ _ _ _ H1) as [pre ->].
      rewrite mem_char_app. apply orb_true_iff. right. eapply IH2; eauto.
  - apply andb_true_iff in Hn. destruct Hn as [Hn1 Hn2].
    destruct H as [H|H]; [eapply IH1 | eapply IH2]; eauto.
  - destruct H as (cs1 & H & _). eapply IH1; eauto.
Qed.

Lemma no_match_without : forall c r prev s,
  needs c r = true -> mem_char c s = false -> match_here no_flags r prev s = None.
Proof.
  intros c r prev s Hn Hs. unfold match_here.
  destruct (exec no_flags r _ [] prev s) as [x|] eqn:E; [|reflexivity].
  apply exec_sound in E. destruct E as (cs' & prev' & s' & Hsem & _).
  rewrite (sem_needs c r _ _ _ _ _ _ Hn Hsem) in Hs. discriminate.
Qed.

(** Where the pattern matches at no position, [re.sub] changes nothing. *)
Lemma sub_from_unchanged : forall r t s prev,
  (forall pre suf prev', s = pre @@ suf -> match_here no_flags r prev' suf = None) ->
  sub_from no_flags r t prev s 0 = s.
Proof.
  intros r t. induction s as [|c s IH]; intros prev H; simpl; [reflexivity|].
  rewrite (H EmptyString (String c s) prev eq_refl). f_equal.
  apply IH. intros pre suf prev' E. apply (H (String c pre) suf prev').
  simpl. now rewrite E.
Qed.

Lemma re_sub_without : forall c r t s,
  needs c r = true -> mem_char c s = false -> re_sub r t s = s.
Proof.
  intros c r t s Hn Hs. unfold re_sub. apply sub_from_unchanged.
  intros pre suf prev' E. apply (no_match_without c); [exact Hn|].
  subst s. rewrite mem_char_app in Hs. apply orb_false_iff in Hs. tauto.
Qed.

Lemma apply_rules_without : forall c rules line,
  forallb (fun rule => needs c (fst rule)) rules = true ->
  mem_char c line = false -> apply_rules rules line = line.
Proof.
  intros c. unfold apply_rules.
  induction rules as [|[r t] rules IH]; intros line Hr Hl; simpl; [reflexivity|].
  simpl in Hr. apply andb_true_iff in Hr. destruct Hr as [H1 H2].
  rewrite (re_sub_without c r t line H1 Hl). apply IH; assumption.
Qed.

Lemma contains_app_false : forall w pre suf,
  contains (pre @@ suf) w = false -> startswith suf w = false.
Proof.
  intros w. induction pre as [|c pre IH]; intros suf H.
  - simpl in H. destruct suf; cbn [contains] in H; apply orb_false_iff in H; tauto.
  - cbn [append contains] in H. apply orb_false_iff in H. apply IH. tauto.
Qed.

Lemma double_backtick_starts : forall prev s,
  match_here no_flags re_double_backtick prev s <> None -> startswith s "``" = true.
Proof.
  intros prev s H. unfold match_here in H.
  destruct (exec no_flags re_double_backtick _ [] prev s) as [x|] eqn:E; [|congruence].
  apply exec_sound in E. destruct E as (cs' & prev' & s' & Hsem & _).
  unfold re_double_backtick in Hsem. simpl in Hsem.
  destruct Hsem as (? & ? & ? & (d1 & -> & Hd1 & _) & Hsem).
  destruct Hsem as (? & ? & ? & (d2 & -> & Hd2 & _) & _).
  apply Ascii.eqb_eq in Hd1, Hd2. subst.
  reflexivity.
Qed.

(** The greedy run: when the text after [run] does not go on with the class,
    the continuation is tried first where the run ends. *)
Lemma star_run_exact : forall fl (R : Type) p (k : kont R) cs run rest prev x,
  all_chars (cls_ok fl p) run = true ->
  match rest with
  | EmptyString => true
  | String c _ => negb (cls_ok fl p c)
  end = true ->
  k cs (last_of prev run) rest = Some x ->
  star_run fl p k cs prev (run @@ rest) = Some x.
Proof.
  intros fl R p k cs. induction run as [|c run IH]; intros rest prev x Hr Hs Hk.
  - cbn [append last_of] in *. destruct rest as [|d rest]; [exact Hk|].
    cbn [star_run]. apply negb_true_iff in Hs. rewrite Hs. exact Hk.
  - cbn [all_chars] in Hr. apply andb_true_iff in Hr. destruct Hr as [Hc Hr].
    cbn [append star_run]. rewrite Hc.
    rewrite (IH rest (Some c) x Hr Hs Hk). reflexivity.
Qed.

(** The double-backtick pattern at a span. *)
Lemma double_backtick_at_span : forall body rest prev,
  truthy body = true -> mem_char BT body = false ->
  match_here no_flags re_double_backtick prev ("``" @@ body @@ "``" @@ rest)
  = Some ([(1, body)], rest).
Proof.
  intros [|c body] rest prev Ht Hb; [discriminate|].
  cbn [mem_char] in Hb. apply orb_false_iff in Hb. destruct Hb as [Hc Hb].
  unfold match_here, re_double_backtick.
  change ("``" @@ String c body @@ "``" @@ rest)
    with (String BT (String BT (String c (body @@ "``" @@ rest)))).
  cbn [exec]. change (lit_ok no_flags BT BT) with true. cbv iota.
  unfold Plus. cbn [exec].
  change (cls_ok no_flags not_bt c) with (negb (Ascii.eqb c BT)).
  rewrite Ascii.eqb_sym, Hc. cbn [negb].
  apply star_run_exact.
  - clear -Hb. induction body as [|d body IH]; [reflexivity|].
    cbn [mem_char] in Hb. apply orb_false_iff in Hb. destruct Hb as [Hd Hb].
    cbn [all_chars]. rewrite (IH Hb), andb_true_r.
    change (cls_ok no_flags not_bt d) with (negb (Ascii.eqb d BT)).
    now rewrite Ascii.eqb_sym, Hd.
  - reflexivity.
  - change ("``" @@ rest) with (String BT (String BT rest)).
    change (lit_ok no_flags BT BT) with true. cbv iota.
    change (String c (body @@ String BT (String BT rest)))
      with (String c body @@ String BT (String BT rest)).
    rewrite take_app_length. reflexivity.
Qed.

Lemma sub_from_skip : forall fl r t m s prev,
  sub_from fl r t prev (m @@ s) (String.length m)
  = sub_from fl r t (last_of prev m) s 0.
Proof.
  intros fl r t. induction m as [|c m IH]; intros s prev.
  - reflexivity.
  - cbn [append String.length sub_from last_of]. apply IH.
Qed.

(** Text without a backtick is passed by the double-backtick rule. *)
Lemma sub_from_text : forall t text s prev,
  mem_char BT text = false ->
  sub_from no_flags re_double_backtick t prev (text @@ s) 0
  = text @@ sub_from no_flags re_double_backtick t (last_of prev text) s 0.
Proof.
  intros t. induction text as [|c text IH]; intros s prev H; [reflexivity|].
  cbn [mem_char] in H. apply orb_false_iff in H. destruct H as [Hc H].
  cbn [append sub_from last_of].
  destruct (match_here no_flags re_double_backtick prev (String c (text @@ s)))
    eqn:Em.
  - assert (Hs : startswith (String c (text @@ s)) "``" = true).
    { apply (double_backtick_starts prev). rewrite Em. discriminate. }
    cbn [startswith] in Hs. unfold BT in Hc. rewrite Hc in Hs. discriminate.
  - f_equal. apply IH, H.
Qed.

Lemma sub_from_at_match : forall fl r t prev c s' cs rest n,
  match_here fl r prev (String c s') = Some (cs, rest) ->
  String.length (String c s') - String.length rest = S n ->
  sub_from fl r t prev (String c s') 0
  = expand t cs @@ sub_from fl r t (Some c) s' n.
Proof. intros fl r t prev c s' cs rest n H H0. cbn [sub_from]. now rewrite H, H0. Qed.

(** The double-backtick rule converts a line of spans span by span. *)
Lemma sub_spans : forall spans prev,
  plain_spans spans = true ->
  sub_from no_flags re_double_backtick t_code prev (spans_source spans) 0
  = spans_converted spans.
Proof.
  induction spans as [|[body text] spans IH]; intros prev H; [reflexivity|].
  cbn [plain_spans] in H. repeat (apply andb_true_iff in H; destruct H as [H ?]).
  unfold plain_text in *.
  repeat match goal with
  | X : _ && _ = true |- _ => apply andb_true_iff in X; destruct X
  | X : negb _ = true |- _ => apply negb_true_iff in X
  end.
  cbn [spans_source spans_converted].
  set (tail := text @@ spans_source spans).
  pose proof (double_backtick_at_span body tail prev) as Hm.
  change ("``" @@ body @@ "``" @@ tail)
    with (String BT (String BT (body @@ "``" @@ tail))) in *.
  rewrite (sub_from_at_match _ _ _ _ _ _ _ _ (3 + String.length body) (Hm H H2)).
  2:{ cbn [String.length]. rewrite !length_append. cbn [String.length]. lia. }
  replace (String BT (body @@ "``" @@ tail))
    with (String BT (body @@ "``") @@ tail)
    by (cbn [append]; now rewrite append_assoc).
  replace (3 + String.length body) with (String.length (String BT (body @@ "``")))
    by (cbn [String.length]; rewrite length_append; cbn [String.length]; lia).
  rewrite sub_from_skip. unfold tail. rewrite sub_from_text by assumption.
  rewrite IH by assumption.
  cbn [t_code expand group Nat.eqb]. cbn [append].
  now rewrite append_assoc.
Qed.

Lemma plain_text_parts : forall s,
  plain_text s = true ->
  mem_char BT s = false /\ mem_char ":" s = false /\ mem_char "<" s = false.
Proof.
  intros s H. unfold plain_text in H.
  repeat (apply andb_true_iff in H; destruct H as [H ?]).
  repeat match goal with X : negb _ = true |- _ => apply negb_true_iff in X end.
  auto.
Qed.

Lemma spans_source_without : forall c spans,
  Ascii.eqb c BT = false ->
  (forall s, plain_text s = true -> mem_char c s = false) ->
  plain_spans spans = true ->
  mem_char c (spans_source spans) = false
  /\ mem_char c (spans_converted spans) = false.
Proof.
  intros c spans Hc Hp. induction spans as [|[body text] spans IH]; intros H.
  - split; reflexivity.
  - cbn [plain_spans] in H. repeat (apply andb_true_iff in H; destruct H as [H ?]).
    destruct (IH H0) as [I1 I2].
    cbn [spans_source spans_converted].
    rewrite !mem_char_app, I1, I2, (Hp body), (Hp text) by assumption.
    cbn [mem_char]. unfold BT in Hc. rewrite Hc. split; reflexivity.
Qed.

Lemma double_backtick_without : forall line,
  contains line "``" = false -> re_sub re_double_backtick t_code line = line.
Proof.
  intros line H. unfold re_sub. apply sub_from_unchanged.
  intros pre suf prev' E. subst line. apply contains_app_false in H.
  destruct (match_here no_flags re_double_backtick prev' suf) eqn:Em; [|reflexivity].
  rewrite (double_backtick_starts prev' suf) in H; [discriminate|].
  rewrite Em. discriminate.
Qed.

(** The rewriter leaves a line without a colon, two adjacent backticks and
    "<" as it is. *)
Lemma convert_inline_no_trigger : forall line,
  mem_char ":" line = false -> contains line "``" = false ->
  mem_char "<" line = false ->
  convert_inline line = line.
Proof.
  intros line Hc Hd Hl. unfold convert_inline, apply_rules, inline_rules.
  cbn [fold_left fst snd].
  rewrite !(re_sub_without ":"%char _ _ line) by (reflexivity || exact Hc).
  rewrite (double_backtick_without line Hd).
  apply (re_sub_without "<"%char); [reflexivity | exact Hl].
Qed.

(** The rewriter converts a line of plain spans span by span. *)
Lemma convert_inline_spans : forall pre spans,
  plain_text pre = true -> plain_spans spans = true ->
  convert_inline (pre @@ spans_source spans) = pre @@ spans_converted spans.
Proof.
  intros pre spans Hp Hs.
  destruct (plain_text_parts pre Hp) as (P1 & P2 & P3).
  destruct (spans_source_without ":" spans eq_refl
              (fun s H => proj1 (proj2 (plain_text_parts s H))) Hs) as [C1 _].
  destruct (spans_source_without "<" spans eq_refl
              (fun s H => proj2 (proj2 (plain_text_parts s H))) Hs) as [_ C2].
  assert (Hc : mem_char ":" (pre @@ spans_source spans) = false)
    by (now rewrite mem_char_app, P2, C1).
  unfold convert_inline, apply_rules, inline_rules. cbn [fold_left fst snd].
  rewrite !(re_sub_without ":"%char _ _ (pre @@ spans_source spans))
    by (reflexivity || exact Hc).
  assert (E : re_sub re_double_backtick t_code (pre @@ spans_source spans)
              = pre @@ spans_converted spans).
  { unfold re_sub. rewrite (sub_from_text _ _ _ _ P1). now rewrite sub_spans. }
  rewrite E. apply (re_sub_without "<"%char); [reflexivity|].
  now rewrite mem_char_app, P3, C2.
Qed.

Lemma contains_after_text : forall text s,
  mem_char BT text = false -> contains (text @@ s) "``" = contains s "``".
Proof.
  induction text as [|c text IH]; intros s H; [reflexivity|].
  cbn [mem_char] in H. apply orb_false_iff in H. destruct H as [Hc H].
  cbn [append contains startswith]. unfold BT in Hc. rewrite Hc. cbn [andb orb].
  apply IH, H.
Qed.

(** Converted spans that are kept apart hold no two adjacent backticks. *)
Lemma spans_converted_apart : forall spans,
  plain_spans spans = true -> separated spans = true ->
  contains (spans_converted spans) "``" = false.
Proof.
  induction spans as [|[body text] spans IH]; intros H Hs; [reflexivity|].
  cbn [plain_spans] in H. repeat (apply andb_true_iff in H; destruct H as [H ?]).
  cbn [separated] in Hs. apply andb_true_iff in Hs. destruct Hs as [Hs1 Hs2].
  destruct (plain_text_parts body H2) as (B1 & _ & _).
  destruct (plain_text_parts text H1) as (T1 & _ & _).
  cbn [spans_converted].
  change ("`" @@ body @@ "`" @@ text @@ spans_converted spans)
    with (String BT (body @@ String BT (text @@ spans_converted spans))).
  destruct body as [|c body]; [discriminate|].
  cbn [mem_char] in B1. apply orb_false_iff in B1. destruct B1 as [Bc B1].
  cbn [contains]. cbn [startswith append]. unfold BT in Bc |- *. rewrite Bc.
  cbn [andb orb].
  change (contains (String c body @@ String "`" (text @@ spans_converted spans)) "``"
          = false).
  rewrite contains_after_text
    by (cbn [mem_char]; unfold BT; rewrite Bc; exact B1).
  destruct text as [|d text].
  - destruct spans as [|p spans]; [reflexivity | discriminate].
  - cbn [mem_char] in T1. apply orb_false_iff in T1. destruct T1 as [Td T1].
    cbn [contains]. cbn [startswith append]. unfold BT in Td. rewrite Td.
    cbn [andb orb].
    change (contains (String d text @@ spans_converted spans) "``" = false).
    rewrite contains_after_text
      by (cbn [mem_char]; unfold BT; rewrite Td; exact T1).
    apply IH; assumption.
Qed.

Lemma convert_inline_spans_twice : forall pre spans,
  plain_text pre = true -> plain_spans spans = true -> separated spans = true ->
  convert_inline (convert_inline (pre @@ spans_source spans))
  = convert_inline (pre @@ spans_source spans).
Proof.
  intros pre spans Hp Hs Ha. rewrite (convert_inline_spans pre spans Hp Hs).
  destruct (plain_text_parts pre Hp) as (P1 & P2 & P3).
  destruct (spans_source_without ":" spans eq_refl
              (fun s H => proj1 (proj2 (plain_text_parts s H))) Hs) as [_ C1].
  destruct (spans_source_without "<" spans eq_refl
              (fun s H => proj2 (proj2 (plain_text_parts s H))) Hs) as [_ C2].
  apply convert_inline_no_trigger.
  - now rewrite mem_char_app, P2, C1.
  - rewrite contains_after_text by exact P1. now apply spans_converted_apart.
  - now rewrite mem_char_app, P3, C2.
Qed.

(** C6, as the code has it.  The rewriter is idempotent on every line whose
    converted form holds no colon, no two adjacent backticks and no "<".  It
    leaves every line without a backtick as it is, and its double-backtick
    rule leaves every line without two adjacent backticks as it is.  A line
    of plain text and double-backtick spans with plain bodies is converted
    span by span into single-backtick spans; when any two spans are kept
    apart by at least one character, a second pass leaves the converted line
    as it is, so these spans are not matched again. *)
Theorem C6_inline_rewriter :
  (forall line, mem_char BT line = false -> convert_inline line = line)
  /\ (forall line,
        mem_char BT line = false ->
        convert_inline (convert_inline line) = convert_inline line)
  /\ (forall line,
        contains line "``" = false -> re_sub re_double_backtick t_code line = line)
  /\ (forall line,
        mem_char ":" (convert_inline line) = false ->
        contains (convert_inline line) "``" = false ->
        mem_char "<" (convert_inline line) = false ->
        convert_inline (convert_inline line) = convert_inline line)
  /\ (forall pre spans,
        plain_text pre = true -> plain_spans spans = true ->
        convert_inline (pre @@ spans_source spans) = pre @@ spans_converted spans)
  /\ (forall pre spans,
        plain_text pre = true -> plain_spans spans = true ->
        separated spans = true ->
        convert_inline (convert_inline (pre @@ spans_source spans))
        = convert_inline (pre @@ spans_source spans))
  /\ convert_inline "Use ``code`` here" = "Use `code` here"
  /\ convert_inline (convert_inline "Use ``code`` here")
     = convert_inline "Use ``code`` here".
Proof.
  assert (Hid : forall line, mem_char BT line = false -> convert_inline line = line).
  { intros line H. unfold convert_inline.
    apply (apply_rules_without BT); [reflexivity | exact H]. }
  split; [exact Hid|]. split; [intros line H; rewrite !(Hid line H); reflexivity|].
  split; [exact double_backtick_without|].
  split; [intros line Hc Hd Hl; now apply convert_inline_no_trigger|].
  split; [exact convert_inline_spans|].
  split; [exact convert_inline_spans_twice|].
  split; vm_compute; reflexivity.
Qed.

Lemma C6_witness :
  convert_inline "See the :guilabel: menu" = "See the :guilabel: menu"
  /\ convert_inline
       (convert_inline ("Use " @@ spans_source [("iface", " and "); ("canvas", "!")]))
     = convert_inline ("Use " @@ spans_source [("iface", " and "); ("canvas", "!")]).
Proof.
  split.
  - apply (proj1 C6_inline_rewriter). vm_compute. reflexivity.
  - apply (proj1 (proj2 (proj2 (proj2 (proj2 (proj2 C6_inline_rewriter)))))
             "Use " [("iface", " and "); ("canvas", "!")]);
      vm_compute; reflexivity.
Defined.

(** The rewriter is not idempotent on every line (C6 as the specification
    words it): a second pass changes the line again, also for spans that the
    double-backtick rule itself produced, when three backticks meet, when
    spans touch, and when a role name stands before a double-backtick span. *)
Lemma C6_counterexample :
  convert_inline "```a```" = "``a``"
  /\ convert_inline (convert_inline "```a```") = "`a`"
  /\ convert_inline (convert_inline "```a```") <> convert_inline "```a```"
  /\ convert_inline "``a````b````c``" = "`a``b``c`"
  /\ convert_inline (convert_inline "``a````b````c``") = "`a`b`c`"
  /\ convert_inline ":file:``x``" = ":file:`x`"
  /\ convert_inline (convert_inline ":file:``x``") = "`x`".
Proof. repeat split; vm_compute; (reflexivity || discriminate). Qed.

(** ** Literal blocks *)

(** A line that does not start with two dots is no directive. *)
Lemma no_dots_no_match : forall r prev s,
  startswith s ".." = false -> match_here no_flags (dots ;; r) prev s = None.
Proof.
  intros r prev s H. unfold match_here.
  destruct (exec no_flags (dots ;; r) _ [] prev s) as [x|] eqn:E; [|reflexivity].
  apply exec_sound in E. destruct E as (cs' & prev' & s' & Hsem & _).
  simpl in Hsem.
  destruct Hsem as (? & ? & ? & (? & ? & ? & Hd & _) & _).
  destruct Hd as (? & ? & ? & (d1 & -> & Hd1 & _) & Hd).
  destruct Hd as (? & ? & ? & (d2 & -> & Hd2 & _) & _).
  apply Ascii.eqb_eq in Hd1, Hd2. subst. discriminate.
Qed.

Lemma no_dots_matches : forall r s,
  startswith s ".." = false -> matches (dots ;; r) s = false.
Proof.
  intros r s H. unfold matches, re_matchb, re_match.
  now rewrite no_dots_no_match.
Qed.

(** A line ending in two colons, which is neither a directive nor a title,
    belongs to the literal-block handler. *)
Lemma select_literal : forall lines i,
  endswith (strip (nth i lines EmptyString)) "::" = true ->
  startswith (strip (nth i lines EmptyString)) ".." = false ->
  is_title lines i = false ->
  select lines i = H_literal.
Proof.
  intros lines i He Hd Ht. unfold select.
  assert (M : forall r, matches (dots ;; r) (strip (nth i lines EmptyString)) = false)
    by (intros r; apply no_dots_matches, Hd).
  unfold re_testskip, re_highlight, re_only_html, re_index, re_target, re_testcode,
    re_code_block.
  rewrite !M, Ht. unfold re_match. rewrite no_dots_no_match by exact Hd.
  rewrite He, Hd. reflexivity.
Qed.

Lemma detect_lang_spec : forall content,
  detect_lang content
  = if ini_marker content && negb (code_keyword content) then "ini" else "python".
Proof.
  intros content. unfold detect_lang.
  destruct (ini_marker content), (code_keyword content); reflexivity.
Qed.

Lemma can_keyvalue : forall fl l post,
  ini_keyvalue_line l = true ->
  exists rest, can_match fl
    (Plus is_word ;; Star is_space ;; Lit "=" ;; Star is_space ;; Cls is_word)
    (l @@ post) rest.
Proof.
  intros fl [|c l] post H; [discriminate|]. unfold ini_keyvalue_line in H.
  apply andb_true_iff in H. destruct H as [Hc H].
  simpl skip_cls in H. rewrite Hc in H.
  destruct (skip_cls_decomp is_word l) as (run & El & Hrun).
  destruct (lstrip (skip_cls is_word l)) as [|e r] eqn:E1; [discriminate|].
  apply andb_true_iff in H. destruct H as [He H].
  apply Ascii.eqb_eq in He. subst e.
  destruct (lstrip r) as [|v r'] eqn:E2; [discriminate|].
  exists (r' @@ post). rewrite El. simpl. rewrite append_assoc.
  eapply can_seq.
  - apply can_plus; [apply cls_ok_of, Hc | apply all_cls_ok, Hrun].
  - apply can_blanks_then. rewrite E1. simpl.
    eapply can_seq; [apply can_lit, lit_ok_refl|].
    apply can_blanks_then. rewrite E2. simpl. apply can_cls, cls_ok_of, H.
Qed.

(** A line of one of the three INI forms is an INI marker of the body. *)
Lemma ini_line_marker : forall content l,
  In l (split NL content) ->
  ini_section_line l || ini_comment_line l || ini_keyvalue_line l = true ->
  ini_marker content = true.
Proof.
  intros content l Hl H. pose proof (split_no_nl content l Hl) as Hn.
  unfold ini_marker.
  apply orb_true_iff in H. destruct H as [H|H];
    [apply orb_true_iff in H; destruct H as [H|H]|].
  - assert (F : re_search flags_M re_ini_section content = true); [|now rewrite F].
    apply (found_at_line flags_M _ content l eq_refl Hl). intros post.
    destruct l as [|c r]; [discriminate|]. simpl in H, Hn.
    apply andb_true_iff in H. destruct H as [Hc Hb].
    apply andb_true_iff in Hn. destruct Hn as [_ Hn].
    apply Ascii.eqb_eq in Hc. subst c. apply can_bracket; assumption.
  - assert (F : re_search flags_M re_ini_comment content = true);
      [|rewrite F; now rewrite orb_true_r].
    apply (found_at_line flags_M _ content l eq_refl Hl). intros post.
    destruct (startswith_app _ _ H) as [r ->]. exists (r @@ post).
    simpl. eapply can_seq; [apply can_lit, lit_ok_refl|].
    apply (can_star flags_M is_space EmptyString). reflexivity.
  - assert (F : re_search flags_M re_ini_keyvalue content = true);
      [|rewrite F; now rewrite !orb_true_r].
    apply (found_at_line flags_M _ content l eq_refl Hl). intros post.
    apply can_keyvalue, H.
Qed.

Ltac can_alternative fl kw rest :=
  first [ exact (can_str fl kw rest)
        | apply can_alt_l; exact (can_str fl kw rest)
        | apply can_alt_r; can_alternative fl kw rest ].

(** A line that opens with a statement keyword is found by the keyword
    pattern. *)
Lemma keyword_line_found : forall content l kw,
  In l (split NL content) -> In kw code_keywords -> keyword_line kw l = true ->
  code_keyword content = true.
Proof.
  intros content l kw Hl Hkw H. unfold code_keyword.
  apply (found_at_line flags_M _ content l eq_refl Hl). intros post.
  unfold keyword_line, sig_command in H.
  apply andb_true_iff in H. destruct H as [Hs Hc].
  destruct (startswith_app _ _ Hs) as [r Er].
  rewrite Er, drop_append in Hc. destruct r as [|c r]; [discriminate|].
  exists (r @@ post). apply can_blanks_then. rewrite Er, append_assoc.
  eapply can_seq; [apply can_grp | simpl; apply can_cls, cls_ok_of, Hc].
  unfold code_keywords in Hkw. simpl in Hkw.
  repeat (destruct Hkw as [<-|Hkw]); [ | | | | | | | | | destruct Hkw];
    match goal with
    | |- can_match ?f _ (?w @@ ?rest) _ => can_alternative f w rest
    end.
Qed.

(** ** The dispatcher as selection and handler *)

Lemma step_select : forall lines i result,
  step lines i result = run_handler lines i result (select lines i).
Proof.
  intros lines i result. unfold step, select.
  repeat match goal with
  | |- context [if ?b then _ else _] =>
      match b with
      | context [if _ then _ else _] => fail 1
      | _ => destruct b
      end
  | |- context [match re_match ?f ?r ?s with _ => _ end] =>
      destruct (re_match f r s) as [[? ?]|]
  end; reflexivity.
Qed.

(** ** Loops as spans of lines *)

Lemma skipn_cons_nth : forall (lines : list string) i,
  i < List.length lines ->
  skipn i lines = nth i lines EmptyString :: skipn (S i) lines.
Proof.
  induction lines as [|l lines IH]; intros i Hi; simpl in Hi; [lia|].
  destruct i as [|i]; [reflexivity|]. simpl. apply IH. lia.
Qed.

Lemma while_idx_scan : forall (St : Type) lines (body : string -> St -> option St)
  fuel i s,
  List.length lines - i <= fuel ->
  while_idx fuel (List.length lines) (line_body lines body) i s
  = scan body (skipn i lines) i s.
Proof.
  intros St lines body. induction fuel as [|fuel IH]; intros i s Hf.
  - simpl. rewrite skipn_all2 by lia. reflexivity.
  - simpl. destruct (i <? List.length lines) eqn:E.
    + apply Nat.ltb_lt in E. rewrite (skipn_cons_nth lines i E). simpl.
      unfold line_body at 1.
      destruct (body (nth i lines EmptyString) s); [apply IH; lia | reflexivity].
    + apply Nat.ltb_ge in E. rewrite skipn_all2 by lia. reflexivity.
Qed.

Lemma while_lines_scan : forall (St : Type) lines (body : string -> St -> option St) i s,
  while_lines lines body i s = scan body (skipn i lines) i s.
Proof. intros. unfold while_lines. apply while_idx_scan. lia. Qed.

Lemma skipn_take_while : forall p ls,
  skipn (List.length (take_while p ls)) ls = drop_while p ls.
Proof.
  intros p. induction ls as [|l ls IH]; simpl; [reflexivity|].
  destruct (p l); simpl; [exact IH | reflexivity].
Qed.

Lemma take_while_all : forall p ls l, In l (take_while p ls) -> p l = true.
Proof.
  intros p. induction ls as [|x ls IH]; intros l Hl; simpl in Hl; [destruct Hl|].
  destruct (p x) eqn:E; [|destruct Hl]. destruct Hl as [<-|Hl]; auto.
Qed.

Lemma drop_while_head : forall p ls l rest,
  drop_while p ls = l :: rest -> p l = false.
Proof.
  intros p. induction ls as [|x ls IH]; intros l rest H; simpl in H; [discriminate|].
  destruct (p x) eqn:E; [eauto|]. inversion H; subst. exact E.
Qed.

Lemma scan_skip : forall (go : string -> bool) (ls : list string) i,
  scan (fun l (_ : unit) => if go l then Some tt else None) ls i tt
  = (i + List.length (take_while go ls), tt).
Proof.
  intros go. induction ls as [|l ls IH]; intros i; simpl.
  - f_equal. lia.
  - destruct (go l); simpl; [rewrite IH; f_equal; lia | f_equal; lia].
Qed.

Lemma skip_lines_spec : forall lines go i,
  skip_lines lines go i = i + List.length (take_while go (skipn i lines)).
Proof.
  intros. unfold skip_lines. rewrite while_lines_scan, scan_skip. reflexivity.
Qed.

Lemma skipn_skip_lines : forall lines go i,
  skipn (skip_lines lines go i) lines = drop_while go (skipn i lines).
Proof.
  intros. rewrite skip_lines_spec, Nat.add_comm, <- skipn_skipn.
  apply skipn_take_while.
Qed.

Lemma collect_body_in_body : forall base l acc,
  collect_body base l acc
  = if in_body base l then Some (acc ++ [dedent_line base l]) else None.
Proof.
  intros base l acc. unfold collect_body, in_body, is_blank.
  destruct (truthy (strip l)); simpl; [|reflexivity].
  destruct (Nat.ltb_spec (indent_of l) base), (Nat.leb_spec base (indent_of l));
    (reflexivity || lia).
Qed.

Lemma scan_collect : forall base ls i acc,
  scan (collect_body base) ls i acc
  = (i + List.length (take_while (in_body base) ls),
     acc ++ map (dedent_line base) (take_while (in_body base) ls)).
Proof.
  intros base. induction ls as [|l ls IH]; intros i acc; simpl.
  - rewrite app_nil_r. f_equal. lia.
  - rewrite collect_body_in_body. destruct (in_body base l); simpl.
    + rewrite IH, <- app_assoc. f_equal. lia.
    + rewrite app_nil_r. f_equal. lia.
Qed.

Lemma collect_code_spec : forall lines base i acc,
  collect_code lines base i acc
  = (i + List.length (take_while (in_body base) (skipn i lines)),
     acc ++ map (dedent_line base) (take_while (in_body base) (skipn i lines))).
Proof. intros. unfold collect_code. rewrite while_lines_scan. apply scan_collect. Qed.

(** ** Indentation *)

Lemma length_lstrip : forall l, String.length (lstrip l) <= String.length l.
Proof.
  induction l as [|c l IH]; simpl; [lia|]. destruct (is_space c); simpl; lia.
Qed.

(** A line that is not blank is longer than its indentation. *)
Lemma nonblank_indent : forall l,
  is_blank l = false ->
  indent_of l = raw_indent l /\ raw_indent l < String.length l.
Proof.
  intros l H. unfold is_blank in H. apply negb_false_iff in H.
  unfold indent_of, raw_indent. rewrite H. split; [reflexivity|].
  pose proof (length_lstrip l).
  assert (lstrip l <> EmptyString).
  { intros E. unfold strip in H. rewrite E in H. discriminate. }
  destruct (lstrip l); [congruence|]. simpl in *. lia.
Qed.

Lemma dedent_in_body : forall base l,
  in_body base l = true -> dedent_line base l = without_indent base l.
Proof.
  intros base l H. unfold dedent_line, without_indent.
  destruct (is_blank l) eqn:E.
  - unfold is_blank in E. apply negb_true_iff in E. now rewrite E.
  - pose proof (nonblank_indent l E) as [H1 H2].
    unfold in_body in H. rewrite E in H. simpl in H. apply Nat.leb_le in H.
    unfold is_blank in E. apply negb_false_iff in E. rewrite E.
    destruct (Nat.ltb_spec base (String.length l)); [reflexivity | lia].
Qed.



(** ** Trailing blank lines *)

Lemma pop_while_app : forall p a b,
  pop_while p (a ++ b)
  = match pop_while p b with
    | [] => pop_while p a
    | r => a ++ r
    end.
Proof.
  intros p. induction a as [|x a IH]; intros b; simpl.
  - destruct (pop_while p b); reflexivity.
  - rewrite IH. destruct (pop_while p b) as [|y r].
    + reflexivity.
    + destruct (a ++ y :: r) eqn:E; [|reflexivity].
      destruct a; discriminate.
Qed.

Lemma pop_while_keep : forall p a x,
  p x = false -> pop_while p (a ++ [x]) = a ++ [x].
Proof. intros p a x H. rewrite pop_while_app. simpl. now rewrite H. Qed.

(** Popping blank lines after a fence line stops at the fence. *)
Lemma pop_while_after : forall p a x b,
  p x = false -> pop_while p ((a ++ [x]) ++ b) = (a ++ [x]) ++ pop_while p b.
Proof.
  intros p a x b H. rewrite pop_while_app.
  destruct (pop_while p b); [|reflexivity].
  rewrite app_nil_r. apply pop_while_keep, H.
Qed.

Lemma pop_while_ext : forall p q xs,
  (forall x, p x = q x) -> pop_while p xs = pop_while q xs.
Proof.
  intros p q xs H. induction xs as [|x xs IH]; simpl; [reflexivity|].
  now rewrite IH, H.
Qed.

Lemma fence_not_blank : forall lang, is_blank ("```" @@ lang) = false.
Proof.
  intros lang. unfold is_blank. simpl append.
  destruct (strip_head BT (String BT (String BT lang)) eq_refl) as [r Hr].
  unfold BT in Hr. rewrite Hr. reflexivity.
Qed.

Lemma pop_while_fence : forall result lang body,
  pop_while is_blank ((result ++ [EmptyString; "```" @@ lang]) ++ body)
  = result ++ [EmptyString; "```" @@ lang] ++ pop_while is_blank body.
Proof.
  intros result lang body.
  pose proof (pop_while_after is_blank (result ++ [EmptyString]) ("```" @@ lang) body
                (fence_not_blank lang)) as H.
  rewrite <- !app_assoc in H. rewrite <- !app_assoc. exact H.
Qed.

(** The guard of the testcode handler changes nothing: the fence line is
    not blank. *)
Lemma testcode_pop_guard : forall l,
  is_blank l && negb (String.eqb l "```python") = is_blank l.
Proof.
  intros l. destruct (String.eqb l "```python") eqn:E.
  - apply String.eqb_eq in E. subst l. reflexivity.
  - now rewrite andb_true_r.
Qed.

Lemma base_indent_at_spec : forall lines j,
  (forall l rest, skipn j lines = l :: rest -> is_blank l = false) ->
  base_indent_at lines j = body_base (skipn j lines).
Proof.
  intros lines j H. unfold base_indent_at.
  destruct (Nat.ltb_spec j (List.length lines)) as [Hj|Hj].
  - rewrite (skipn_cons_nth lines j Hj) in *. simpl.
    specialize (H _ _ eq_refl). unfold is_blank in H.
    apply negb_false_iff in H. now rewrite H.
  - rewrite skipn_all2 by lia. reflexivity.
Qed.

(** What the two code handlers have in common: the fence, the collected
    body without its base indentation and trailing blank lines, and the
    cursor after the body. *)
Lemma code_body_spec : forall lines j result lang (go : string -> bool),
  (forall l, go l = false -> is_blank l = false) ->
  let rest := drop_while go (skipn j lines) in
  let base := body_base rest in
  let raw := take_while (in_body base) rest in
  forall cc,
    cc = collect_code lines (base_indent_at lines (skip_lines lines go j))
           (skip_lines lines go j) (result ++ [EmptyString; "```" @@ lang]) ->
    fst cc = j + List.length (take_while go (skipn j lines)) + List.length raw
    /\ pop_while is_blank (snd cc)
       = result ++ [EmptyString; "```" @@ lang]
           ++ pop_while is_blank (map (without_indent base) raw).
Proof.
  intros lines j result lang go Hgo rest base raw cc Hcc.
  rewrite collect_code_spec, skipn_skip_lines in Hcc.
  rewrite base_indent_at_spec in Hcc.
  2:{ rewrite skipn_skip_lines. intros l r E. apply Hgo.
      apply (drop_while_head go _ _ _ E). }
  rewrite skipn_skip_lines in Hcc. fold rest base raw in Hcc. subst cc. simpl.
  split; [rewrite skip_lines_spec; reflexivity|].
  replace (map (dedent_line base) raw) with (map (without_indent base) raw).
  2:{ apply map_ext_in. intros l Hl. symmetry. apply dedent_in_body.
      apply (take_while_all _ _ _ Hl). }
  apply pop_while_fence.
Qed.

Lemma pop_while_spec : forall p xs,
  exists tail,
    xs = pop_while p xs ++ tail /\ forallb p tail = true
    /\ (pop_while p xs = [] \/ p (last (pop_while p xs) EmptyString) = false).
Proof.
  intros p. induction xs as [|x xs (tail & E & Ht & Hl)]; simpl.
  - exists []. auto.
  - destruct (pop_while p xs) as [|y r] eqn:Ep.
    + destruct (p x) eqn:Ex.
      * exists (x :: tail). simpl in *. rewrite Ex, Ht. subst xs. auto.
      * exists tail. simpl in *. subst xs. auto.
    + exists tail. repeat split; auto.
      * simpl. now rewrite E at 1.
      * right. destruct Hl as [Hl|Hl]; [discriminate|]. exact Hl.
Qed.

Lemma h_code_block_spec : forall lines i result lang,
  let rest := drop_while blank_or_option (skipn (S i) lines) in
  let base := body_base rest in
  let raw := take_while (in_body base) rest in
  h_code_block lines i result lang
  = (S i + List.length (take_while blank_or_option (skipn (S i) lines))
     + List.length raw,
     result ++ [EmptyString; "```" @@ lang]
       ++ pop_while is_blank (map (without_indent base) raw) ++ ["```"; EmptyString]).
Proof.
  intros lines i result lang rest base raw. unfold h_code_block.
  change (fun l : string => is_blank l || startswith (strip l) ":")
    with blank_or_option.
  assert (Hgo : forall l, blank_or_option l = false -> is_blank l = false).
  { intros l H. unfold blank_or_option in H. apply orb_false_iff in H. tauto. }
  destruct (code_body_spec lines (S i) result lang blank_or_option Hgo _ eq_refl)
    as [H1 H2].
  destruct (collect_code lines _ _ _) as [k r]. simpl in H1, H2.
  fold rest base raw in H1, H2. rewrite H1, H2, <- !app_assoc. reflexivity.
Qed.

Lemma h_testcode_spec : forall lines i result,
  let rest := drop_while is_blank (skipn (S i) lines) in
  let base := body_base rest in
  let raw := take_while (in_body base) rest in
  h_testcode lines i result
  = (S i + List.length (take_while is_blank (skipn (S i) lines)) + List.length raw,
     result ++ [EmptyString; "```python"]
       ++ pop_while is_blank (map (without_indent base) raw) ++ ["```"; EmptyString]).
Proof.
  intros lines i result rest base raw. unfold h_testcode.
  destruct (code_body_spec lines (S i) result "python" is_blank
              (fun l H => H) _ eq_refl) as [H1 H2].
  change ("```" @@ "python") with "```python" in *.
  destruct (collect_code lines _ _ _) as [k r]. simpl in H1, H2.
  fold rest base raw in H1, H2.
  rewrite (pop_while_ext _ is_blank r testcode_pop_guard).
  rewrite H1, H2, <- !app_assoc. reflexivity.
Qed.





(** ** Titles *)

Lemma all_same_run : forall c s,
  all_chars (Ascii.eqb c) s = true -> s = run_of c (String.length s).
Proof.
  intros c. induction s as [|d s IH]; simpl; intros H; [reflexivity|].
  apply andb_true_iff in H. destruct H as [Hd Hs].
  apply Ascii.eqb_eq in Hd. subst d. f_equal. apply IH, Hs.
Qed.

Lemma run_all_same : forall c n, all_chars (Ascii.eqb c) (run_of c n) = true.
Proof. intros c. induction n as [|n IH]; simpl; [|rewrite Ascii.eqb_refl]; auto. Qed.

Lemma length_run_of : forall c n, String.length (run_of c n) = n.
Proof. intros c. induction n as [|n IH]; simpl; auto. Qed.

(** An underline is a run of three or more of one of the title characters. *)
Lemma is_underline_spec : forall u,
  is_underline u = true
  <-> exists c n, mem_char c underline_chars = true /\ 3 <= n /\ u = run_of c n.
Proof.
  intros u. unfold is_underline. split.
  - intros H. apply andb_true_iff in H. destruct H as [H Hlen].
    apply andb_true_iff in H. destruct H as [Hone Hmem].
    destruct u as [|c s]; [discriminate|]. simpl in Hone, Hmem.
    apply Nat.leb_le in Hlen. exists c, (S (String.length s)).
    repeat split; auto. simpl. f_equal. apply all_same_run, Hone.
  - intros (c & n & Hmem & Hn & ->).
    destruct n as [|n]; [lia|]. simpl one_char_set. simpl head_char.
    rewrite run_all_same, Hmem, length_run_of. cbn [andb].
    apply Nat.leb_le. exact Hn.
Qed.

Lemma is_title_spec : forall lines i,
  is_title lines i = true
  <-> i + 1 < List.length lines
      /\ strip (nth i lines EmptyString) <> EmptyString
      /\ exists c n,
           mem_char c underline_chars = true /\ 3 <= n
           /\ strip (nth (i + 1) lines EmptyString) = run_of c n.
Proof.
  intros lines i. unfold is_title. split.
  - intros H. repeat (apply andb_true_iff in H; destruct H as [H ?]).
    apply Nat.ltb_lt in H. repeat split; auto.
    + now apply truthy_true.
    + now apply is_underline_spec.
  - intros (H1 & H2 & H3). pose proof H3 as (c & n & _ & Hn & E).
    apply is_underline_spec in H3. apply Nat.ltb_lt in H1. apply truthy_true in H2.
    rewrite H1, H2, H3, E. destruct n; [lia | reflexivity].
Qed.

Lemma has_overline_spec : forall result c,
  has_overline result c = true
  <-> result <> []
      /\ exists n, 0 < n /\ strip (last result EmptyString) = run_of c n.
Proof.
  intros result c. unfold has_overline. split.
  - intros H. destruct result as [|x result]; [discriminate|].
    split; [discriminate|].
    apply andb_true_iff in H. destruct H as [H Hc].
    apply andb_true_iff in H. destruct H as [_ Hone].
    destruct (strip (last (x :: result) EmptyString)) as [|d s]; [discriminate|].
    simpl in Hone, Hc. apply Ascii.eqb_eq in Hc. subst d.
    exists (S (String.length s)). split; [lia|]. simpl. f_equal.
    apply all_same_run, Hone.
  - intros (Hne & n & Hn & E). destruct result as [|x result]; [congruence|].
    rewrite E. destruct n as [|n]; [lia|]. simpl.
    now rewrite run_all_same, Ascii.eqb_refl.
Qed.

Lemma select_title : forall lines i,
  select lines i = H_title
  <-> matches re_testskip (strip (nth i lines EmptyString)) = false
      /\ matches re_highlight (strip (nth i lines EmptyString)) = false
      /\ matches re_only_html (strip (nth i lines EmptyString)) = false
      /\ matches re_index (strip (nth i lines EmptyString)) = false
      /\ matches re_target (strip (nth i lines EmptyString)) = false
      /\ is_title lines i = true.
Proof.
  intros lines i. unfold select. split.
  - intros H.
    repeat match type of H with
    | (if ?b then _ else _) = _ => destruct b eqn:?; try discriminate
    end.
    + auto 10.
    + repeat match type of H with
      | (if ?b then _ else _) = _ => destruct b; try discriminate
      | match ?m with _ => _ end = _ => destruct m as [[? ?]|]; try discriminate
      end.
  - intros (H1 & H2 & H3 & H4 & H5 & H6).
    now rewrite H1, H2, H3, H4, H5, H6.
Qed.

Lemma level_map_default : forall c,
  mem_char c "*=-~+^" = false -> level_map c = 2.
Proof.
  intros c H. simpl in H. unfold level_map.
  repeat (apply orb_false_iff in H; destruct H as [? H]).
  repeat match goal with E : Ascii.eqb c _ = false |- _ => rewrite E; clear E end.
  reflexivity.
Qed.

(** C3, as the code has it.  The dispatcher gives a line to the title
    handler exactly when the line matches none of the five skip patterns
    (testsetup/testcleanup/testoutput, highlight, only html, index, target
    definition), is not blank, and the next line, stripped, is a run of
    three or more of one title character.  The handler then passes both
    lines and appends a blank line, the heading and a blank line; the
    heading has the level of the fixed map, 2 for the other title
    characters; but when the last output line, stripped, is a run of the
    same character, that line is taken back and the level is 1. *)
Theorem C3_title_heading :
  (forall lines i result,
     select lines i = H_title ->
     let title := strip (nth i lines EmptyString) in
     let c := head_char (strip (nth (i + 1) lines EmptyString)) in
     step lines i result
     = (i + 2,
        (if has_overline result c then removelast result else result)
          ++ [EmptyString;
              repeat_str "#" (if has_overline result c then 1 else level_map c)
                @@ " " @@ title;
              EmptyString]))
  /\ (forall lines i,
        select lines i = H_title
        <-> matches re_testskip (strip (nth i lines EmptyString)) = false
            /\ matches re_highlight (strip (nth i lines EmptyString)) = false
            /\ matches re_only_html (strip (nth i lines EmptyString)) = false
            /\ matches re_index (strip (nth i lines EmptyString)) = false
            /\ matches re_target (strip (nth i lines EmptyString)) = false
            /\ is_title lines i = true)
  /\ (forall lines i,
        is_title lines i = true
        <-> i + 1 < List.length lines
            /\ strip (nth i lines EmptyString) <> EmptyString
            /\ exists c n,
                 mem_char c underline_chars = true /\ 3 <= n
                 /\ strip (nth (i + 1) lines EmptyString) = run_of c n)
  /\ (forall result c,
        has_overline result c = true
        <-> result <> []
            /\ exists n, 0 < n /\ strip (last result EmptyString) = run_of c n)
  /\ (level_map "*" = 1 /\ level_map "=" = 2 /\ level_map "-" = 3
      /\ level_map "~" = 4 /\ level_map "+" = 5 /\ level_map "^" = 6
      /\ forall c, mem_char c "*=-~+^" = false -> level_map c = 2)
  /\ rst_to_markdown (join NLs ["Title"; "====="]) = "## Title"
  /\ rst_to_markdown (join NLs ["*****"; "Title"; "*****"]) = "# Title".
Proof.
  split.
  { intros lines i result H. rewrite step_select, H. reflexivity. }
  split; [exact select_title|].
  split; [exact is_title_spec|].
  split; [exact has_overline_spec|].
  split.
  { repeat split; try reflexivity. exact level_map_default. }
  split; vm_compute; reflexivity.
Qed.

Lemma C3_witness :
  step ["Intro"; "~~~"; "Title"; "~~~~~"; "Text"] 2 ["Intro"; "~~~"]
  = (4, ["Intro"; EmptyString; "# Title"; EmptyString]).
Proof.
  apply (proj1 C3_title_heading ["Intro"; "~~~"; "Title"; "~~~~~"; "Text"] 2
           ["Intro"; "~~~"]).
  vm_compute. reflexivity.
Defined.

(** Not every underlined line becomes a heading (C3 as the specification
    words it): a target definition followed by an underline is passed over
    and no heading is written; and a title inside the body of a code block
    stays code. *)
Lemma C3_counterexample :
  is_blank ".. _intro:" = false
  /\ is_underline "=====" = true
  /\ transpile_lines [".. _intro:"; "====="] = ["====="]
  /\ rst_to_markdown (join NLs [".. _intro:"; "====="]) = "====="
  /\ rst_to_markdown
       (join NLs [".. code-block:: text"; EmptyString; "    Name"; "    ===="])
     = join NLs ["```text"; "Name"; "===="; "```"].
Proof. repeat split; vm_compute; reflexivity. Qed.

(** ** The literal-block handler *)

Lemma skipn_head : forall (lines : list string) j l rest,
  skipn j lines = l :: rest ->
  j < List.length lines /\ nth j lines EmptyString = l.
Proof.
  intros lines j l rest H.
  destruct (Nat.ltb_spec j (List.length lines)) as [Hj|Hj].
  - rewrite (skipn_cons_nth lines j Hj) in H. inversion H. auto.
  - rewrite skipn_all2 in H by lia. discriminate.
Qed.

Lemma h_literal_spec : forall lines i result l rest,
  drop_while is_blank (skipn (S i) lines) = l :: rest ->
  startswith l "  " || startswith l (String TAB EmptyString) = true ->
  let stripped := strip (nth i lines EmptyString) in
  let prefix := rstrip (take (String.length stripped - 2) stripped) in
  let base := raw_indent l in
  let raw := take_while (in_body base) (l :: rest) in
  let body := pop_while is_blank (map (without_indent base) raw) in
  h_literal lines i result
  = (S i + List.length (take_while is_blank (skipn (S i) lines)) + List.length raw,
     (if truthy prefix then result ++ [prefix @@ ":"] else result)
       ++ [EmptyString; "```" @@ detect_lang (join NLs body)]
       ++ body ++ ["```"; EmptyString]).
Proof.
  intros lines i result l rest Hrest Hind stripped prefix base raw body.
  unfold h_literal. fold stripped. fold prefix.
  rewrite <- skipn_skip_lines in Hrest.
  destruct (skipn_head _ _ _ _ Hrest) as [Hj Hl].
  apply Nat.ltb_lt in Hj. rewrite Hj, Hl, Hind. cbn [andb].
  rewrite collect_code_spec, Hrest. fold base. fold raw.
  cbn [app].
  replace (map (dedent_line base) raw) with (map (without_indent base) raw).
  2:{ apply map_ext_in. intros x Hx. symmetry. apply dedent_in_body.
      apply (take_while_all _ _ _ Hx). }
  fold body. rewrite skip_lines_spec. reflexivity.
Qed.

(** C5.  When the dispatcher gives a line to the literal-block handler and
    an indented line follows the blank lines after it, the handler emits the
    body in a fence whose tag is found from the body: [ini] exactly when the
    body has an INI marker and no code keyword, [python] in every other case,
    so that a keyword keeps the tag [python] whatever the markers.  A body
    line that is a section header, a semicolon comment or a key and value is
    an INI marker; a body line opening with one of the nine statement
    keywords followed by a blank is a code keyword.  The body [[server]],
    [host = localhost] is tagged [ini]; the body [def f():], [pass] is tagged
    [python]. *)
Theorem C5_literal_block_language :
  (forall lines i result l rest,
     select lines i = H_literal ->
     drop_while is_blank (skipn (S i) lines) = l :: rest ->
     startswith l "  " || startswith l (String TAB EmptyString) = true ->
     let stripped := strip (nth i lines EmptyString) in
     let prefix := rstrip (take (String.length stripped - 2) stripped) in
     let base := raw_indent l in
     let raw := take_while (in_body base) (l :: rest) in
     let body := pop_while is_blank (map (without_indent base) raw) in
     step lines i result
     = (S i + List.length (take_while is_blank (skipn (S i) lines)) + List.length raw,
        (if truthy prefix then result ++ [prefix @@ ":"] else result)
          ++ [EmptyString;
              "```" @@ (if ini_marker (join NLs body)
                           && negb (code_keyword (join NLs body))
                        then "ini" else "python")]
          ++ body ++ ["```"; EmptyString]))
  /\ (forall lines i,
        endswith (strip (nth i lines EmptyString)) "::" = true ->
        startswith (strip (nth i lines EmptyString)) ".." = false ->
        is_title lines i = false ->
        select lines i = H_literal)
  /\ (forall content,
        detect_lang content = "ini"
        <-> ini_marker content = true /\ code_keyword content = false)
  /\ (forall content, detect_lang content <> "ini" -> detect_lang content = "python")
  /\ (forall content, code_keyword content = true -> detect_lang content = "python")
  /\ (forall content l,
        In l (split NL content) ->
        ini_section_line l || ini_comment_line l || ini_keyvalue_line l = true ->
        ini_marker content = true)
  /\ (forall content l kw,
        In l (split NL content) -> In kw code_keywords -> keyword_line kw l = true ->
        code_keyword content = true)
  /\ detect_lang (join NLs ["[server]"; "host = localhost"]) = "ini"
  /\ detect_lang (join NLs ["def f():"; "    pass"]) = "python"
  /\ rst_to_markdown
       (join NLs ["Settings::"; EmptyString; "  [server]"; "  host = localhost"])
     = join NLs ["Settings:"; EmptyString; "```ini"; "[server]"; "host = localhost";
                 "```"]
  /\ rst_to_markdown
       (join NLs ["Example::"; EmptyString; "  def f():"; "      pass"])
     = join NLs ["Example:"; EmptyString; "```python"; "def f():"; "    pass"; "```"].
Proof.
  split.
  { intros lines i result l rest H Hrest Hind stripped prefix base raw body.
    rewrite step_select, H. cbn [run_handler].
    rewrite (h_literal_spec lines i result l rest Hrest Hind).
    fold stripped prefix base raw body. rewrite detect_lang_spec. reflexivity. }
  split; [exact select_literal|].
  split.
  { intros content. rewrite detect_lang_spec.
    destruct (ini_marker content), (code_keyword content); simpl;
      split; (discriminate || tauto || intros [? ?]; discriminate). }
  split.
  { intros content. rewrite detect_lang_spec.
    destruct (ini_marker content && negb (code_keyword content)); congruence. }
  split.
  { intros content H. rewrite detect_lang_spec, H, andb_false_r. reflexivity. }
  split; [exact ini_line_marker|].
  split; [exact keyword_line_found|].
  repeat split; vm_compute; reflexivity.
Qed.

Lemma C5_witness :
  step ["Settings::"; EmptyString; "  [server]"; "  host = localhost";
        EmptyString; "After"] 0 []
  = (5, ["Settings:"; EmptyString; "```ini"; "[server]"; "host = localhost";
         "```"; EmptyString]).
Proof.
  apply (proj1 C5_literal_block_language
           ["Settings::"; EmptyString; "  [server]"; "  host = localhost";
            EmptyString; "After"] 0 [] "  [server]"
           ["  host = localhost"; EmptyString; "After"]);
    vm_compute; reflexivity.
Defined.

(** A line ending in two colons over an indented body need not give a fence
    (C5 as the specification words it): a body indented by one space fails
    the handler's test for two spaces, so the line loses a colon and the body
    stays plain text without any tag; and over an indented underline the line
    is a title, which the dispatcher tries first. *)
Lemma C5_counterexample :
  select ["Settings::"; EmptyString; " [server]"; " host = localhost"] 0 = H_literal
  /\ step ["Settings::"; EmptyString; " [server]"; " host = localhost"] 0 []
     = (2, ["Settings:"])
  /\ rst_to_markdown
       (join NLs ["Settings::"; EmptyString; " [server]"; " host = localhost"])
     = join NLs ["Settings:"; " [server]"; " host = localhost"]
  /\ contains
       (rst_to_markdown
          (join NLs ["Settings::"; EmptyString; " [server]"; " host = localhost"]))
       "```" = false
  /\ select ["Example::"; "  ===="; "  x = 1"] 0 = H_title
  /\ rst_to_markdown (join NLs ["Example::"; "  ===="; "  x = 1"])
     = join NLs ["## Example::"; EmptyString; "  x = 1"].
Proof. repeat split; vm_compute; reflexivity. Qed.

(** * Further properties of the code *)

(** ** The assembler *)

Lemma assemble_clean_lines : forall result,
  assemble result = join NLs (clean_lines result).
Proof. reflexivity. Qed.

Lemma pop0_drop_while : forall p xs, pop0_while p xs = drop_while p xs.
Proof. intros p. induction xs as [|x xs IH]; simpl; [|rewrite IH]; reflexivity. Qed.

Lemma no_blank_run_cons : forall x y ys,
  no_blank_run (x :: y :: ys)
  = negb (is_blank x && is_blank y) && no_blank_run (y :: ys).
Proof. reflexivity. Qed.

(** After a blank line the collapsed lines start with a line that is not
    blank, and no two blank lines are left side by side. *)
Lemma collapse_no_blank_run : forall result prev_empty,
  no_blank_run (collapse_blank result prev_empty) = true
  /\ (prev_empty = true ->
      forall x xs, collapse_blank result prev_empty = x :: xs -> is_blank x = false).
Proof.
  induction result as [|line rest IH]; intros prev_empty.
  - split; [reflexivity | discriminate].
  - cbn [collapse_blank]. cbv zeta.
    destruct (is_blank line) eqn:El; destruct prev_empty; cbn [andb].
    + destruct (IH true) as [H1 H2]. split; [exact H1 | intros _; apply H2; reflexivity].
    + destruct (IH true) as [H1 H2]. split; [|discriminate].
      destruct (collapse_blank rest true) as [|y ys] eqn:E; [reflexivity|].
      rewrite no_blank_run_cons, H1, (H2 eq_refl y ys eq_refl), andb_false_r.
      reflexivity.
    + destruct (IH false) as [H1 _]. split.
      * destruct (collapse_blank rest false) as [|y ys]; [reflexivity|].
        rewrite no_blank_run_cons, H1, El. reflexivity.
      * intros _ x xs E. inversion E; subst. exact El.
    + destruct (IH false) as [H1 _]. split; [|discriminate].
      destruct (collapse_blank rest false) as [|y ys]; [reflexivity|].
      rewrite no_blank_run_cons, H1, El. reflexivity.
Qed.

Lemma no_blank_run_tail : forall x xs, no_blank_run (x :: xs) = true -> no_blank_run xs = true.
Proof.
  intros x [|y ys] H; [reflexivity|].
  rewrite no_blank_run_cons in H. apply andb_true_iff in H. tauto.
Qed.

Lemma no_blank_run_drop : forall p xs,
  no_blank_run xs = true -> no_blank_run (drop_while p xs) = true.
Proof.
  intros p. induction xs as [|x xs IH]; intros H; simpl; [reflexivity|].
  destruct (p x); [apply IH, (no_blank_run_tail x), H | exact H].
Qed.

Lemma no_blank_run_prefix : forall a b,
  no_blank_run (a ++ b) = true -> no_blank_run a = true.
Proof.
  induction a as [|x a IH]; intros b H; [reflexivity|].
  destruct a as [|y a]; [reflexivity|].
  simpl app in *. rewrite no_blank_run_cons in *.
  apply andb_true_iff in H. destruct H as [H1 H2].
  rewrite H1. apply (IH b H2).
Qed.

Lemma no_blank_run_pop : forall p xs,
  no_blank_run xs = true -> no_blank_run (pop_while p xs) = true.
Proof.
  intros p xs H. destruct (pop_while_spec p xs) as (tail & E & _).
  rewrite E in H. apply (no_blank_run_prefix _ _ H).
Qed.

Lemma pop_while_head : forall p x xs y ys,
  pop_while p (x :: xs) = y :: ys -> y = x.
Proof.
  intros p x xs y ys H. simpl in H.
  destruct (pop_while p xs); [destruct (p x)|]; congruence.
Qed.

Lemma filter_collapse : forall result prev_empty,
  filter not_blank (collapse_blank result prev_empty) = filter not_blank result.
Proof.
  unfold not_blank.
  induction result as [|line rest IH]; intros prev_empty; [reflexivity|].
  cbn [collapse_blank filter]. cbv zeta.
  destruct (is_blank line) eqn:El; destruct prev_empty; cbn [andb negb filter];
    rewrite ?El; cbn [negb]; rewrite IH; reflexivity.
Qed.

Lemma filter_drop_blank : forall xs,
  filter not_blank (drop_while is_blank xs) = filter not_blank xs.
Proof.
  unfold not_blank.
  induction xs as [|x xs IH]; [reflexivity|]. cbn [drop_while filter].
  destruct (is_blank x) eqn:E; cbn [negb]; [exact IH|].
  cbn [filter]. rewrite E. reflexivity.
Qed.

Lemma filter_all_blank : forall tail,
  forallb is_blank tail = true -> filter not_blank tail = [].
Proof.
  unfold not_blank.
  induction tail as [|x tail IH]; intros H; [reflexivity|]. simpl in *.
  apply andb_true_iff in H. destruct H as [Hx Ht].
  rewrite Hx. simpl. apply IH, Ht.
Qed.

Lemma filter_pop_blank : forall xs,
  filter not_blank (pop_while is_blank xs) = filter not_blank xs.
Proof.
  intros xs. destruct (pop_while_spec is_blank xs) as (tail & E & Ht & _).
  rewrite E at 2. rewrite filter_app, (filter_all_blank tail Ht), app_nil_r.
  reflexivity.
Qed.

Lemma clean_lines_no_blank_run : forall result,
  no_blank_run (clean_lines result) = true.
Proof.
  intros result. unfold clean_lines. rewrite pop0_drop_while.
  apply no_blank_run_pop, no_blank_run_drop, collapse_no_blank_run.
Qed.

Lemma clean_lines_ends : forall result x xs,
  clean_lines result = x :: xs ->
  is_blank x = false /\ is_blank (last (x :: xs) EmptyString) = false.
Proof.
  intros result x xs H. unfold clean_lines in H. rewrite pop0_drop_while in H.
  split.
  - destruct (drop_while is_blank (collapse_blank result false)) as [|y ys] eqn:E;
      [discriminate|].
    rewrite (pop_while_head _ _ _ _ _ H). apply (drop_while_head _ _ _ _ E).
  - destruct (pop_while_spec is_blank
                (drop_while is_blank (collapse_blank result false)))
      as (tail & _ & _ & [Hn|Hl]); rewrite H in *; [discriminate | exact Hl].
Qed.

Lemma collapse_fixed : forall xs prev_empty,
  no_blank_run xs = true ->
  (prev_empty = true -> forall x xs', xs = x :: xs' -> is_blank x = false) ->
  collapse_blank xs prev_empty = xs.
Proof.
  induction xs as [|x xs IH]; intros prev_empty Hrun Hhead; [reflexivity|].
  cbn [collapse_blank]. cbv zeta.
  assert (E : is_blank x && prev_empty = false).
  { destruct prev_empty; [|apply andb_false_r].
    rewrite (Hhead eq_refl x xs eq_refl). reflexivity. }
  rewrite E. f_equal. apply IH; [apply (no_blank_run_tail x), Hrun|].
  intros Hx y ys ->. rewrite no_blank_run_cons, Hx in Hrun.
  destruct (is_blank y); [discriminate | reflexivity].
Qed.

Lemma pop_while_last : forall p xs,
  xs <> [] -> p (last xs EmptyString) = false -> pop_while p xs = xs.
Proof.
  intros p xs Hne Hl. destruct (exists_last Hne) as (a & x & ->).
  rewrite last_last in Hl. apply pop_while_keep, Hl.
Qed.

(** A buffer that is already clean is left as it is. *)
Lemma clean_lines_fixed : forall xs,
  no_blank_run xs = true ->
  (forall x xs', xs = x :: xs' ->
     is_blank x = false /\ is_blank (last xs EmptyString) = false) ->
  clean_lines xs = xs.
Proof.
  intros xs Hrun Hends. unfold clean_lines.
  rewrite collapse_fixed by (auto; discriminate).
  destruct xs as [|x xs']; [reflexivity|].
  destruct (Hends x xs' eq_refl) as [Hx Hl].
  cbn [pop0_while]. rewrite Hx.
  apply pop_while_last; [discriminate | exact Hl].
Qed.

(** X2.  When the assembler leaves any line at all, the first and the last
    line it leaves are not blank. *)
Theorem X2_assembler_trims_ends : forall result x xs,
  clean_lines result = x :: xs ->
  is_blank x = false /\ is_blank (last (x :: xs) EmptyString) = false.
Proof. exact clean_lines_ends. Qed.

Lemma X2_witness :
  is_blank "a" = false /\ is_blank (last ["a"; "   "; "b"] EmptyString) = false.
Proof.
  apply (X2_assembler_trims_ends
           [EmptyString; "  "; "a"; "   "; EmptyString; "b"; EmptyString]).
  vm_compute. reflexivity.
Defined.

(** X3.  The assembler removes blank lines only: the lines that are not
    blank are kept, all of them and in their order. *)
Theorem X3_assembler_keeps_text : forall result,
  filter not_blank (clean_lines result) = filter not_blank result.
Proof.
  intros result. unfold clean_lines.
  rewrite filter_pop_blank, pop0_drop_while, filter_drop_blank.
  apply filter_collapse.
Qed.

(** X4.  Cleaning is idempotent: a second pass of the assembler changes
    nothing, and a buffer without blank runs whose first and last lines are
    not blank is left as it is. *)
Theorem X4_assembler_idempotent :
  (forall result, clean_lines (clean_lines result) = clean_lines result)
  /\ (forall xs,
        no_blank_run xs = true ->
        (forall x xs', xs = x :: xs' ->
           is_blank x = false /\ is_blank (last xs EmptyString) = false) ->
        clean_lines xs = xs).
Proof.
  split; [|exact clean_lines_fixed].
  intros result. apply clean_lines_fixed.
  - apply clean_lines_no_blank_run.
  - intros x xs' E. rewrite E. apply (clean_lines_ends result x xs' E).
Qed.

Lemma X4_witness : clean_lines ["# T"; EmptyString; "text"] = ["# T"; EmptyString; "text"].
Proof.
  apply (proj2 X4_assembler_idempotent); [reflexivity|].
  intros x xs' E. inversion E. split; reflexivity.
Defined.

(** ** Tabs *)

Lemma repeat_space_no : forall c n,
  c <> " "%char -> mem_char c (repeat_str " " n) = false.
Proof.
  intros c n Hc. induction n as [|n IH]; [reflexivity|]. simpl.
  rewrite IH, orb_false_r. apply Ascii.eqb_neq. exact Hc.
Qed.

Lemma expandtabs_no_tab : forall tab_size s col,
  mem_char TAB (expandtabs_from tab_size col s) = false.
Proof.
  intros tab_size. induction s as [|c s IH]; intros col; [reflexivity|].
  cbn [expandtabs_from]. destruct (Ascii.eqb c TAB) eqn:Ec.
  - destruct (0 <? tab_size); [|apply IH].
    rewrite mem_char_app, IH, orb_false_r. apply repeat_space_no. discriminate.
  - cbn [mem_char]. rewrite IH, orb_false_r, Ascii.eqb_sym. exact Ec.
Qed.

Lemma expandtabs_unchanged : forall tab_size s col,
  mem_char TAB s = false -> expandtabs_from tab_size col s = s.
Proof.
  intros tab_size. induction s as [|c s IH]; intros col H; [reflexivity|].
  cbn [mem_char] in H. apply orb_false_iff in H. destruct H as [Hc Hs].
  cbn [expandtabs_from]. rewrite Ascii.eqb_sym, Hc. f_equal. apply IH, Hs.
Qed.

Lemma split_prepend : forall a b,
  mem_char NL a = false ->
  split NL (a @@ b)
  = match split NL b with
    | h :: t => (a @@ h) :: t
    | [] => []
    end.
Proof.
  induction a as [|c a IH]; intros b H.
  - simpl. destruct (split NL b); reflexivity.
  - cbn [mem_char] in H. apply orb_false_iff in H. destruct H as [Hc Ha].
    cbn [append split]. rewrite Ascii.eqb_sym, Hc, (IH b Ha).
    destruct (split NL b) eqn:Eb; [now apply split_nonempty in Eb | reflexivity].
Qed.

(** Expanding a text is expanding its lines one by one: the first line from
    the current column, the others from column 0. *)
Lemma split_expandtabs : forall tab_size s col,
  split NL (expandtabs_from tab_size col s)
  = match split NL s with
    | h :: t =>
        expandtabs_from tab_size col h :: map (expandtabs_from tab_size 0) t
    | [] => []
    end.
Proof.
  intros tab_size. induction s as [|c s IH]; intros col; [reflexivity|].
  cbn [expandtabs_from split].
  destruct (split NL s) as [|h t] eqn:Es; [now apply split_nonempty in Es|].
  destruct (Ascii.eqb c TAB) eqn:Ec.
  - apply Ascii.eqb_eq in Ec. subst c. change (Ascii.eqb TAB NL) with false.
    cbn [expandtabs_from]. rewrite Ascii.eqb_refl.
    destruct (0 <? tab_size).
    + rewrite split_prepend by (apply repeat_space_no; discriminate).
      rewrite IH. reflexivity.
    + apply IH.
  - destruct (Ascii.eqb c NL) eqn:En.
    + apply Ascii.eqb_eq in En. subst c. cbn [split]. rewrite Ascii.eqb_refl.
      simpl orb. rewrite IH. reflexivity.
    + cbn [split]. rewrite En, IH. simpl orb.
      cbn [expandtabs_from]. rewrite Ec, En. reflexivity.
Qed.

(** X5.  [expand_tabs] leaves no tab in its result, whatever the tab size,
    and a text without a tab is returned as it is. *)
Theorem X5_expand_tabs_removes_tabs :
  (forall text tab_size, mem_char TAB (expand_tabs text tab_size) = false)
  /\ (forall text tab_size,
        mem_char TAB text = false -> expand_tabs text tab_size = text).
Proof.
  split; intros text tab_size; unfold expand_tabs.
  - apply expandtabs_no_tab.
  - apply expandtabs_unchanged.
Qed.

Lemma X5_witness : expand_tabs "def f():  # no tab" 4 = "def f():  # no tab".
Proof. apply (proj2 X5_expand_tabs_removes_tabs). reflexivity. Defined.

(** X6.  Tabs are expanded line by line: the lines of the expanded text are
    the expanded lines of the text. *)
Theorem X6_expand_tabs_by_line : forall text tab_size,
  split NL (expand_tabs text tab_size)
  = map (fun l => expand_tabs l tab_size) (split NL text).
Proof.
  intros text tab_size. unfold expand_tabs. rewrite split_expandtabs.
  destruct (split NL text); reflexivity.
Qed.

Lemma mem_char_line : forall c s l,
  In l (split NL s) -> mem_char c s = false -> mem_char c l = false.
Proof.
  intros c s l Hl H. destruct (line_of_text s l Hl) as (pre & post & -> & _).
  rewrite !mem_char_app in H. repeat (apply orb_false_iff in H; destruct H as [? H]).
  assumption.
Qed.

(** X7.  No line that the transpiler works on holds a tab; the test of the
    literal-block handler for a body line that starts with a tab is never
    met. *)
Theorem X7_no_tab_in_lines : forall rst_content l,
  In l (split NL (expand_tabs rst_content 4)) ->
  mem_char TAB l = false /\ startswith l (String TAB EmptyString) = false.
Proof.
  intros rst_content l Hl.
  assert (H : mem_char TAB l = false).
  { apply (mem_char_line TAB _ l Hl). apply expandtabs_no_tab. }
  split; [exact H|]. destruct l as [|c l]; [reflexivity|].
  cbn [mem_char] in H. apply orb_false_iff in H. destruct H as [Hc _].
  cbn [startswith]. rewrite Hc. reflexivity.
Qed.

Lemma X7_witness :
  mem_char TAB "    x = 1" = false
  /\ startswith "    x = 1" (String TAB EmptyString) = false.
Proof.
  apply (X7_no_tab_in_lines (String TAB "x = 1")). left. reflexivity.
Defined.

(** ** The skip handlers *)

Lemma nth_skipn_add : forall (lines : list string) i k,
  nth k (skipn i lines) EmptyString = nth (i + k) lines EmptyString.
Proof.
  induction lines as [|l lines IH]; intros i k.
  - rewrite skipn_nil. destruct k, i; reflexivity.
  - destruct i as [|i]; [reflexivity|]. simpl. apply IH.
Qed.

Lemma take_while_nth : forall p ls k,
  k < List.length (take_while p ls) -> p (nth k ls EmptyString) = true.
Proof.
  intros p. induction ls as [|l ls IH]; intros k Hk; simpl in Hk; [lia|].
  destruct (p l) eqn:E; simpl in Hk; [|lia].
  destruct k as [|k]; [exact E|]. simpl. apply IH. lia.
Qed.

Lemma take_while_stop : forall p ls,
  List.length (take_while p ls) < List.length ls ->
  p (nth (List.length (take_while p ls)) ls EmptyString) = false.
Proof.
  intros p. induction ls as [|l ls IH]; intros H; simpl in H; [lia|].
  simpl. destruct (p l) eqn:E; simpl in *; [apply IH; lia | exact E].
Qed.

Lemma take_while_length : forall p ls,
  List.length (take_while p ls) <= List.length ls.
Proof.
  intros p. induction ls as [|l ls IH]; simpl; [lia|].
  destruct (p l); simpl; lia.
Qed.

(** A loop that passes over lines stops at the first line that fails its
    test, or at the end of the lines. *)
Lemma skip_lines_stops : forall lines go i,
  i <= List.length lines ->
  i <= skip_lines lines go i
  /\ skip_lines lines go i <= List.length lines
  /\ (forall k, i <= k -> k < skip_lines lines go i ->
        go (nth k lines EmptyString) = true)
  /\ (skip_lines lines go i < List.length lines ->
      go (nth (skip_lines lines go i) lines EmptyString) = false).
Proof.
  intros lines go i Hi. rewrite skip_lines_spec.
  pose proof (take_while_length go (skipn i lines)) as Hlen.
  rewrite length_skipn in Hlen.
  split; [lia|]. split; [lia|]. split.
  - intros k Hk1 Hk2. replace k with (i + (k - i)) by lia.
    rewrite <- nth_skipn_add. apply take_while_nth. lia.
  - intros H. rewrite <- nth_skipn_add. apply take_while_stop.
    rewrite length_skipn. lia.
Qed.

Lemma run_skip_handler : forall lines i result h,
  is_skip_handler h = true ->
  run_handler lines i result h
  = (skip_lines lines (skip_test h (indent_of (nth i lines EmptyString))) (S i),
     result).
Proof. intros lines i result h H. destruct h; try discriminate; reflexivity. Qed.

(** X8.  The handlers that skip a directive (testsetup, testcleanup and
    testoutput; highlight; only html; index; unknown directives) add nothing
    to the output.  They pass the directive line and every following line
    that meets the handler's test, and stop at the first line that fails it
    or at the end of the document. *)
Theorem X8_skip_handlers : forall lines i result h,
  i < List.length lines ->
  select lines i = h -> is_skip_handler h = true ->
  let test := skip_test h (indent_of (nth i lines EmptyString)) in
  let j := fst (step lines i result) in
  snd (step lines i result) = result
  /\ i < j /\ j <= List.length lines
  /\ (forall k, i < k -> k < j -> test (nth k lines EmptyString) = true)
  /\ (j < List.length lines -> test (nth j lines EmptyString) = false).
Proof.
  intros lines i result h Hi Hsel Hskip test j. subst j.
  rewrite step_select, Hsel, (run_skip_handler lines i result h Hskip).
  cbn [fst snd]. fold test.
  destruct (skip_lines_stops lines test (S i) Hi) as (H1 & H2 & H3 & H4).
  repeat split; auto.
Qed.

Lemma X8_witness :
  let lines := [".. testsetup::"; EmptyString; "    import os"; "Text"; "More"] in
  let test := skip_test H_testskip (indent_of (nth 0 lines EmptyString)) in
  let j := fst (step lines 0 ["Before"]) in
  snd (step lines 0 ["Before"]) = ["Before"]
  /\ 0 < j /\ j <= List.length lines
  /\ (forall k, 0 < k -> k < j -> test (nth k lines EmptyString) = true)
  /\ (j < List.length lines -> test (nth j lines EmptyString) = false).
Proof.
  apply (X8_skip_handlers
           [".. testsetup::"; EmptyString; "    import os"; "Text"; "More"] 0
           ["Before"] H_testskip).
  - simpl. lia.
  - vm_compute. reflexivity.
  - reflexivity.
Defined.

(** ** The output buffer only grows *)

Lemma fold_left_fences : forall code_blocks (result : list string),
  fold_left (fun result code => result ++ ["```python"; code; "```"; EmptyString])
    code_blocks result
  = result
      ++ flat_map (fun code => ["```python"; code; "```"; EmptyString]) code_blocks.
Proof.
  induction code_blocks as [|code rest IH]; intros result; simpl.
  - now rewrite app_nil_r.
  - rewrite IH, <- app_assoc. reflexivity.
Qed.

Lemma list_eq_nil_dec : forall xs : list string, xs = [] \/ xs <> [].
Proof. intros [|x xs]; [now left | right; discriminate]. Qed.

Lemma handler_eq_title : forall h : handler, h = H_title \/ h <> H_title.
Proof. intros h. destruct h; (now left) || (right; discriminate). Qed.

(** Every handler but the title handler keeps the output it was given and
    appends to it. *)
Lemma run_handler_appends : forall lines i result h,
  h <> H_title ->
  exists added, snd (run_handler lines i result h) = result ++ added.
Proof.
  intros lines i result h Hh.
  destruct h; try congruence; unfold run_handler; cbv zeta; cbn [snd];
    try (exists []; now rewrite app_nil_r).
  - rewrite h_testcode_spec. cbn [snd]. eexists. reflexivity.
  - rewrite h_code_block_spec. cbn [snd]. eexists. reflexivity.
  - unfold h_literal. cbv zeta.
    set (prefix := rstrip _).
    match goal with |- context [if ?b then _ else (_, _)] => destruct b end.
    + destruct (collect_code lines _ _ []) as [k r]. cbn [snd].
      destruct (truthy prefix); [rewrite <- app_assoc|]; eexists; reflexivity.
    + cbn [snd]. destruct (truthy prefix); [|exists []; now rewrite app_nil_r].
      eexists. reflexivity.
  - unfold h_figure. destruct (while_lines lines figure_body (S i) EmptyString)
      as [k caption]. cbn [snd].
    destruct (truthy caption); rewrite <- !app_assoc; eexists; reflexivity.
  - unfold h_admonition.
    destruct (while_idx _ _ _ (S i) _) as [k [text_lines code_blocks]]. cbn [snd].
    rewrite fold_left_fences, <- !app_assoc. eexists. reflexivity.
  - eexists. reflexivity.
Qed.

Lemma app_from_removelast : forall (result added : list string),
  exists added', result ++ added = removelast result ++ added'.
Proof.
  intros result added. destruct (list_eq_nil_dec result) as [->|Hne].
  - exists added. reflexivity.
  - exists ([last result EmptyString] ++ added).
    rewrite app_assoc, <- app_removelast_last by exact Hne. reflexivity.
Qed.

(** X9.  The output buffer only grows: a step of the dispatch loop keeps
    every line written before and appends to them, except that the title
    handler may take back the last line (an overline) before it appends. *)
Theorem X9_output_only_grows :
  (forall lines i result,
     select lines i <> H_title ->
     exists added, snd (step lines i result) = result ++ added)
  /\ (forall lines i result,
        exists added, snd (step lines i result) = removelast result ++ added).
Proof.
  assert (H1 : forall lines i result,
            select lines i <> H_title ->
            exists added, snd (step lines i result) = result ++ added).
  { intros lines i result H. rewrite step_select. apply run_handler_appends, H. }
  split; [exact H1|].
  intros lines i result.
  destruct (handler_eq_title (select lines i)) as [E|E].
  - rewrite step_select, E. unfold run_handler, h_title. cbv zeta. cbn [snd].
    destruct (has_overline result _).
    + eexists. reflexivity.
    + apply app_from_removelast.
  - destruct (H1 lines i result E) as [added ->]. apply app_from_removelast.
Qed.

Lemma X9_witness :
  exists added,
    snd (step ["Text"; ".. figure:: a.png"; "   Caption"] 1 ["Text"])
    = ["Text"] ++ added.
Proof.
  apply (proj1 X9_output_only_grows ["Text"; ".. figure:: a.png"; "   Caption"] 1
           ["Text"]).
  vm_compute. discriminate.
Defined.

(** ** Figures *)

Lemma last_any_default : forall (xs : list string) x d d',
  last (x :: xs) d = last (x :: xs) d'.
Proof.
  induction xs as [|y xs IH]; intros x d d'; [reflexivity|].
  change (last (y :: xs) d = last (y :: xs) d'). apply IH.
Qed.

Lemma last_cons_default : forall (a d : string) xs, last (a :: xs) d = last xs a.
Proof.
  intros a d [|x xs]; [reflexivity|].
  change (last (x :: xs) d = last (x :: xs) a). apply last_any_default.
Qed.

Lemma figure_body_spec : forall l caption,
  figure_body l caption
  = if figure_line l
    then Some (if caption_text (strip l) then strip l else caption)
    else None.
Proof.
  intros l caption. unfold figure_body, figure_line, caption_text.
  destruct (startswith l "   " || is_blank l); [|reflexivity].
  destruct (truthy (strip l) && negb (startswith (strip l) ":")); reflexivity.
Qed.

(** The loop of the figure handler keeps the last caption candidate. *)
Lemma scan_figure : forall ls i caption,
  scan figure_body ls i caption
  = (i + List.length (take_while figure_line ls),
     last (filter caption_text (map strip (take_while figure_line ls))) caption).
Proof.
  induction ls as [|l ls IH]; intros i caption; simpl.
  - f_equal. lia.
  - rewrite figure_body_spec. destruct (figure_line l); simpl.
    + rewrite IH. f_equal; [lia|].
      destruct (caption_text (strip l)); [|reflexivity].
      now rewrite last_cons_default.
    + f_equal. lia.
Qed.

(** X10.  The figure handler passes the directive line and the lines after
    it that are blank or indented by three spaces.  The caption is the last
    of these lines that, stripped, is neither empty nor an option; the output
    gains a blank line, the image with the caption as its text, the caption
    in italics when there is one, and a blank line. *)
Theorem X10_figure_caption : forall lines i result img_path,
  select lines i = H_figure img_path ->
  let body := take_while figure_line (skipn (S i) lines) in
  let caption := last (filter caption_text (map strip body)) EmptyString in
  step lines i result
  = (S i + List.length body,
     result ++ [EmptyString; "![" @@ caption @@ "](" @@ img_path @@ ")"]
       ++ (if truthy caption then ["*" @@ caption @@ "*"] else [])
       ++ [EmptyString]).
Proof.
  intros lines i result img_path H body caption.
  rewrite step_select, H. unfold run_handler, h_figure. cbv zeta.
  rewrite while_lines_scan, scan_figure. fold body. fold caption.
  destruct (truthy caption); rewrite <- !app_assoc; reflexivity.
Qed.

Lemma X10_witness :
  step [".. figure:: img/map.png"; "   :align: center"; EmptyString;
        "   First line"; "   The caption"; "After"] 0 []
  = (5, [EmptyString; "![The caption](img/map.png)"; "*The caption*"; EmptyString]).
Proof.
  apply (X10_figure_caption
           [".. figure:: img/map.png"; "   :align: center"; EmptyString;
            "   First line"; "   The caption"; "After"] 0 [] "img/map.png").
  vm_compute. reflexivity.
Defined.

(** ** More of the segmenter *)

Lemma fence_cell_tagged : forall code_lang content,
  code_lang <> EmptyString ->
  fence_cell code_lang content
  = if lang_python_py code_lang then (code, content)
    else (markdown, "```" @@ code_lang @@ NLs @@ content @@ NLs @@ "```").
Proof.
  intros code_lang content H. unfold fence_cell, lang_python_py_empty.
  assert (E : String.eqb code_lang EmptyString = false) by now apply String.eqb_neq.
  apply truthy_true in H. rewrite E, H, orb_false_r, andb_false_r.
  destruct (lang_python_py code_lang); reflexivity.
Qed.

(** X11.  A tagged fence that is opened outside any fence and properly
    closed, with a body that is not empty once stripped, becomes one cell: a
    code cell when the tag is python or py, and for every other tag a prose
    cell that holds the body in a fence with the same tag. *)
Theorem X11_tagged_fence : forall pre open body close fence lang,
  quote_code_block (seg_loop pre) = false ->
  in_code_block (seg_loop pre) = false ->
  code_start open = Some (fence, lang) ->
  lang <> EmptyString ->
  (forall l, In l body -> startswith l "> ```" = false /\ strip l <> fence) ->
  strip close = fence ->
  strip (join NLs body) <> EmptyString ->
  cells (seg_loop (pre ++ open :: body ++ [close]))
  = cells (seg_step (seg_loop pre) open)
    ++ [if lang_python_py lang then (code, strip (join NLs body))
        else (markdown,
              "```" @@ lang @@ NLs @@ strip (join NLs body) @@ NLs @@ "```")].
Proof.
  intros pre open body close fence lang Hq Hc Hs Hl Hb Hclose Hne.
  rewrite (seg_loop_closed_fence pre open body close fence lang); try assumption.
  apply truthy_true in Hne. rewrite Hne, (fence_cell_tagged lang _ Hl). reflexivity.
Qed.

Lemma X11_witness :
  cells (seg_loop (["Run:"] ++ "````bash" :: ["ls"; "```"; "pwd"] ++ ["````"]))
  = cells (seg_step (seg_loop ["Run:"]) "````bash")
    ++ [if lang_python_py "bash" then (code, strip (join NLs ["ls"; "```"; "pwd"]))
        else (markdown,
              "```" @@ "bash" @@ NLs @@ strip (join NLs ["ls"; "```"; "pwd"])
                @@ NLs @@ "```")].
Proof.
  apply (X11_tagged_fence ["Run:"] "````bash" ["ls"; "```"; "pwd"] "````" "````"
           "bash"); try reflexivity; try discriminate.
  intros l [<-|[<-|[<-|[]]]]; split; (reflexivity || discriminate).
Defined.

Lemma seg_step_quote_marker : forall st line,
  startswith line "> ```" = true ->
  seg_step st line
  = mk_seg (cells st) (current_lines st ++ [line]) (in_code_block st)
           (code_lang st) (code_fence_pattern st) true (negb (quote_code_block st)).
Proof. intros st line H. unfold seg_step. now rewrite H. Qed.

Lemma seg_loop_quoted : forall body st,
  quote_code_block st = true ->
  (forall l, In l body -> startswith l "> ```" = false) ->
  fold_left seg_step body st
  = mk_seg (cells st) (current_lines st ++ body) (in_code_block st)
           (code_lang st) (code_fence_pattern st) (in_quote st) true.
Proof.
  induction body as [|l body IH]; intros st Hq Hb.
  - simpl. rewrite app_nil_r. destruct st; simpl in *; subst; reflexivity.
  - simpl fold_left.
    assert (E : seg_step st l = push_line st l).
    { unfold seg_step. now rewrite (Hb l (or_introl eq_refl)), Hq. }
    rewrite E, IH; simpl; auto.
    + rewrite <- app_assoc. reflexivity.
    + intros l' Hl'. apply Hb. now right.
Qed.

(** X12.  A quoted fence is prose: from a line that starts with the quoted
    fence marker to the next such line, every line, the two marker lines
    included, joins the pending lines; no cell is made, and the fence state
    is not changed, so a fence line inside the quote opens and closes
    nothing. *)
Theorem X12_quoted_fence_is_prose : forall st first body last_line,
  quote_code_block st = false ->
  startswith first "> ```" = true ->
  (forall l, In l body -> startswith l "> ```" = false) ->
  startswith last_line "> ```" = true ->
  fold_left seg_step (first :: body ++ [last_line]) st
  = mk_seg (cells st) (current_lines st ++ first :: body ++ [last_line])
           (in_code_block st) (code_lang st) (code_fence_pattern st) true false.
Proof.
  intros st first body last_line Hq Hf Hb Hl.
  simpl fold_left. rewrite fold_left_app. simpl fold_left.
  rewrite (seg_step_quote_marker st first Hf), Hq.
  rewrite seg_loop_quoted; [|reflexivity|exact Hb].
  rewrite (seg_step_quote_marker _ last_line Hl). simpl.
  rewrite <- !app_assoc. reflexivity.
Qed.

Lemma X12_witness :
  fold_left seg_step ("> ```python" :: ["> print(1)"; "```"] ++ ["> ```"])
    (seg_loop ["Note"])
  = mk_seg (cells (seg_loop ["Note"]))
      (current_lines (seg_loop ["Note"])
         ++ "> ```python" :: ["> print(1)"; "```"] ++ ["> ```"])
      (in_code_block (seg_loop ["Note"])) (code_lang (seg_loop ["Note"]))
      (code_fence_pattern (seg_loop ["Note"])) true false.
Proof.
  apply X12_quoted_fence_is_prose; try reflexivity.
  intros l [<-|[<-|[]]]; reflexivity.
Defined.

Lemma join_cons_char : forall sep c h t,
  join sep (String c h :: t) = String c (join sep (h :: t)).
Proof. intros sep c h [|x t]; reflexivity. Qed.

(** Splitting a text into lines and joining them again gives the text. *)
Lemma join_split : forall s, join NLs (split NL s) = s.
Proof.
  induction s as [|c s IH]; [reflexivity|]. cbn [split].
  destruct (split NL s) as [|h t] eqn:Es; [now apply split_nonempty in Es|].
  destruct (Ascii.eqb c NL) eqn:Ec.
  - apply Ascii.eqb_eq in Ec. subst c.
    change (join NLs (EmptyString :: h :: t)) with (NLs @@ join NLs (h :: t)).
    rewrite IH. reflexivity.
  - rewrite join_cons_char, IH. reflexivity.
Qed.

(** A fence-opening line starts with a backtick. *)
Lemma code_start_backtick : forall line p,
  code_start line = Some p -> exists r, line = String BT r.
Proof.
  intros line p H. unfold code_start, re_match, match_here in H.
  destruct (exec no_flags re_code_start _ [] None line) as [[cs rest]|] eqn:E;
    [|discriminate].
  apply exec_sound in E. destruct E as (cs' & prev' & s' & Hsem & _).
  unfold re_code_start in Hsem. simpl in Hsem.
  destruct Hsem as (? & ? & ? & (_ & -> & -> & ->) & Hsem).
  destruct Hsem as (? & ? & ? & (? & Hg & _) & _).
  destruct Hg as (? & ? & ? & (d1 & -> & Hd1 & _) & _).
  apply Ascii.eqb_eq in Hd1. subst d1. eexists. reflexivity.
Qed.

Lemma no_backtick_plain_line : forall l,
  mem_char BT l = false -> startswith l "> ```" = false /\ code_start l = None.
Proof.
  intros l H. split.
  - destruct (startswith l "> ```") eqn:E; [|reflexivity].
    destruct (startswith_app _ _ E) as [rest ->]. discriminate.
  - destruct (code_start l) as [p|] eqn:E; [|reflexivity].
    destruct (code_start_backtick l p E) as [r ->]. discriminate.
Qed.

Lemma seg_loop_plain : forall lines st,
  quote_code_block st = false -> in_code_block st = false ->
  (forall l, In l lines -> mem_char BT l = false) ->
  fold_left seg_step lines st
  = mk_seg (cells st) (current_lines st ++ lines) false (code_lang st)
           (code_fence_pattern st) (in_quote st) false.
Proof.
  induction lines as [|l lines IH]; intros st Hq Hc Hl.
  - simpl. rewrite app_nil_r. destruct st; simpl in *; subst; reflexivity.
  - simpl fold_left.
    destruct (no_backtick_plain_line l (Hl l (or_introl eq_refl))) as [H1 H2].
    assert (E : seg_step st l = push_line st l).
    { unfold seg_step. now rewrite H1, Hq, Hc, H2. }
    rewrite E, IH; simpl; auto.
    + rewrite <- app_assoc. reflexivity.
    + intros l' Hl'. apply Hl. now right.
Qed.

(** X13.  A Markdown text without any backtick becomes a notebook of one
    prose cell: the text stripped, or the fallback heading when the text is
    empty once stripped. *)
Theorem X13_text_without_fence : forall markdown_content title,
  mem_char BT markdown_content = false ->
  markdown_to_notebook markdown_content title
  = [(markdown,
      if truthy (strip markdown_content) then strip markdown_content
      else if truthy title then "# " @@ title else "# Untitled")].
Proof.
  intros md title H. unfold markdown_to_notebook, raw_cells, seg_loop.
  rewrite seg_loop_plain; try reflexivity.
  2:{ intros l Hl. apply (mem_char_line BT md l Hl H). }
  unfold seg_flush. simpl.
  destruct (split NL md) as [|h t] eqn:Es; [now apply split_nonempty in Es|].
  rewrite <- Es, join_split.
  destruct (truthy (strip md)); reflexivity.
Qed.

Lemma X13_witness :
  markdown_to_notebook (join NLs ["# Title"; EmptyString; "Some *text*."; EmptyString])
    "Demo"
  = [(markdown,
      if truthy (strip (join NLs ["# Title"; EmptyString; "Some *text*."; EmptyString]))
      then strip (join NLs ["# Title"; EmptyString; "Some *text*."; EmptyString])
      else if truthy "Demo" then "# " @@ "Demo" else "# Untitled")].
Proof. apply X13_text_without_fence. reflexivity. Defined.

(** ** Documents of plain lines *)

Lemma convert_inline_without : forall line,
  mem_char BT line = false -> convert_inline line = line.
Proof.
  intros line H. unfold convert_inline.
  apply (apply_rules_without BT); [reflexivity | exact H].
Qed.

(** On lines that no handler claims the loop emits one rewritten line for
    each input line and ends at the end of the input. *)
Lemma dispatch_plain : forall lines fuel i result,
  (forall j, j < List.length lines -> select lines j = H_plain) ->
  i <= List.length lines -> List.length lines - i <= fuel ->
  dispatch fuel lines i result
  = (List.length lines, result ++ map convert_inline (skipn i lines)).
Proof.
  intros lines. induction fuel as [|fuel IH]; intros i result Hp Hi Hf.
  - assert (E : i = List.length lines) by lia. subst i.
    cbn [dispatch]. rewrite skipn_all. cbn [map]. now rewrite app_nil_r.
  - cbn [dispatch]. destruct (i <? List.length lines) eqn:E.
    + apply Nat.ltb_lt in E. rewrite step_select, (Hp i E). cbn [run_handler].
      rewrite IH by (auto; lia). rewrite (skipn_cons_nth lines i E).
      cbn [map]. rewrite <- app_assoc. reflexivity.
    + apply Nat.ltb_ge in E. assert (E' : i = List.length lines) by lia. subst i.
      rewrite skipn_all. cbn [map]. now rewrite app_nil_r.
Qed.

Lemma transpile_plain : forall lines,
  (forall i, i < List.length lines -> select lines i = H_plain) ->
  transpile_lines lines = map convert_inline lines.
Proof.
  intros lines Hp. unfold transpile_lines.
  rewrite dispatch_plain by (auto; lia). reflexivity.
Qed.

(** X14.  When no line of the input belongs to a directive, a title, a
    literal block or another handler, the transpiler emits the lines one for
    one and in order, each rewritten by the inline rewriter; when the lines
    hold no backtick either, the output buffer is the input. *)
Theorem X14_plain_lines_pass_through : forall lines,
  (forall i, i < List.length lines -> select lines i = H_plain) ->
  transpile_lines lines = map convert_inline lines
  /\ ((forall l, In l lines -> mem_char BT l = false) ->
      transpile_lines lines = lines).
Proof.
  intros lines Hp. split; [apply transpile_plain, Hp|].
  intros Hb. rewrite (transpile_plain lines Hp).
  rewrite <- (map_id lines) at 2. apply map_ext_in.
  intros l Hl. apply convert_inline_without, Hb, Hl.
Qed.

Lemma X14_witness :
  transpile_lines ["Use ``iface`` here."; EmptyString; "See :file:`a.py` too."]
  = map convert_inline
        ["Use ``iface`` here."; EmptyString; "See :file:`a.py` too."].
Proof.
  apply (proj1 (X14_plain_lines_pass_through
                  ["Use ``iface`` here."; EmptyString; "See :file:`a.py` too."]
                  ltac:(intros [|[|[|i]]] Hi;
                        [vm_compute; reflexivity ..
                        | cbn [List.length] in Hi; lia]))).
Defined.

(** ** Input that holds white space only *)

Lemma rstrip_empty_all_space : forall s,
  rstrip s = EmptyString -> all_chars is_space s = true.
Proof.
  induction s as [|c s IH]; [reflexivity|]. cbn [rstrip all_chars].
  destruct (rstrip s) eqn:E; [|discriminate].
  destruct (is_space c); [intros _; now rewrite IH | discriminate].
Qed.

Lemma all_space_rstrip : forall s,
  all_chars is_space s = true -> rstrip s = EmptyString.
Proof.
  induction s as [|c s IH]; [reflexivity|]. cbn [rstrip all_chars].
  intros H. apply andb_true_iff in H. destruct H as [H1 H2].
  now rewrite (IH H2), H1.
Qed.

Lemma all_space_lstrip : forall s,
  all_chars is_space s = true -> lstrip s = EmptyString.
Proof.
  induction s as [|c s IH]; [reflexivity|]. cbn [lstrip all_chars].
  intros H. apply andb_true_iff in H. destruct H as [H1 H2].
  now rewrite H1, (IH H2).
Qed.

(** A text is blank exactly when it is made of white space. *)
Lemma is_blank_all_space : forall s,
  is_blank s = true <-> all_chars is_space s = true.
Proof.
  intros s. unfold is_blank, strip. split.
  - intros H. destruct (rstrip (lstrip s)) eqn:E; [|discriminate].
    apply rstrip_empty_all_space in E.
    destruct (lstrip_decomp s) as (ws & Es & Hw).
    rewrite Es, all_chars_app, Hw, E. reflexivity.
  - intros H. now rewrite (all_space_lstrip s H).
Qed.

Lemma all_space_repeat : forall n, all_chars is_space (repeat_str " " n) = true.
Proof. induction n as [|n IH]; [reflexivity|]. simpl. exact IH. Qed.

Lemma all_space_expandtabs : forall tab_size s col,
  all_chars is_space s = true ->
  all_chars is_space (expandtabs_from tab_size col s) = true.
Proof.
  intros tab_size. induction s as [|c s IH]; intros col H; [reflexivity|].
  cbn [all_chars] in H. apply andb_true_iff in H. destruct H as [H1 H2].
  cbn [expandtabs_from]. destruct (Ascii.eqb c TAB).
  - destruct (0 <? tab_size); [|now apply IH].
    cbv zeta. rewrite all_chars_app, all_space_repeat. now apply IH.
  - cbn [all_chars]. rewrite H1. now apply IH.
Qed.

Lemma all_space_line : forall s l,
  In l (split NL s) -> all_chars is_space s = true -> all_chars is_space l = true.
Proof.
  intros s l Hl H. destruct (line_of_text s l Hl) as (pre & post & -> & _).
  rewrite !all_chars_app in H.
  repeat (apply andb_true_iff in H; destruct H as [? H]). assumption.
Qed.

Lemma all_space_no_backtick : forall s,
  all_chars is_space s = true -> mem_char BT s = false.
Proof.
  induction s as [|c s IH]; [reflexivity|]. cbn [all_chars mem_char].
  intros H. apply andb_true_iff in H. destruct H as [H1 H2].
  rewrite (IH H2), orb_false_r.
  destruct (Ascii.eqb BT c) eqn:E; [|reflexivity].
  apply Ascii.eqb_eq in E. subst c. discriminate.
Qed.

(** A blank line belongs to no handler. *)
Lemma select_blank : forall lines i,
  is_blank (nth i lines EmptyString) = true -> select lines i = H_plain.
Proof.
  intros lines i H. unfold is_blank in H. unfold select, is_title.
  destruct (strip (nth i lines EmptyString)) eqn:E; [|discriminate].
  cbn [truthy]. rewrite andb_false_r. reflexivity.
Qed.

Lemma clean_lines_all_blank : forall result,
  (forall l, In l result -> is_blank l = true) -> clean_lines result = [].
Proof.
  intros result H. destruct (clean_lines result) as [|x xs] eqn:E; [reflexivity|].
  destruct (clean_lines_ends result x xs E) as [Hx _].
  assert (F : filter not_blank (clean_lines result) = filter not_blank result).
  { unfold clean_lines.
    rewrite filter_pop_blank, pop0_drop_while, filter_drop_blank.
    apply filter_collapse. }
  assert (Hin : In x (filter not_blank result)).
  { rewrite <- F, E. cbn [filter]. unfold not_blank at 1. rewrite Hx. now left. }
  apply filter_In in Hin. destruct Hin as [Hin _].
  rewrite (H x Hin) in Hx. discriminate.
Qed.

(** X15.  An input made of white space only (spaces, tabs, line ends)
    transpiles to the empty Markdown text, from which the notebook builder
    makes the single fallback cell. *)
Theorem X15_blank_input : forall rst_content title,
  is_blank rst_content = true ->
  rst_to_markdown rst_content = EmptyString
  /\ markdown_to_notebook (rst_to_markdown rst_content) title
     = [(markdown, if truthy title then "# " @@ title else "# Untitled")].
Proof.
  intros rst title H. apply is_blank_all_space in H.
  assert (E : rst_to_markdown rst = EmptyString).
  { unfold rst_to_markdown. cbv zeta.
    assert (Hl : forall l, In l (split NL (expand_tabs rst 4)) ->
                           all_chars is_space l = true).
    { intros l Hl. apply (all_space_line _ l Hl).
      apply all_space_expandtabs, H. }
    rewrite assemble_clean_lines, transpile_plain.
    - rewrite clean_lines_all_blank; [reflexivity|].
      intros l Hin. apply in_map_iff in Hin. destruct Hin as (l0 & <- & Hin).
      rewrite convert_inline_without by (apply all_space_no_backtick, Hl, Hin).
      apply is_blank_all_space, Hl, Hin.
    - intros i Hi. apply select_blank, is_blank_all_space, Hl, nth_In, Hi. }
  split; [exact E|]. rewrite E.
  unfold markdown_to_notebook. cbn. destruct (truthy title); reflexivity.
Qed.

Lemma X15_witness :
  rst_to_markdown (String TAB (String NL "  "))  = EmptyString
  /\ markdown_to_notebook (rst_to_markdown (String TAB (String NL "  "))) "Demo"
     = [(markdown, if truthy "Demo" then "# " @@ "Demo" else "# Untitled")].
Proof. apply X15_blank_input. vm_compute. reflexivity. Defined.

(** ** Fence-opening lines *)

Lemma code_start_parts : forall line fence lang,
  code_start line = Some (fence, lang) ->
  exists ws tail,
    line = fence @@ ws @@ lang @@ tail
    /\ all_chars (Ascii.eqb BT) fence = true /\ 3 <= String.length fence
    /\ all_chars is_space ws = true /\ all_chars is_word lang = true
    /\ (tail = EmptyString \/ tail = NLs).
Proof.
  intros line fence lang H. unfold code_start, re_match, match_here in H.
  destruct (exec no_flags re_code_start _ [] None line) as [[cs rest]|] eqn:E;
    [|discriminate].
  apply exec_sound in E. destruct E as (cs' & prev' & s' & Hsem & Hk).
  inversion Hk; subst cs' s'. inversion H; subst fence lang. clear H Hk.
  unfold re_code_start in Hsem. simpl in Hsem.
  destruct Hsem as (cs0 & prev0 & s0 & (_ & -> & -> & ->) & Hsem).
  destruct Hsem as (cs1 & prev1 & s1 & (cg & Hg & ->) & Hsem).
  destruct Hg as (? & ? & ? & (d1 & -> & Hd1 & -> & _) & Hg).
  destruct Hg as (? & ? & ? & (d2 & -> & Hd2 & -> & _) & Hg).
  destruct Hg as (? & ? & ? & (d3 & -> & Hd3 & -> & _) & (run & -> & Hrun & -> & _)).
  destruct Hsem as (? & ? & ? & (ws & -> & Hws & -> & _) & Hsem).
  destruct Hsem as (? & ? & ? & (? & (w & -> & Hw & -> & _) & ->) & (Heol & -> & _ & _)).
  change (String d1 (String d2 (String d3 (run @@ ws @@ w @@ x6))))
    with ((String d1 (String d2 (String d3 run))) @@ (ws @@ w @@ x6)).
  rewrite !take_app_length. unfold group_or. cbn [group Nat.eqb].
  replace (if truthy w then w else EmptyString) with w by (now destruct w).
  exists ws, x6.
  assert (Hc : forall p s, all_chars (cls_ok no_flags p) s = true -> all_chars p s = true).
  { intros p s. apply all_chars_impl. intros c Hc. exact Hc. }
  repeat split.
  - change (Ascii.eqb BT d1 = true) in Hd1. change (Ascii.eqb BT d2 = true) in Hd2.
    change (Ascii.eqb BT d3 = true) in Hd3.
    cbn [all_chars]. rewrite Hd1, Hd2, Hd3. apply (Hc _ _ Hrun).
  - cbn [String.length]. lia.
  - apply (Hc _ _ Hws).
  - apply (Hc _ _ Hw).
  - destruct x6 as [|c [|c' x6]]; cbn in Heol; auto; try (now rewrite andb_false_r in Heol).
    right. rewrite andb_true_r in Heol. apply Ascii.eqb_eq in Heol. now subst c.
Qed.

Lemma class_split_unique : forall (p q : ascii -> bool) a a' b b',
  (forall c, p c = true -> q c = false) ->
  all_chars p a = true -> all_chars p a' = true ->
  all_chars q b = true -> all_chars q b' = true ->
  a @@ b = a' @@ b' -> a = a' /\ b = b'.
Proof.
  intros p q. induction a as [|c a IH]; intros [|c' a'] b b' Hpq Ha Ha' Hb Hb' E.
  - auto.
  - cbn in E. subst b. cbn in Ha', Hb.
    apply andb_true_iff in Ha', Hb. destruct Ha' as [H1 _], Hb as [H2 _].
    rewrite (Hpq _ H1) in H2. discriminate.
  - cbn in E. subst b'. cbn in Ha, Hb'.
    apply andb_true_iff in Ha, Hb'. destruct Ha as [H1 _], Hb' as [H2 _].
    rewrite (Hpq _ H1) in H2. discriminate.
  - cbn in E. inversion E; subst c'. cbn in Ha, Ha'.
    apply andb_true_iff in Ha, Ha'. destruct Ha as [_ Ha], Ha' as [_ Ha'].
    destruct (IH a' b b' Hpq Ha Ha' Hb Hb' H1) as [-> ->]. auto.
Qed.

Lemma space_not_word : forall c, is_space c = true -> is_word c = false.
Proof. intros [[] [] [] [] [] [] [] []]; vm_compute; congruence. Qed.

Lemma space_or_word_not_bt : forall c,
  is_space c || is_word c = true -> Ascii.eqb BT c = false.
Proof. intros [[] [] [] [] [] [] [] []]; vm_compute; congruence. Qed.

Lemma append_empty_r : forall s, s @@ EmptyString = s.
Proof. induction s as [|c s IH]; simpl; [reflexivity | now rewrite IH]. Qed.

Lemma exec_bol_start : forall fl (R : Type) r (k : kont R) cs s,
  exec fl (Bol ;; r) k cs None s = exec fl r k cs None s.
Proof. reflexivity. Qed.

Lemma all_chars_mem : forall p c s,
  all_chars p s = true -> mem_char c s = true -> p c = true.
Proof.
  intros p c. induction s as [|d s IH]; cbn; [discriminate|].
  intros H M. apply andb_true_iff in H. destruct H as [H1 H2].
  apply orb_true_iff in M. destruct M as [M|M]; [|now apply IH].
  apply Ascii.eqb_eq in M. now subst d.
Qed.

Lemma code_start_complete : forall fence ws lang,
  fence_parts fence ws lang = true ->
  code_start (fence @@ ws @@ lang) <> None.
Proof.
  intros fence ws lang H. unfold fence_parts in H.
  repeat (apply andb_true_iff in H; destruct H as [H ?]).
  destruct fence as [|b1 [|b2 [|b3 f]]]; try discriminate.
  cbn [all_chars] in H. repeat (apply andb_true_iff in H; destruct H as [? H]).
  unfold code_start, re_match, match_here.
  match goal with
  | |- context [exec ?fl ?r ?k ?cs ?prev ?s] =>
      assert (E : exec fl r k cs prev s <> None)
  end.
  { unfold re_code_start. rewrite exec_bol_start.
    assert (C : can_match no_flags
                  (Grp 1 (Lit BT ;; Lit BT ;; Plus (is_chr BT)) ;; Star is_space
                   ;; Grp 2 (Star is_word) ;; Eol)
                  (String b1 (String b2 (String b3 f)) @@ ws @@ lang) EmptyString).
    { eapply can_seq.
      - apply can_grp. cbn [append]. eapply can_seq; [apply can_lit; assumption|].
        eapply can_seq; [apply can_lit; assumption|].
        apply can_plus; [assumption | apply all_cls_ok; eassumption].
      - eapply can_seq; [apply can_star, all_cls_ok; eassumption|].
        eapply can_seq.
        + apply can_grp. rewrite <- (append_empty_r lang) at 1.
          apply can_star, all_cls_ok. eassumption.
        + intros R k Hk cs prev. cbn. apply Hk. }
    apply C. discriminate. }
  destruct (exec _ _ _ _ _ _) as [[cs rest]|]; [discriminate | congruence].
Qed.

Lemma no_nl_tail : forall a tail,
  mem_char NL (a @@ tail) = false -> tail = EmptyString \/ tail = NLs ->
  tail = EmptyString.
Proof.
  intros a tail H [E|E]; [exact E|]. subst tail.
  rewrite mem_char_app in H. apply orb_false_iff in H. destruct H as [_ H].
  discriminate.
Qed.

(** X16.  On a line without a line feed, the fence-opening pattern matches
    exactly the lines made of three or more backticks, then white space,
    then a tag of word characters and nothing after it; the fence token is
    the whole run of backticks and the language is the tag. *)
Theorem X16_fence_opening_line : forall line,
  mem_char NL line = false ->
  forall fence lang,
    code_start line = Some (fence, lang) <->
    exists ws, line = fence @@ ws @@ lang /\ fence_parts fence ws lang = true.
Proof.
  intros line Hnl fence lang. split.
  - intros H. destruct (code_start_parts line fence lang H)
      as (ws & tail & E & H1 & H2 & H3 & H4 & Ht).
    assert (tail = EmptyString).
    { apply (no_nl_tail (fence @@ ws @@ lang)); [|exact Ht].
      rewrite !append_assoc, <- E. exact Hnl. }
    subst tail. rewrite append_empty_r in E. exists ws. split; [exact E|].
    unfold fence_parts. rewrite H1, H3, H4.
    apply Nat.leb_le in H2. now rewrite H2.
  - intros (ws & E & H). subst line.
    destruct (code_start (fence @@ ws @@ lang)) as [[fence' lang']|] eqn:Ec;
      [|now apply code_start_complete in H].
    destruct (code_start_parts _ _ _ Ec) as (ws' & tail & E & H1 & H2 & H3 & H4 & Ht).
    assert (tail = EmptyString).
    { apply (no_nl_tail (fence' @@ ws' @@ lang')); [|exact Ht].
      rewrite !append_assoc, <- E. exact Hnl. }
    subst tail. rewrite append_empty_r in E.
    unfold fence_parts in H.
    repeat (apply andb_true_iff in H; destruct H as [H ?]).
    assert (Q : forall a b, all_chars is_space a = true -> all_chars is_word b = true ->
                all_chars (fun c => is_space c || is_word c) (a @@ b) = true).
    { intros a b Ha Hb. rewrite all_chars_app. apply andb_true_iff. split.
      - revert Ha. apply all_chars_impl. intros c Hc. now rewrite Hc.
      - revert Hb. apply all_chars_impl. intros c Hc. rewrite Hc. apply orb_true_r. }
    destruct (class_split_unique (Ascii.eqb BT) (fun c => is_space c || is_word c)
                fence fence' (ws @@ lang) (ws' @@ lang')) as [Ef Er]; auto.
    { intros c Hc. destruct (is_space c || is_word c) eqn:Es; [|reflexivity].
      apply space_or_word_not_bt in Es. congruence. }
    destruct (class_split_unique is_space is_word ws ws' lang lang'
                space_not_word) as [_ El]; auto.
    now subst.
Qed.

Lemma X16_witness :
  code_start "````  python" = Some ("````", "python") <->
  exists ws, "````  python" = "````" @@ ws @@ "python"
             /\ fence_parts "````" ws "python" = true.
Proof. apply X16_fence_opening_line. reflexivity. Defined.

(** X17.  A line that holds a character which is neither a backtick, white
    space nor a word character opens no fence: a tag such as [c++],
    [objective-c] or [{code-cell}] leaves the line in the prose. *)
Theorem X17_odd_tag_opens_no_fence : forall line c,
  mem_char c line = true ->
  Ascii.eqb BT c = false -> is_space c = false -> is_word c = false ->
  code_start line = None.
Proof.
  intros line c Hm Hb Hs Hw.
  destruct (code_start line) as [[fence lang]|] eqn:E; [|reflexivity].
  destruct (code_start_parts _ _ _ E) as (ws & tail & -> & H1 & _ & H3 & H4 & Ht).
  rewrite !mem_char_app in Hm.
  repeat (apply orb_true_iff in Hm; destruct Hm as [Hm|Hm]).
  - rewrite (all_chars_mem _ _ _ H1 Hm) in Hb. discriminate.
  - rewrite (all_chars_mem _ _ _ H3 Hm) in Hs. discriminate.
  - rewrite (all_chars_mem _ _ _ H4 Hm) in Hw. discriminate.
  - destruct Ht as [->| ->]; [discriminate|].
    cbn in Hm. rewrite orb_false_r in Hm. apply Ascii.eqb_eq in Hm. subst c.
    discriminate.
Qed.

Lemma X17_witness : code_start "```c++" = None.
Proof. apply (X17_odd_tag_opens_no_fence "```c++" "+"%char); reflexivity. Defined.

(** ** Admonitions *)

Lemma admonition_body_spec : forall lines base_indent i text_lines code_blocks,
  admonition_body lines base_indent i (text_lines, code_blocks)
  = if admonition_line base_indent (nth i lines EmptyString) then
      if matches re_testcode (strip (nth i lines EmptyString)) then
        let '(i', code_blocks') := nested_testcode lines i code_blocks in
        Some (i', (text_lines, code_blocks'))
      else
        Some (S i, (text_lines ++ [admonition_text base_indent (nth i lines EmptyString)],
                    code_blocks))
    else None.
Proof.
  intros. unfold admonition_body, admonition_line, admonition_text.
  destruct (truthy (strip (nth i lines EmptyString))
            && (indent_of (nth i lines EmptyString) <? base_indent)
            && negb (startswith (nth i lines EmptyString) " ")); reflexivity.
Qed.

(** Without a nested [testcode] directive the loop of the admonition handler
    gathers one text for each line of the body. *)
Lemma admonition_loop : forall lines base_indent fuel i text_lines code_blocks,
  List.length lines - i <= fuel ->
  (forall l, In l (take_while (admonition_line base_indent) (skipn i lines)) ->
             matches re_testcode (strip l) = false) ->
  while_idx fuel (List.length lines) (admonition_body lines base_indent) i
            (text_lines, code_blocks)
  = (i + List.length (take_while (admonition_line base_indent) (skipn i lines)),
     (text_lines
        ++ map (admonition_text base_indent)
               (take_while (admonition_line base_indent) (skipn i lines)),
      code_blocks)).
Proof.
  intros lines base_indent. induction fuel as [|fuel IH];
    intros i text_lines code_blocks Hf Ht.
  - rewrite skipn_all2 by lia. simpl. rewrite app_nil_r. f_equal. lia.
  - cbn [while_idx]. destruct (i <? List.length lines) eqn:E.
    + apply Nat.ltb_lt in E. rewrite (skipn_cons_nth lines i E) in *.
      cbn [take_while] in *. rewrite admonition_body_spec.
      destruct (admonition_line base_indent (nth i lines EmptyString)) eqn:Ed.
      * rewrite (Ht _ (or_introl eq_refl)).
        rewrite IH by (try lia; intros l Hl; apply Ht; now right).
        cbn [List.length map]. rewrite <- app_assoc. f_equal. lia.
      * simpl. rewrite app_nil_r. f_equal. lia.
    + apply Nat.ltb_ge in E. rewrite skipn_all2 by lia. simpl.
      rewrite app_nil_r. f_equal. lia.
Qed.

Lemma filter_truthy_strip : forall xs,
  filter (fun line => truthy (strip line)) xs = filter not_blank xs.
Proof.
  intros xs. apply filter_ext. intros l. unfold not_blank, is_blank.
  now rewrite negb_involutive.
Qed.

Lemma pop_blank_nil : forall xs,
  pop_while is_blank xs = [] <-> filter not_blank xs = [].
Proof.
  intros xs. rewrite <- (filter_pop_blank xs).
  destruct (pop_while_spec is_blank xs) as (tail & _ & _ & Hl).
  split; intros H.
  - now rewrite H.
  - destruct Hl as [Hl|Hl]; [exact Hl|].
    destruct (pop_while is_blank xs) as [|y ys] eqn:Ep; [reflexivity|].
    assert (Hne : y :: ys <> []) by discriminate.
    destruct (exists_last Hne) as (a & x & Ea). rewrite Ea in *.
    rewrite last_last in Hl. rewrite filter_app in H. cbn [filter] in H.
    unfold not_blank at 2 in H. rewrite Hl in H. cbn [negb] in H.
    now destruct (filter not_blank a).
Qed.

Lemma forallb_false_in : forall (f : string -> bool) xs,
  forallb (fun l => negb (f l)) xs = true -> forall l, In l xs -> f l = false.
Proof.
  intros f xs H l Hl. rewrite forallb_forall in H. specialize (H l Hl).
  now destruct (f l).
Qed.

(** X18.  An admonition whose body holds no nested [testcode] directive:
    the handler passes the directive line and the body, which ends before
    the first line that is not blank and does not start with a space.  It
    emits a blank line, one label line and a blank line; the label holds the
    text of the directive line and then the body lines that are not blank,
    cut at the base indentation and joined by single spaces. *)
Theorem X18_admonition_text : forall lines i result directive_type inline_content,
  select lines i = H_admonition directive_type inline_content ->
  let base_indent := indent_of (nth i lines EmptyString) + 3 in
  let body := take_while (admonition_line base_indent) (skipn (S i) lines) in
  let texts := filter not_blank (map (admonition_text base_indent) body) in
  (forall l, In l body -> matches re_testcode (strip l) = false) ->
  step lines i result
  = (S i + List.length body,
     result
       ++ [EmptyString;
           admonition_label directive_type
             match texts with
             | [] => inline_content
             | _ =>
                 (if truthy inline_content then inline_content @@ " "
                  else EmptyString) @@ join " " texts
             end;
           EmptyString]).
Proof.
  intros lines i result ty inline H base_indent body texts Hb.
  rewrite step_select, H. unfold run_handler, h_admonition. cbv zeta.
  fold base_indent. rewrite admonition_loop by (try lia; exact Hb).
  fold body. cbn [app fold_left]. rewrite filter_truthy_strip, filter_pop_blank.
  fold texts. rewrite <- app_assoc. cbn [app]. unfold admonition_label.
  destruct (pop_blank_nil (map (admonition_text base_indent) body)) as [P1 P2].
  fold texts in P1, P2.
  destruct (pop_while is_blank (map (admonition_text base_indent) body)) eqn:Ep.
  - rewrite (P1 eq_refl). reflexivity.
  - destruct texts; [now specialize (P2 eq_refl)|]. reflexivity.
Qed.

Lemma X18_witness :
  step [".. note:: Mind"; EmptyString; "   the first"; EmptyString;
        "   and the second line."; "After"] 0 []
  = (5, [EmptyString; "**Note:** Mind the first and the second line."; EmptyString]).
Proof.
  apply (X18_admonition_text
           [".. note:: Mind"; EmptyString; "   the first"; EmptyString;
            "   and the second line."; "After"] 0 [] "note" "Mind").
  - vm_compute. reflexivity.
  - apply (forallb_false_in (fun l => matches re_testcode (strip l))).
    vm_compute. reflexivity.
Defined.

(** ** Lines the inline rewriter leaves alone *)

(** X19.  The inline rewriter leaves a line as it is when the line holds
    no colon (no role), no two adjacent backticks and no "<" (no link with a
    target); single backticks may stand in the line. *)
Theorem X19_inline_triggers : forall line,
  mem_char ":" line = false -> contains line "``" = false ->
  mem_char "<" line = false ->
  convert_inline line = line.
Proof.
  intros line Hc Hd Hl. unfold convert_inline, apply_rules, inline_rules.
  cbn [fold_left fst snd].
  rewrite !(re_sub_without ":"%char _ _ line) by (reflexivity || exact Hc).
  rewrite (double_backtick_without line Hd).
  apply (re_sub_without "<"%char); [reflexivity | exact Hl].
Qed.

Lemma X19_witness : convert_inline "Use `iface` and `canvas` here" = "Use `iface` and `canvas` here".
Proof. apply X19_inline_triggers; reflexivity. Defined.

(** ** The contents of the cells are stripped *)

Lemma length_rstrip : forall s, String.length (rstrip s) <= String.length s.
Proof.
  induction s as [|c s IH]; simpl; [lia|].
  destruct (rstrip s); [destruct (is_space c)|]; simpl in *; lia.
Qed.

Lemma lstrip_fixed : forall s, String.length (lstrip s) = String.length s -> lstrip s = s.
Proof.
  intros s H. destruct (lstrip_decomp s) as (ws & E & _).
  rewrite E in H at 2. rewrite length_append in H.
  destruct ws; [simpl in E; congruence | simpl in H; lia].
Qed.

Lemma strip_fixed_parts : forall s, strip s = s -> lstrip s = s /\ rstrip s = s.
Proof.
  intros s H. unfold strip in H.
  assert (L : lstrip s = s).
  { apply lstrip_fixed. pose proof (length_rstrip (lstrip s)) as H1.
    pose proof (length_lstrip s) as H2. rewrite H in H1. lia. }
  split; [exact L|]. now rewrite L in H.
Qed.

Lemma rstrip_fixed_app : forall a b,
  rstrip b = b -> b <> EmptyString -> rstrip (a @@ b) = a @@ b.
Proof.
  induction a as [|c a IH]; intros b Hb Hne; simpl; [exact Hb|].
  rewrite (IH b Hb Hne). destruct (a @@ b) eqn:E; [|reflexivity].
  destruct a; [simpl in E; congruence | discriminate].
Qed.

Lemma lstrip_fixed_app : forall a b,
  lstrip a = a -> a <> EmptyString -> lstrip (a @@ b) = a @@ b.
Proof.
  intros [|c a] b Ha Hne; [congruence|]. simpl in *.
  destruct (is_space c); [|reflexivity].
  pose proof (length_lstrip a) as H. rewrite Ha in H. simpl in H. lia.
Qed.

Lemma rstrip_cons : forall c s,
  rstrip (String c s)
  = match rstrip s with
    | EmptyString => if is_space c then EmptyString else String c EmptyString
    | r => String c r
    end.
Proof. reflexivity. Qed.

Lemma rstrip_idem : forall s, rstrip (rstrip s) = rstrip s.
Proof.
  induction s as [|c s IH]; [reflexivity|]. rewrite rstrip_cons.
  destruct (rstrip s) as [|d r] eqn:E.
  - destruct (is_space c) eqn:Ec; [reflexivity|]. simpl. now rewrite Ec.
  - rewrite rstrip_cons, IH. reflexivity.
Qed.

Lemma lstrip_head : forall s c x, lstrip s = String c x -> is_space c = false.
Proof.
  induction s as [|d s IH]; intros c x H; simpl in H; [discriminate|].
  destruct (is_space d) eqn:Ed; [now apply (IH c x)|].
  inversion H; subst. exact Ed.
Qed.

Lemma strip_idem : forall s, strip (strip s) = strip s.
Proof.
  intros s. unfold strip.
  assert (L : lstrip (rstrip (lstrip s)) = rstrip (lstrip s)).
  { destruct (lstrip s) as [|c x] eqn:E; [reflexivity|].
    pose proof (lstrip_head s c x E) as Hc.
    destruct (rstrip_head c x Hc) as [r ->]. simpl. now rewrite Hc. }
  rewrite L. apply rstrip_idem.
Qed.

Lemma trimmed_strip : forall text, strip text <> EmptyString -> trimmed (strip text).
Proof. intros text H. split; [apply strip_idem | exact H]. Qed.

Lemma trimmed_app : forall a sep b, trimmed a -> trimmed b -> trimmed (a @@ sep @@ b).
Proof.
  intros a sep b [Ha Hna] [Hb Hnb].
  apply strip_fixed_parts in Ha, Hb. destruct Ha as [La _], Hb as [_ Rb].
  split.
  - unfold strip. rewrite (lstrip_fixed_app a (sep @@ b) La Hna).
    rewrite <- append_assoc. apply rstrip_fixed_app; assumption.
  - destruct a; [congruence | discriminate].
Qed.

Lemma trimmed_join : forall sep x xs,
  Forall trimmed (x :: xs) -> trimmed (join sep (x :: xs)).
Proof.
  intros sep x xs. revert x. induction xs as [|y xs IH]; intros x H.
  - inversion H; assumption.
  - inversion H; subst. change (trimmed (x @@ sep @@ join sep (y :: xs))).
    apply trimmed_app; [assumption | apply IH; assumption].
Qed.

Lemma trimmed_fence : forall tag content,
  trimmed ("```" @@ tag @@ NLs @@ content @@ NLs @@ "```").
Proof.
  intros tag content. split; [|discriminate].
  unfold strip. cbn [append lstrip]. change (is_space "`"%char) with false. cbv iota.
  change (String "`" (String "`" (String "`" (tag @@ NLs @@ content @@ NLs @@ "```"))))
    with ("```" @@ tag @@ NLs @@ content @@ NLs @@ "```").
  rewrite <- !append_assoc. apply rstrip_fixed_app; [reflexivity | discriminate].
Qed.

Lemma from_nonblank_trimmed : forall c, from_nonblank c -> trimmed (snd c).
Proof.
  intros c (text & Hne & [E|[tag E]]).
  - rewrite E. apply trimmed_strip, Hne.
  - subst c. apply trimmed_fence.
Qed.

Lemma merge_runs_trimmed : forall cs md,
  Forall (fun c : cell => trimmed (snd c)) cs -> Forall trimmed md ->
  Forall (fun c : cell => trimmed (snd c)) (merge_runs cs md).
Proof.
  assert (Hflush : forall md, Forall trimmed md ->
            Forall (fun c : cell => trimmed (snd c)) (flush_md [] md)).
  { intros [|x md] H; [constructor|].
    constructor; [|constructor]. apply trimmed_join, H. }
  induction cs as [|[[|] x] cs IH]; intros md Hcs Hmd; simpl.
  - apply Hflush, Hmd.
  - inversion Hcs; subst. apply IH; [assumption|].
    apply Forall_app. split; [assumption|]. constructor; [assumption|constructor].
  - inversion Hcs; subst. apply Forall_app. split; [apply Hflush, Hmd|].
    constructor; [assumption|]. apply IH; auto.
Qed.

(** X20.  No cell of a notebook starts or ends with white space: every
    content is its own stripped form, also after prose cells are merged,
    given a title that is stripped itself (the title is used only when there
    is no other cell). *)
Theorem X20_cells_are_stripped : forall markdown_content title c,
  strip title = title ->
  In c (markdown_to_notebook markdown_content title) ->
  strip (snd c) = snd c.
Proof.
  intros md title c Ht Hin.
  destruct (notebook_cases md title) as [[_ E]|[_ E]]; rewrite E in Hin.
  - destruct Hin as [<-|[]]. cbn [snd].
    destruct (truthy title) eqn:Et; [|reflexivity].
    apply (trimmed_app "#" " " title); [split; [reflexivity | discriminate]|].
    split; [exact Ht | now apply truthy_true].
  - rewrite combine_cells_merge in Hin. cbn [app] in Hin.
    assert (H : Forall (fun c : cell => trimmed (snd c)) (merge_runs (raw_cells md) [])).
    { apply merge_runs_trimmed; [|constructor].
      eapply Forall_impl; [apply from_nonblank_trimmed|].
      apply seg_flush_from_nonblank, seg_fold_from_nonblank. constructor. }
    rewrite Forall_forall in H. apply (H c Hin).
Qed.

Lemma X20_witness :
  strip (snd (markdown, "# Title" @@ NLs @@ NLs @@ "text"))
  = snd (markdown, "# Title" @@ NLs @@ NLs @@ "text").
Proof.
  apply (X20_cells_are_stripped
           (join NLs [EmptyString; "  # Title  "; "```text"; "```"; " text "; EmptyString])
           "Demo" (markdown, "# Title" @@ NLs @@ NLs @@ "text")).
  - reflexivity.
  - vm_compute. left. reflexivity.
Defined.

(** ** A line ending in two colons that no block follows *)

Lemma hd_skipn_nth : forall (lines : list string) j d,
  hd d (skipn j lines) = nth j lines d.
Proof.
  induction lines as [|l lines IH]; intros [|j] d; try reflexivity.
  simpl. apply IH.
Qed.

(** X21.  A line ending in two colons, when the first line after it that is
    not blank is not indented by two spaces (or there is none): the handler
    emits the line with one colon (nothing when only the colons are there)
    and no fence, and it passes the blank lines after the line without
    emitting them. *)
Theorem X21_literal_without_block : forall lines i result,
  select lines i = H_literal ->
  let stripped := strip (nth i lines EmptyString) in
  let prefix := rstrip (take (String.length stripped - 2) stripped) in
  let next := hd EmptyString (drop_while is_blank (skipn (S i) lines)) in
  startswith next "  " || startswith next (String TAB EmptyString) = false ->
  step lines i result
  = (S i + List.length (take_while is_blank (skipn (S i) lines)),
     if truthy prefix then result ++ [prefix @@ ":"] else result).
Proof.
  intros lines i result H stripped prefix next Hn.
  rewrite step_select, H. unfold run_handler, h_literal. cbv zeta.
  fold stripped. fold prefix.
  rewrite <- (hd_skipn_nth lines (skip_lines lines is_blank (S i)) EmptyString).
  rewrite skipn_skip_lines. fold next. rewrite Hn, andb_false_r.
  rewrite skip_lines_spec. reflexivity.
Qed.

Lemma X21_witness :
  step ["For example::"; EmptyString; EmptyString; "The next paragraph."] 0 []
  = (3, ["For example:"]).
Proof.
  apply (X21_literal_without_block
           ["For example::"; EmptyString; EmptyString; "The next paragraph."] 0 []);
    vm_compute; reflexivity.
Defined.

(** ** Admonitions with a nested code block *)

(** The nested extraction as spans: the blank lines after the directive, then
    the body at the indentation of its first line. *)
Lemma nested_testcode_spec : forall lines i code_blocks,
  let rest := drop_while is_blank (skipn (S i) lines) in
  let base := body_base rest in
  let raw := take_while (in_body base) rest in
  let code_lines := pop_while is_blank (map (without_indent base) raw) in
  nested_testcode lines i code_blocks
  = (S i + List.length (take_while is_blank (skipn (S i) lines)) + List.length raw,
     match code_lines with
     | [] => code_blocks
     | _ => code_blocks ++ [join NLs code_lines]
     end).
Proof.
  intros lines i code_blocks rest base raw code_lines. unfold nested_testcode.
  cbv zeta. rewrite collect_code_spec, skipn_skip_lines.
  rewrite base_indent_at_spec.
  2:{ rewrite skipn_skip_lines. intros l r E. apply (drop_while_head is_blank _ _ _ E). }
  rewrite skipn_skip_lines. fold rest base raw. cbn [app].
  replace (map (dedent_line base) raw) with (map (without_indent base) raw).
  2:{ apply map_ext_in. intros l Hl. symmetry. apply dedent_in_body.
      apply (take_while_all _ _ _ Hl). }
  fold code_lines. rewrite skip_lines_spec. reflexivity.
Qed.

(** The loop of the admonition handler over the body lines before the first
    nested directive. *)
Lemma admonition_loop_texts : forall lines base_indent fuel i text_lines code_blocks,
  List.length lines - i <= fuel ->
  let before := take_while (admonition_text_line base_indent) (skipn i lines) in
  while_idx fuel (List.length lines) (admonition_body lines base_indent) i
            (text_lines, code_blocks)
  = while_idx (fuel - List.length before) (List.length lines)
      (admonition_body lines base_indent) (i + List.length before)
      (text_lines ++ map (admonition_text base_indent) before, code_blocks).
Proof.
  intros lines base_indent. induction fuel as [|fuel IH];
    intros i text_lines code_blocks Hf before.
  - subst before. rewrite skipn_all2 by lia. cbn [take_while List.length map].
    now rewrite Nat.add_0_r, app_nil_r.
  - destruct (Nat.ltb_spec i (List.length lines)) as [E|E].
    + subst before. rewrite (skipn_cons_nth lines i E). cbn [take_while].
      destruct (admonition_text_line base_indent (nth i lines EmptyString)) eqn:Ex;
        cbn [List.length map].
      * unfold admonition_text_line in Ex. apply andb_true_iff in Ex.
        destruct Ex as [Ea Et]. apply negb_true_iff in Et.
        cbn [while_idx]. apply Nat.ltb_lt in E. rewrite E.
        rewrite admonition_body_spec, Ea, Et. apply Nat.ltb_lt in E.
        rewrite IH by lia.
        rewrite <- app_assoc. cbn [app Nat.sub].
        replace (S i + List.length (take_while (admonition_text_line base_indent)
                                     (skipn (S i) lines)))
          with (i + S (List.length (take_while (admonition_text_line base_indent)
                                     (skipn (S i) lines)))) by lia.
        reflexivity.
      * now rewrite Nat.sub_0_r, Nat.add_0_r, app_nil_r.
    + subst before. rewrite skipn_all2 by lia. cbn [take_while List.length map].
      now rewrite Nat.sub_0_r, Nat.add_0_r, app_nil_r.
Qed.

Lemma skipn_tail : forall (lines : list string) k l rest,
  skipn k lines = l :: rest -> skipn (S k) lines = rest.
Proof.
  induction lines as [|x lines IH]; intros [|k] l rest H; simpl in H; try discriminate.
  - now inversion H.
  - apply (IH k l rest H).
Qed.

Lemma length_take_while_le : forall p (ls : list string),
  List.length (take_while p ls) <= List.length ls.
Proof.
  intros p. induction ls as [|l ls IH]; simpl; [lia|].
  destruct (p l); simpl; lia.
Qed.

Lemma label_text_spec : forall xs (inline pre : string),
  match pop_while is_blank xs with
  | [] => inline
  | _ => pre @@ join " " (filter (fun line => truthy (strip line))
                                 (pop_while is_blank xs))
  end
  = match filter not_blank xs with
    | [] => inline
    | _ => pre @@ join " " (filter not_blank xs)
    end.
Proof.
  intros xs inline pre. rewrite filter_truthy_strip, filter_pop_blank.
  destruct (pop_blank_nil xs) as [P1 P2].
  destruct (pop_while is_blank xs) eqn:Ep.
  - now rewrite (P1 eq_refl).
  - destruct (filter not_blank xs); [now specialize (P2 eq_refl) | reflexivity].
Qed.

(** X22.  An admonition with a nested [testcode] directive in its body:
    the body lines before the directive and the body lines after the nested
    code all go to the label, in their order, and the code is emitted after
    the label in a fence tagged python, as one entry, without its base
    indentation and trailing blank lines; when the code is empty no fence is
    emitted.  The nested code starts after the blank lines that follow the
    directive and ends before the first line indented less than its first
    line. *)
Theorem X22_admonition_nested_code :
  forall lines i result directive_type inline_content tc r2,
  select lines i = H_admonition directive_type inline_content ->
  let base_indent := indent_of (nth i lines EmptyString) + 3 in
  let before := take_while (admonition_text_line base_indent) (skipn (S i) lines) in
  drop_while (admonition_text_line base_indent) (skipn (S i) lines) = tc :: r2 ->
  admonition_line base_indent tc = true ->
  let blanks := take_while is_blank r2 in
  let r3 := drop_while is_blank r2 in
  let code_base := body_base r3 in
  let raw := take_while (in_body code_base) r3 in
  let code_lines := pop_while is_blank (map (without_indent code_base) raw) in
  let after :=
    take_while (admonition_line base_indent) (drop_while (in_body code_base) r3) in
  (forall l, In l after -> matches re_testcode (strip l) = false) ->
  let texts :=
    filter not_blank (map (admonition_text base_indent) (before ++ after)) in
  step lines i result
  = (S i + List.length before + 1 + List.length blanks + List.length raw
       + List.length after,
     result
       ++ [EmptyString;
           admonition_label directive_type
             match texts with
             | [] => inline_content
             | _ =>
                 (if truthy inline_content then inline_content @@ " "
                  else EmptyString) @@ join " " texts
             end;
           EmptyString]
       ++ match code_lines with
          | [] => []
          | _ => ["```python"; join NLs code_lines; "```"; EmptyString]
          end).
Proof.
  intros lines i result ty inline tc r2 H base_indent before Hd Htc
         blanks r3 code_base raw code_lines after Ha texts.
  rewrite step_select, H. unfold run_handler, h_admonition. cbv zeta.
  fold base_indent.
  rewrite admonition_loop_texts by lia. fold before. cbn [app].
  set (k := S i + List.length before).
  assert (Hk : skipn k lines = tc :: r2).
  { unfold k. rewrite Nat.add_comm, <- skipn_skipn. subst before.
    rewrite skipn_take_while. exact Hd. }
  destruct (skipn_head _ _ _ _ Hk) as [Hlt Hnth].
  pose proof (skipn_tail _ _ _ _ Hk) as Hk'.
  assert (Ht : matches re_testcode (strip tc) = true).
  { pose proof (drop_while_head _ _ _ _ Hd) as Hn.
    unfold admonition_text_line in Hn. rewrite Htc in Hn. cbn [andb] in Hn.
    now apply negb_false_iff in Hn. }
  pose proof (length_take_while_le (admonition_text_line base_indent)
                (skipn (S i) lines)) as Hle.
  fold before in Hle. rewrite length_skipn in Hle.
  destruct (List.length lines - S i - List.length before) as [|f] eqn:Ef;
    [unfold k in Hlt; lia|].
  cbn [while_idx]. apply Nat.ltb_lt in Hlt. rewrite Hlt. apply Nat.ltb_lt in Hlt.
  rewrite admonition_body_spec, Hnth, Htc, Ht.
  rewrite nested_testcode_spec, Hk'. fold blanks r3 code_base raw code_lines.
  set (k' := S k + List.length blanks + List.length raw).
  assert (Hs : skipn k' lines = drop_while (in_body code_base) r3).
  { unfold k'. rewrite Nat.add_comm, <- skipn_skipn.
    rewrite (Nat.add_comm (S k)), <- skipn_skipn, Hk'.
    subst blanks raw r3. now rewrite !skipn_take_while. }
  rewrite admonition_loop.
  2:{ unfold k', k. lia. }
  2:{ rewrite Hs. exact Ha. }
  rewrite Hs. fold after.
  rewrite <- map_app, label_text_spec. fold texts.
  f_equal; [unfold k', k; lia|].
  unfold admonition_label. rewrite <- !app_assoc. cbn [app].
  destruct code_lines; cbn [fold_left app]; rewrite <- ?app_assoc; reflexivity.
Qed.

Lemma X22_witness :
  step [".. tip:: Try"; "   this first:"; EmptyString; "   .. testcode::"; EmptyString;
        "      x = 1"; "      print(x)"; EmptyString; "   Then go on."; "After"] 0 []
  = (9, [EmptyString; "**Tip:** Try this first: Then go on."; EmptyString;
         "```python"; "x = 1" @@ NLs @@ "print(x)"; "```"; EmptyString]).
Proof.
  apply (X22_admonition_nested_code
           [".. tip:: Try"; "   this first:"; EmptyString; "   .. testcode::"; EmptyString;
            "      x = 1"; "      print(x)"; EmptyString; "   Then go on."; "After"]
           0 [] "tip" "Try" "   .. testcode::"
           [EmptyString; "      x = 1"; "      print(x)"; EmptyString;
            "   Then go on."; "After"]).
  - vm_compute. reflexivity.
  - vm_compute. reflexivity.
  - vm_compute. reflexivity.
  - apply (forallb_false_in (fun l => matches re_testcode (strip l))).
    vm_compute. reflexivity.
Defined.

(** ** Blank runs in the assembled text *)

Lemma collapse_blank_incl : forall result prev_empty l,
  In l (collapse_blank result prev_empty) -> In l result.
Proof.
  induction result as [|x result IH]; intros prev_empty l H; [exact H|].
  cbn [collapse_blank] in H. cbv zeta in H.
  destruct (is_blank x && prev_empty).
  - right. apply (IH _ _ H).
  - destruct H as [H|H]; [now left | right; apply (IH _ _ H)].
Qed.

Lemma drop_while_incl : forall p (xs : list string) l,
  In l (drop_while p xs) -> In l xs.
Proof.
  intros p. induction xs as [|x xs IH]; intros l H; [exact H|].
  cbn [drop_while] in H. destruct (p x); [right; apply IH, H | exact H].
Qed.

Lemma pop_while_incl : forall p (xs : list string) l,
  In l (pop_while p xs) -> In l xs.
Proof.
  intros p xs l H. destruct (pop_while_spec p xs) as (tail & E & _).
  rewrite E. apply in_or_app. now left.
Qed.

Lemma clean_lines_incl : forall result l, In l (clean_lines result) -> In l result.
Proof.
  intros result l H. unfold clean_lines in H. rewrite pop0_drop_while in H.
  apply pop_while_incl, drop_while_incl, collapse_blank_incl in H. exact H.
Qed.

(** Joining entries that hold no line feed and splitting again gives the
    entries. *)
Lemma split_join : forall x xs,
  (forall l, In l (x :: xs) -> mem_char NL l = false) ->
  split NL (join NLs (x :: xs)) = x :: xs.
Proof.
  intros x xs. revert x. induction xs as [|y xs IH]; intros x H.
  - cbn [join]. rewrite <- (append_empty_r x) at 1.
    rewrite split_prepend by (apply H; now left). cbn [split].
    now rewrite !append_empty_r.
  - change (join NLs (x :: y :: xs)) with (x @@ NLs @@ join NLs (y :: xs)).
    rewrite split_prepend by (apply H; now left).
    change (NLs @@ join NLs (y :: xs)) with (String NL (join NLs (y :: xs))).
    cbn [split]. rewrite Ascii.eqb_refl, IH by (intros l Hl; apply H; now right).
    now rewrite append_empty_r.
Qed.

(** X1.  The entries of the output buffer that the assembler joins never
    hold two blank entries side by side; so, when no entry holds a line feed,
    the assembled text has no two blank lines side by side. *)
Theorem X1_assembler_no_blank_run : forall result,
  no_blank_run (clean_lines result) = true
  /\ assemble result = join NLs (clean_lines result)
  /\ ((forall l, In l result -> mem_char NL l = false) ->
      no_blank_run (split NL (assemble result)) = true).
Proof.
  intros result. split; [apply clean_lines_no_blank_run|]. split; [reflexivity|].
  intros H. rewrite assemble_clean_lines.
  destruct (clean_lines result) as [|x xs] eqn:E; [reflexivity|].
  rewrite split_join.
  - rewrite <- E. apply clean_lines_no_blank_run.
  - intros l Hl. apply H, clean_lines_incl. now rewrite E.
Qed.

Lemma X1_witness :
  no_blank_run
    (split NL (assemble ["# T"; EmptyString; "  "; EmptyString; "text"; EmptyString]))
  = true.
Proof.
  apply (proj2 (proj2 (X1_assembler_no_blank_run
                         ["# T"; EmptyString; "  "; EmptyString; "text"; EmptyString]))).
  intros l Hl. repeat (destruct Hl as [<-|Hl]; [reflexivity|]). destruct Hl.
Defined.

(** An entry that holds line feeds is joined as it is: the code nested in
    an admonition is one entry, and a blank run inside it stays in the
    text. *)
Lemma blank_run_in_nested_code :
  rst_to_markdown
    (join NLs [".. note:: n"; "   .. testcode::"; EmptyString; "      a = 1";
               EmptyString; EmptyString; "      b = 2"])
  = join NLs ["**Note:** n"; EmptyString; "```python"; "a = 1"; EmptyString;
              EmptyString; "b = 2"; "```"]
  /\ no_blank_run
       (split NL
          (rst_to_markdown
             (join NLs [".. note:: n"; "   .. testcode::"; EmptyString;
                        "      a = 1"; EmptyString; EmptyString; "      b = 2"])))
     = false.
Proof. split; vm_compute; reflexivity. Qed.
